(** * Xbox game-store discovery: a shallow embedding and its properties

    The development follows the two discovery pipelines of the extension:

    - [GamingRoot]: the [.GamingRoot] marker decoder and the manifest scan
      ([findXboxGamingRootPath], [findXboxGamingRootPaths], [findManifests],
      [getAppManifestData], [findInstalledGames]);
    - [Launcher]: the registry side of [XboxLauncher] in [index.ts]
      ([getKeyNames], [getFirstKeyName], [resolveMutableLocation],
      [resolveRef], [getGameEntries], [allGames], [reloadGames]).

    Promises are modelled by their settled state, exceptions by an explicit
    completion type, and the environment (file system, registry) by records
    of functions that every operation receives as an argument.  Calls to
    [log] have no influence on results and are left out. *)

From Stdlib Require Import ZArith List String Ascii Bool Lia.
From stdpp Require Import gmap strings list fin_maps.

Local Open Scope Z_scope.

(** ** Exceptions and promises *)

(** What a [throw] carries: an error with a [code] property (file system
    and registry failures), a plain [Error] built by the extension, or one
    of the two errors that the engine itself raises in this code: a
    [TypeError] (a method called on a value that does not have it) and a
    [RangeError] (a call with more arguments than the engine accepts).  The
    messages of the last two are the engine's. *)
Inductive JsError (S : Type) : Type :=
| ErrnoError (code : string)
| Error (message : S)
| TypeError
| RangeError.
Arguments ErrnoError {S} code.
Arguments Error {S} message.
Arguments TypeError {S}.
Arguments RangeError {S}.

(** Result of running a block of statements: it completes or it throws. *)
Inductive Completion (S A : Type) : Type :=
| Normal (a : A)
| Throw (e : JsError S).
Arguments Normal {S A} a.
Arguments Throw {S A} e.

(** Settled state of a promise. *)
Inductive Promise (S A : Type) : Type :=
| Resolved (a : A)
| Rejected (e : JsError S).
Arguments Resolved {S A} a.
Arguments Rejected {S A} e.

Definition bindC {S A B} (c : Completion S A) (k : A -> Completion S B)
  : Completion S B :=
  match c with
  | Normal a => k a
  | Throw e => Throw e
  end.

(** [await p] inside a [try] block: a rejection becomes a throw. *)
Definition await {S A} (p : Promise S A) : Completion S A :=
  match p with
  | Resolved a => Normal a
  | Rejected e => Throw e
  end.

(** An [async] function without a handler of its own: a throw rejects. *)
Definition settle {S A} (c : Completion S A) : Promise S A :=
  match c with
  | Normal a => Resolved a
  | Throw e => Rejected e
  end.

Declare Scope js_scope.
Delimit Scope js_scope with js.
Notation "'let!' x ':=' c 'in' k" := (bindC c (fun x => k))
  (at level 10, x name, c at level 100, k at level 200) : js_scope.

(** JavaScript [Array.prototype.slice(start, end)]. *)
Definition slice {A} (start end_ : Z) (l : list A) : list A :=
  let len := Z.of_nat (length l) in
  let k := if start <? 0 then Z.max (len + start) 0 else Z.min start len in
  let final := if end_ <? 0 then Z.max (len + end_) 0 else Z.min end_ len in
  firstn (Z.to_nat (final - k)) (skipn (Z.to_nat k) l).

(** ** The marker decoder and the manifest scan *)

Module GamingRoot.

(** On this side strings are built from numeric code units
    ([String.fromCharCode]), so a string is the list of its UTF-16 units. *)
Definition jsstring := list Z.

Definition str (s : string) : jsstring :=
  map (fun a => Z.of_nat (nat_of_ascii a)) (list_ascii_of_string s).

Definition Err := JsError jsstring.

(** [String.fromCharCode(...units)]: every argument goes through
    ToUint16. *)
Definition fromCharCode (units : list Z) : jsstring :=
  map (fun u => u mod 65536) units.

Definition byteValue (b : Byte.byte) : Z := Z.of_N (Byte.to_N b).

Record Stats := { isFile : bool }.

(** Parsed manifest, as far as [data?.Package?.Identity?.[0]?.$?.Name]
    looks into it; [None] stands for a missing (or non-object) property. *)
Record IdentityNode := { attrs : option (gmap jsstring jsstring) }.
Record PackageNode := { Identity : option (list IdentityNode) }.
Record ManifestXml := { Package : option PackageNode }.

(** The host: extension API state, [util], [fs], [turbowalk], [xml2js] and
    the functions of Node's [path] module the scan calls.  [APP_MANIFEST]
    is imported from [./common].  [argumentsLimit] is the largest number of
    arguments that the engine accepts in a call made with [apply]; a call
    with one argument always fits. *)
Record Host := {
  argumentsLimit : positive;
  searchPaths : list jsstring;
  getDriveList : Promise jsstring (list jsstring);
  statAsync : jsstring -> Promise jsstring Stats;
  readFileAsync : jsstring -> Promise jsstring (list Byte.byte);
  readFileUtf8 : jsstring -> Promise jsstring jsstring;
  parseStringPromise : jsstring -> Promise jsstring (option ManifestXml);
  walk : jsstring -> bool -> Promise jsstring (list jsstring);
  path_basename : jsstring -> jsstring;
  path_dirname : jsstring -> jsstring;
  path_join : jsstring -> jsstring -> jsstring;
  APP_MANIFEST : jsstring
}.

(** [String.fromCharCode.apply(null, units)]: the elements of the array
    become the arguments of the call; with more of them than the engine
    accepts the call throws a [RangeError]. *)
Definition fromCharCode_apply (h : Host) (units : list Z)
  : Completion jsstring jsstring :=
  if Z.of_nat (length units) <=? Z.pos (argumentsLimit h)
  then Normal (fromCharCode units)
  else Throw RangeError.

(** [a === b] on strings. *)
Definition jsstring_eqb (a b : jsstring) : bool := bool_decide (a = b).

(** The loop [for (i = 0; i < fileContent.length; i += 2)]: two bytes per
    round, low byte first.  A last byte without a partner would be combined
    with [undefined << 8], which is 0.  On operands below 256 the 32-bit
    operators of JavaScript do not wrap. *)
Fixpoint decodeUnits (fileContent : list Byte.byte) : list Z :=
  match fileContent with
  | highByte :: lowByte :: rest =>
      Z.lor (byteValue highByte) (Z.shiftl (byteValue lowByte) 8)
      :: decodeUnits rest
  | highByte :: nil => Z.lor (byteValue highByte) (Z.shiftl 0 8) :: nil
  | nil => nil
  end.

Definition CHAR16_PATH_OFFSET : Z := 4.

(** The double-quote character of the two error messages. *)
Definition dquote : jsstring := 34 :: nil.

Definition oddLengthError (gamingRootFilePath : jsstring) : Err :=
  Error (str "Found a non-even number of bytes in the file at " ++
         dquote ++ gamingRootFilePath ++ dquote).

Definition tooShortError (gamingRootFilePath : jsstring) : Err :=
  Error (str "The file at " ++ dquote ++ gamingRootFilePath ++
         dquote ++ str " is shorter than expected.").

(** The body of the [try] block of [findXboxGamingRootPath]. *)
Definition findXboxGamingRootPath_try (h : Host)
    (driveRootPath gamingRootFilePath : jsstring)
  : Completion jsstring (option jsstring) :=
  (let! fileStats := await (statAsync h gamingRootFilePath) in
   if negb (isFile fileStats) then Normal None else
   let! fileContent := await (readFileAsync h gamingRootFilePath) in
   if negb (Z.of_nat (length fileContent) mod 2 =? 0)
   then Throw (oddLengthError gamingRootFilePath) else
   let content := decodeUnits fileContent in
   if Z.of_nat (length content) <? CHAR16_PATH_OFFSET + 1
   then Throw (tooShortError gamingRootFilePath) else
   let! relativePath :=
     fromCharCode_apply h (slice CHAR16_PATH_OFFSET (-1) content) in
   Normal (Some (driveRootPath ++ relativePath)))%js.

(** [findXboxGamingRootPath]: the [catch] clause turns every throw of the
    body into the [null] result. *)
Definition findXboxGamingRootPath (h : Host) (driveRootPath : jsstring)
  : Promise jsstring (option jsstring) :=
  let gamingRootFilePath := driveRootPath ++ str ".GamingRoot" in
  match findXboxGamingRootPath_try h driveRootPath gamingRootFilePath with
  | Normal r => Resolved r
  | Throw err => Resolved None
  end.

(** The loop of [findXboxGamingRootPaths] over the drives, with the array
    [gamingRootPaths] built so far. *)
Fixpoint scanDrives (h : Host) (drives gamingRootPaths : list jsstring)
  : Completion jsstring (list jsstring) :=
  match drives with
  | nil => Normal gamingRootPaths
  | drive :: rest =>
      (let! gamingRootPath := await (findXboxGamingRootPath h drive) in
       scanDrives h rest
         match gamingRootPath with
         | Some p => gamingRootPaths ++ p :: nil
         | None => gamingRootPaths
         end)%js
  end.

Definition findXboxGamingRootPaths (h : Host)
  : Promise jsstring (list jsstring) :=
  settle
    (let! drives :=
       match searchPaths h with
       | nil => await (getDriveList h)
       | drives => Normal drives
       end in
     scanDrives h drives nil)%js.

(** [walk] reports entries to its callback; the model's [walk] yields the
    file paths of all reported entries in the order of the reports. *)
Definition findManifests (h : Host) (rootPath : jsstring) (recurse : bool)
  : Promise jsstring (list jsstring) :=
  settle
    (let! entries := await (walk h rootPath recurse) in
     Normal (filter
               (fun filePath => path_basename h filePath = APP_MANIFEST h)
               entries))%js.

(** [getAppManifestData]: the final [catch] resolves to [undefined]. *)
Definition getAppManifestData (h : Host) (filePath : jsstring)
  : Promise jsstring (option ManifestXml) :=
  let appManifestFilePath := path_join h filePath (APP_MANIFEST h) in
  match readFileUtf8 h appManifestFilePath with
  | Resolved data =>
      match parseStringPromise h data with
      | Resolved parsed => Resolved parsed
      | Rejected err => Resolved None
      end
  | Rejected err => Resolved None
  end.

(** [data?.Package?.Identity?.[0]?.$?.Name] *)
Definition identityName (data : option ManifestXml) : option jsstring :=
  d ← data; p ← Package d; ids ← Identity p; i ← head ids;
  a ← attrs i; a !! str "Name".

(** [gamePathMap[appId] = gamePath] on a plain object: the key becomes an
    own property holding the new value, except for the key [__proto__],
    whose inherited setter ignores a string. *)
Definition assign (gamePathMap : gmap jsstring jsstring)
    (appId gamePath : jsstring) : gmap jsstring jsstring :=
  if jsstring_eqb appId (str "__proto__") then gamePathMap
  else <[appId := gamePath]> gamePathMap.

(** The inner loop of [findInstalledGames], over the manifests of one
    gaming root.  The test [if (appId)] holds for a defined, non-empty
    string. *)
Fixpoint scanManifests (h : Host) (manifests : list jsstring)
    (gamePathMap : gmap jsstring jsstring)
  : Completion jsstring (gmap jsstring jsstring) :=
  match manifests with
  | nil => Normal gamePathMap
  | manifest :: rest =>
      let gamePath := path_dirname h manifest in
      (let! data := await (getAppManifestData h gamePath) in
       let appId := identityName data in
       scanManifests h rest
         match appId with
         | Some ((c :: cs) as appId) => assign gamePathMap appId gamePath
         | _ => gamePathMap
         end)%js
  end.

(** The outer loop of [findInstalledGames], over the gaming roots. *)
Fixpoint scanRoots (h : Host) (gamingRootPaths : list jsstring)
    (gamePathMap : gmap jsstring jsstring)
  : Completion jsstring (gmap jsstring jsstring) :=
  match gamingRootPaths with
  | nil => Normal gamePathMap
  | gamingRootPath :: rest =>
      (let! manifests := await (findManifests h gamingRootPath true) in
       let! gamePathMap' := scanManifests h manifests gamePathMap in
       scanRoots h rest gamePathMap')%js
  end.

Definition findInstalledGames (h : Host)
  : Promise jsstring (gmap jsstring jsstring) :=
  settle
    (let! gamingRootPaths := await (findXboxGamingRootPaths h) in
     scanRoots h gamingRootPaths ∅)%js.

(** What one round of the inner loop of [findInstalledGames] does to the
    map (the loop body of [scanManifests], used to state its lemmas). *)
Definition recordManifest (h : Host) (manifest : jsstring)
    (gamePathMap : gmap jsstring jsstring) : gmap jsstring jsstring :=
  match getAppManifestData h (path_dirname h manifest) with
  | Resolved data =>
      match identityName data with
      | Some ((c :: cs) as appId) =>
          assign gamePathMap appId (path_dirname h manifest)
      | _ => gamePathMap
      end
  | Rejected _ => gamePathMap
  end.

(** A manifest whose identity is not [id]. *)
Definition otherIdentity (h : Host) (id manifest : jsstring) : Prop :=
  forall data, getAppManifestData h (path_dirname h manifest) = Resolved data ->
               identityName data <> Some id.

(** *** A concrete host

    Two drives with a marker each, the title Foo installed on both and
    the title Bar on the second, and a third drive whose marker has an odd
    number of bytes.  The toy manifest parser takes the whole file content
    for the identity name. *)

Definition backslash : Z := 92.

Fixpoint lastSegment (acc : jsstring) (p : jsstring) : jsstring :=
  match p with
  | nil => acc
  | c :: rest => if c =? backslash then lastSegment nil rest
                 else lastSegment (acc ++ c :: nil) rest
  end.

(** Node's [path.win32.basename], [dirname] and [join] on the absolute,
    backslash-separated paths of the example. *)
Definition simple_basename (p : jsstring) : jsstring := lastSegment nil p.

Definition simple_dirname (p : jsstring) : jsstring :=
  firstn (length p - length (simple_basename p) - 1)%nat p.

Definition simple_join (a b : jsstring) : jsstring :=
  a ++ backslash :: b.

Import Byte.

Definition markerA : list byte :=
  x52 :: x47 :: x42 :: x58 :: x01 :: x00 :: x00 :: x00 ::
  x41 :: x00 :: x00 :: x00 :: nil.

Definition markerB : list byte :=
  x52 :: x47 :: x42 :: x58 :: x01 :: x00 :: x00 :: x00 ::
  x42 :: x00 :: x00 :: x00 :: nil.

Definition markerOdd : list byte :=
  x52 :: x47 :: x42 :: x58 :: x01 :: x00 :: x00 :: x00 ::
  x41 :: x00 :: x00 :: nil.

Definition ENOENT : Err := ErrnoError "ENOENT".

Definition manifestOf (name : jsstring) : ManifestXml :=
  {| Package := Some {| Identity :=
       Some ({| attrs := Some {[ str "Name" := name ]} |} :: nil) |} |}.

Definition exampleHost : Host := {|
  argumentsLimit := 65535%positive;
  searchPaths := str "C:\" :: str "D:\" :: str "E:\" :: nil;
  getDriveList := Resolved nil;
  statAsync := fun p =>
    if jsstring_eqb p (str "C:\.GamingRoot")
       || jsstring_eqb p (str "D:\.GamingRoot")
       || jsstring_eqb p (str "E:\.GamingRoot")
    then Resolved {| isFile := true |} else Rejected ENOENT;
  readFileAsync := fun p =>
    if jsstring_eqb p (str "C:\.GamingRoot") then Resolved markerB
    else if jsstring_eqb p (str "D:\.GamingRoot") then Resolved markerA
    else if jsstring_eqb p (str "E:\.GamingRoot") then Resolved markerOdd
    else Rejected ENOENT;
  readFileUtf8 := fun p =>
    if jsstring_eqb p (str "C:\B\Foo\appxmanifest.xml")
       || jsstring_eqb p (str "D:\A\Foo\appxmanifest.xml")
    then Resolved (str "Foo")
    else if jsstring_eqb p (str "D:\A\Bar\appxmanifest.xml")
    then Resolved (str "Bar") else Rejected ENOENT;
  parseStringPromise := fun data => Resolved (Some (manifestOf data));
  walk := fun rootPath recurse =>
    if jsstring_eqb rootPath (str "C:\B")
    then Resolved (str "C:\B\Foo" :: str "C:\B\Foo\appxmanifest.xml" :: nil)
    else if jsstring_eqb rootPath (str "D:\A")
    then Resolved (str "D:\A\Foo" :: str "D:\A\Foo\appxmanifest.xml" ::
                   str "D:\A\Bar" :: str "D:\A\Bar\appxmanifest.xml" :: nil)
    else Rejected ENOENT;
  path_basename := simple_basename;
  path_dirname := simple_dirname;
  path_join := simple_join;
  APP_MANIFEST := str "appxmanifest.xml"
|}.

End GamingRoot.

(** ** The registry side: [XboxLauncher] *)

Module Launcher.

Definition Err := JsError string.

(** *** String methods used by the launcher

    Registry names are strings of characters.  The methods below work
    character by character; [toLowerCase] follows the case mapping of the
    engine and is a function of the environment (see [Env]). *)

(** [s.startsWith(prefix)] *)
Fixpoint startsWith (s prefix : string) : bool :=
  match prefix, s with
  | EmptyString, _ => true
  | String _ _, EmptyString => false
  | String a prefix', String b s' =>
      if Ascii.eqb a b then startsWith s' prefix' else false
  end.

(** [s.split(sep)] for a separator of one character. *)
Fixpoint split (sep : ascii) (s : string) : list string :=
  match s with
  | EmptyString => EmptyString :: nil
  | String c rest =>
      if Ascii.eqb c sep then EmptyString :: split sep rest
      else match split sep rest with
           | seg :: segs => String c seg :: segs
           | nil => String c EmptyString :: nil
           end
  end.

(** [s.indexOf(ch)] and [s.lastIndexOf(ch)]: -1 when [ch] does not occur. *)
Fixpoint indexOf (ch : ascii) (s : string) : Z :=
  match s with
  | EmptyString => -1
  | String c rest =>
      if Ascii.eqb c ch then 0
      else let i := indexOf ch rest in if i <? 0 then -1 else i + 1
  end.

Fixpoint lastIndexOf (ch : ascii) (s : string) : Z :=
  match s with
  | EmptyString => -1
  | String c rest =>
      let i := lastIndexOf ch rest in
      if 0 <=? i then i + 1 else if Ascii.eqb c ch then 0 else -1
  end.

Definition strlen (s : string) : Z := Z.of_nat (String.length s).

(** [s.substring(start, end)]: both indices are clamped to [0, length] and
    swapped when out of order. *)
Definition substring (s : string) (start end_ : Z) : string :=
  let a := Z.min (Z.max start 0) (strlen s) in
  let b := Z.min (Z.max end_ 0) (strlen s) in
  let lo := Z.min a b in
  let hi := Z.max a b in
  String.substring (Z.to_nat lo) (Z.to_nat (hi - lo)) s.

(** [s.substr(start)]: a negative start counts from the end. *)
Definition substr (s : string) (start : Z) : string :=
  let from :=
    if start <? 0 then Z.max (strlen s + start) 0
    else Z.min start (strlen s) in
  String.substring (Z.to_nat from) (Z.to_nat (strlen s - from)) s.

Fixpoint dropChars (n : nat) (s : string) : string :=
  match n, s with
  | O, _ => s
  | S n', String _ rest => dropChars n' rest
  | S _, EmptyString => EmptyString
  end.

(** The text that [replace] puts in the place of a match of a string
    pattern (there are no captures): in the replacement string [$$] stands
    for a dollar sign, [$&] for the matched text, [$`] for what precedes
    the match and [$'] for what follows it; every other dollar sign stands
    for itself. *)
Fixpoint getSubstitution (matched before after template : string) : string :=
  match template with
  | EmptyString => EmptyString
  | String c rest =>
      if Ascii.eqb c "$" then
        match rest with
        | String d rest' =>
            if Ascii.eqb d "$"
            then String "$" (getSubstitution matched before after rest')
            else if Ascii.eqb d "&"
            then matched +:+ getSubstitution matched before after rest'
            else if Ascii.eqb d "`"
            then before +:+ getSubstitution matched before after rest'
            else if Ascii.eqb d "'"
            then after +:+ getSubstitution matched before after rest'
            else String c (getSubstitution matched before after rest)
        | EmptyString => String c EmptyString
        end
      else String c (getSubstitution matched before after rest)
  end.

(** The search of [replace] for the first occurrence of the pattern, with
    the part of the string already passed. *)
Fixpoint replaceFrom (before s pattern replacement : string) : string :=
  if startsWith s pattern
  then
    let after := dropChars (String.length pattern) s in
    getSubstitution pattern before after replacement +:+ after
  else match s with
       | EmptyString => EmptyString
       | String c rest =>
           String c (replaceFrom (before +:+ String c EmptyString) rest
                                 pattern replacement)
       end.

(** [s.replace(pattern, replacement)] with a string pattern: the first
    occurrence is replaced; without an occurrence the string is returned
    as it is. *)
Definition replace (s pattern replacement : string) : string :=
  replaceFrom EmptyString s pattern replacement.

(** *** Constants of [index.ts] *)

Definition STORE_ID : string := "xbox".
Definition XBOXAPP_NAME : string := "microsoft.xboxapp".

Definition IGNORABLE : list string :=
  "microsoft.accounts" :: "microsoft.aad" :: "microsoft.advertising" ::
  "microsoft.bing" :: "microsoft.desktop" :: "microsoft.directx" ::
  "microsoft.gethelp" :: "microsoft.getstarted" :: "microsoft.hefi" ::
  "microsoft.lockapp" :: "microsoft.microsoft" :: "microsoft.net" ::
  "microsoft.office" :: "microsoft.oneconnect" :: "microsoft.services" ::
  "microsoft.ui" :: "microsoft.vclibs" :: "microsoft.windows" ::
  "microsoft.xbox" :: "microsoft.zune" :: "nvidiacorp" :: "realtek" ::
  "samsung" :: "synapticsincorporated" :: "windows" :: nil.

Definition REPOSITORY_PATH : string :=
  "Local Settings\Software\Microsoft\Windows\CurrentVersion\AppModel\Repository\Packages".

Definition REPOSITORY_PATH2 : string :=
  "Local Settings\Software\Microsoft\Windows\CurrentVersion\AppModel\PackageRepository\Packages".

Definition MUTABLE_LOCATION_PATH : string :=
  "SOFTWARE\Microsoft\Windows\CurrentVersion\AppModel\StateRepository\Cache\Package\Data".

Definition RESOURCES_PATH : string :=
  "Local Settings\MrtCache\C:%5CProgram Files%5CWindowsApps%5C{{PACKAGE_ID}}%5Cresources.pri".

(** *** Values read from the registry

    What the [value] field of a [RegGetValue] result holds at run time: a
    string for the string types, a number, a [Buffer] or an array of
    strings for the other types, and nothing for a type that the binding
    does not convert.  The casts [as string] of the source check nothing,
    so each of these values can reach the code that follows a read. *)
Inductive JsValue :=
| VString (s : string)
| VNumber (n : Z)
| VBuffer (bytes : list Byte.byte)
| VArray (items : list string)
| VUndefined.

(** [v !== undefined] *)
Definition defined (v : JsValue) : bool :=
  match v with
  | VUndefined => false
  | _ => true
  end.

(** [a === b], where [a] has just been read from the registry: strings
    and numbers are compared as values; a buffer or an array is an object,
    and the one just read is identical to no object made before. *)
Definition strictEquals (a b : JsValue) : bool :=
  match a, b with
  | VString s, VString t => bool_decide (s = t)
  | VNumber n, VNumber m => bool_decide (n = m)
  | VUndefined, VUndefined => true
  | _, _ => false
  end.

(** *** The registry as [winapi-bindings] shows it *)

Inductive REGISTRY_HIVE :=
| HKEY_CLASSES_ROOT
| HKEY_CURRENT_USER
| HKEY_LOCAL_MACHINE
| HKEY_USERS.

Inductive REG_TYPE :=
| REG_NONE | REG_SZ | REG_EXPAND_SZ | REG_BINARY | REG_DWORD
| REG_DWORD_BIG_ENDIAN | REG_LINK | REG_MULTI_SZ | REG_RESOURCE_LIST
| REG_FULL_RESOURCE_DESCRIPTOR | REG_RESOURCE_REQUIREMENTS_LIST | REG_QWORD.

Global Instance REG_TYPE_eq_dec : EqDecision REG_TYPE.
Proof. solve_decision. Defined.

Global Instance REGISTRY_HIVE_eq_dec : EqDecision REGISTRY_HIVE.
Proof. solve_decision. Defined.

(** An element of [RegEnumKeys]. *)
Record KeyEntry := { key : string }.

(** A value of a key: [vkey] and [vtype] are the [key] and [type] fields
    of an element of [RegEnumValues], [value] the field of that name in
    the result of [RegGetValue]. *)
Record ValueEntry := { vkey : string; vtype : REG_TYPE; value : JsValue }.

(** What an open key shows: its child keys and its values, in the order
    of enumeration. *)
Record HKey := { RegEnumKeys : list KeyEntry; RegEnumValues : list ValueEntry }.

(** The environment: opening a key of a hive by path either yields the key
    or throws ([ENOENT] for a missing key, other codes for access
    failures); [path_join] is Node's [path.join] and [toLowerCase] the
    [String.prototype.toLowerCase] of the engine. *)
Record Env := {
  WithRegOpen : REGISTRY_HIVE -> string -> Completion string HKey;
  path_join : string -> string -> string;
  toLowerCase : string -> string
}.

Definition ENOENT : Err := ErrnoError "ENOENT".

(** [RegGetValue(root, path, name)]: the value called [name] of the key at
    [path]; throws when the key cannot be opened or has no such value. *)
Definition RegGetValue (env : Env) (rootKey : REGISTRY_HIVE)
    (keyPath name : string) : Completion string ValueEntry :=
  (let! hkey := WithRegOpen env rootKey keyPath in
   match List.find (fun v => bool_decide (vkey v = name)) (RegEnumValues hkey) with
   | Some v => Normal v
   | None => Throw ENOENT
   end)%js.

(** [values.includes(name)] / [values.indexOf(name) !== -1] *)
Definition includes (values : list string) (name : string) : bool :=
  bool_decide (name ∈ values).

(** [IGNORABLE.find(ign => key.key.toLowerCase().startsWith(ign)) === undefined] *)
Definition notIgnored (env : Env) (filterList : list string) (k : KeyEntry)
  : bool :=
  match List.find (fun ign => startsWith (toLowerCase env (key k)) ign)
                  filterList with
  | None => true
  | Some _ => false
  end.

(** [getKeyNames]: every failure to open the key yields the empty array. *)
Definition getKeyNames (env : Env) (rootKey : REGISTRY_HIVE)
    (keyPath : string) (filterList : option (list string)) : list string :=
  match WithRegOpen env rootKey keyPath with
  | Normal hkey =>
      let names := RegEnumKeys hkey in
      map key match filterList with
              | Some fl => List.filter (notIgnored env fl) names
              | None => names
              end
  | Throw err => nil
  end.

Definition getFirstKeyName (env : Env) (rootKey : REGISTRY_HIVE)
    (keyPath : string) : option string :=
  let keyNames := getKeyNames env rootKey keyPath None in
  head keyNames.

(** *** [resolveMutableLocation] *)

(** [RegEnumValues(hkey).filter(val => val.type === 'REG_SZ').map(val => val.key)] *)
Definition stringValueNames (hkey : HKey) : list string :=
  map vkey (List.filter (fun val => bool_decide (vtype val = REG_SZ))
                        (RegEnumValues hkey)).

(** The callback run on one opened child key of the state cache: the
    value of [mutableLocation] after it (the variable is undefined when
    the callback runs). *)
Definition probeMutable (env : Env) (packagePath : JsValue)
    (hivePath : string) (secondhkey : HKey) : Completion string JsValue :=
  let values := stringValueNames secondhkey in
  if includes values "MutableLink" && includes values "MutableLocation" then
    (let! link := RegGetValue env HKEY_LOCAL_MACHINE hivePath "MutableLink" in
     if strictEquals (value link) packagePath then
       let! loc := RegGetValue env HKEY_LOCAL_MACHINE hivePath "MutableLocation" in
       Normal (value loc)
     else Normal VUndefined)%js
  else Normal VUndefined.

(** The loop [for (const key of keys)] with the variable [mutableLocation]. *)
Fixpoint scanMutable (env : Env) (packagePath : JsValue) (keys : list string)
    (mutableLocation : JsValue) : Completion string JsValue :=
  match keys with
  | nil => Normal mutableLocation
  | key :: rest =>
      if defined mutableLocation then Normal mutableLocation
      else
        let hivePath := path_join env MUTABLE_LOCATION_PATH key in
        (let! secondhkey := WithRegOpen env HKEY_LOCAL_MACHINE hivePath in
         let! mutableLocation' := probeMutable env packagePath hivePath secondhkey in
         scanMutable env packagePath rest mutableLocation')%js
  end.

(** [resolveMutableLocation]: its parameter is declared a string, but it
    receives whatever the [PackageRootFolder] read returned. *)
Definition resolveMutableLocation (env : Env) (packagePath : JsValue)
  : JsValue :=
  match
    (let! firsthkey := WithRegOpen env HKEY_LOCAL_MACHINE MUTABLE_LOCATION_PATH in
     let keys := map key (RegEnumKeys firsthkey) in
     scanMutable env packagePath keys VUndefined)%js
  with
  | Normal mutableLocation => mutableLocation
  | Throw err => VUndefined
  end.

(** A child key of the state cache that the scan passes over: it can be
    opened, and it lacks one of the two string values or its link is not
    the probe path. *)
Definition passedOver (env : Env) (packagePath : JsValue) (key : string)
  : Prop :=
  let hivePath := path_join env MUTABLE_LOCATION_PATH key in
  exists secondhkey,
    WithRegOpen env HKEY_LOCAL_MACHINE hivePath = Normal secondhkey /\
    (includes (stringValueNames secondhkey) "MutableLink"
       && includes (stringValueNames secondhkey) "MutableLocation" = false \/
     exists link,
       RegGetValue env HKEY_LOCAL_MACHINE hivePath "MutableLink" = Normal link /\
       strictEquals (value link) packagePath = false).

(** *** [resolveRef] *)

(** One round of [hives.forEach]: the value of [name] after the round. *)
Definition probeHive (env : Env) (hivesPath displayName hive : string)
    (name : JsValue) : JsValue :=
  match
    (let namePath := path_join env hivesPath hive in
     let! secondhkey := WithRegOpen env HKEY_CLASSES_ROOT namePath in
     let values := map vkey (RegEnumValues secondhkey) in
     if includes values displayName then
       let! v := RegGetValue env HKEY_CLASSES_ROOT namePath displayName in
       Normal (value v)
     else Normal name)%js
  with
  | Normal name' => name'
  | Throw err => name
  end.

Definition scanHives (env : Env) (hivesPath displayName : string)
    (hives : list string) (name : JsValue) : JsValue :=
  fold_left (fun name hive => probeHive env hivesPath displayName hive name)
            hives name.

(** [resolveRef]: it is called with a [displayName] on which [startsWith]
    has answered, a string. *)
Definition resolveRef (env : Env) (packageId displayName : string)
  : JsValue :=
  let cachePath := replace RESOURCES_PATH "{{PACKAGE_ID}}" packageId in
  let firstKey := getFirstKeyName env HKEY_CLASSES_ROOT cachePath in
  match firstKey with
  | Some ((String c0 cs) as firstKey) =>
      let hivesPath := path_join env cachePath firstKey in
      let hives := getKeyNames env HKEY_CLASSES_ROOT hivesPath None in
      match hives with
      | nil => VUndefined
      | _ => scanHives env hivesPath displayName hives VUndefined
      end
  | _ => VUndefined
  end.

(** *** [getGameEntries] *)

(** An entry as it is at run time: [gamePath] and [name] are declared
    strings and hold what the registry reads returned. *)
Record IXboxEntry := {
  appid : string;
  publisherId : string;
  executionName : string;
  gamePath : JsValue;
  name : JsValue;
  gameStoreId : string
}.

(** The callback of [keys.map]: an entry, [undefined] for a dropped
    candidate, or a throw.  A truthy [firstKeyName] is a defined, non-empty
    string.  The call [displayName.startsWith('@')] stands outside every
    [try] of the callback, and only a string has the method: on a number,
    a buffer, an array or [undefined] the call throws a [TypeError].
    [RegGetValue(hkey, key, 'PackageRootFolder')]
    reads, through the handle of the repository key, the key that the
    [DisplayName] fetch addresses by its full path. *)
Definition gameEntry (env : Env) (key : string)
  : Completion string (option IXboxEntry) :=
  let packageId := key in
  let firstKeyName :=
    getFirstKeyName env HKEY_CLASSES_ROOT (path_join env REPOSITORY_PATH2 key) in
  let executionName :=
    match firstKeyName with
    | Some ((String c0 cs) as firstKeyName) =>
        let split := split "!" firstKeyName in
        if 1 <? Z.of_nat (length split) then List.last split EmptyString
        else "App"
    | _ => "App"
    end in
  let publisherId := substr key (lastIndexOf "_" key + 1) in
  let appid := substring key 0 (indexOf "_" key) in
  match RegGetValue env HKEY_CLASSES_ROOT (REPOSITORY_PATH +:+ "\" +:+ key)
                    "DisplayName" with
  | Throw err => Normal None
  | Normal v =>
      let displayName := value v in
      (let! name :=
         match displayName with
         | VString reference =>
             Normal (if startsWith reference "@"
                     then resolveRef env packageId reference
                     else displayName)
         | _ => Throw TypeError
         end in
       let! root :=
         RegGetValue env HKEY_CLASSES_ROOT (REPOSITORY_PATH +:+ "\" +:+ key)
                     "PackageRootFolder" in
       let gamePath := value root in
       let mutableLocation := resolveMutableLocation env gamePath in
       Normal (Some {|
         appid := appid;
         publisherId := publisherId;
         executionName := executionName;
         gamePath := if defined mutableLocation then mutableLocation
                     else gamePath;
         name := name;
         gameStoreId := STORE_ID |}))%js
  end.

(** [keys.map(callback)]: the first throw of the callback ends the map. *)
Fixpoint mapKeys (env : Env) (keys : list string)
  : Completion string (list (option IXboxEntry)) :=
  match keys with
  | nil => Normal nil
  | key :: rest =>
      (let! entry := gameEntry env key in
       let! entries := mapKeys env rest in
       Normal (entry :: entries))%js
  end.

(** [getGameEntries]: the settled state of the promise it returns. *)
Definition getGameEntries (isXboxInstalled : bool) (env : Env)
  : Promise string (list IXboxEntry) :=
  if negb isXboxInstalled then Resolved nil
  else
    match
      (let! hkey := WithRegOpen env HKEY_CLASSES_ROOT REPOSITORY_PATH in
       let keys :=
         map key (List.filter (notIgnored env IGNORABLE) (RegEnumKeys hkey)) in
       let! gameEntries := mapKeys env keys in
       Normal (omap id gameEntries))%js
    with
    | Normal entries => Resolved entries
    | Throw err => Rejected err
    end.

(** *** The launcher object: [isXboxInstalled], [mCache] *)

(** A promise object: its identity and its settled state. *)
Record PromiseObj (A : Type) := { pid : nat; settled : Promise string A }.
Arguments pid {A} p.
Arguments settled {A} p.

Record XboxLauncher := {
  isXboxInstalled : bool;
  mCache : option (PromiseObj (list IXboxEntry))
}.

(** The launcher together with two counters of the run: the promise
    objects created so far and the queries of the package repository
    issued so far. *)
Record Session := {
  self : XboxLauncher;
  allocated : nat;
  storeQueries : nat
}.

(** The constructor, on a given [process.platform]. *)
Definition construct (platform : string) (env : Env) : XboxLauncher :=
  {| isXboxInstalled :=
       if bool_decide (platform = "win32") then
         match WithRegOpen env HKEY_CLASSES_ROOT REPOSITORY_PATH with
         | Normal hkey =>
             let keys :=
               map (fun k => toLowerCase env (key k)) (RegEnumKeys hkey) in
             match List.find (fun k => startsWith k XBOXAPP_NAME) keys with
             | Some _ => true
             | None => false
             end
         | Throw err => false
         end
       else false;
     mCache := None |}.

Definition newPromise {A} (st : Promise string A) (s : Session)
  : PromiseObj A * Session :=
  ({| pid := allocated s; settled := st |},
   {| self := self s; allocated := S (allocated s);
      storeQueries := storeQueries s |}).

Definition setCache (p : PromiseObj (list IXboxEntry)) (s : Session) : Session :=
  {| self := {| isXboxInstalled := isXboxInstalled (self s); mCache := Some p |};
     allocated := allocated s; storeQueries := storeQueries s |}.

Definition countQuery (s : Session) : Session :=
  {| self := self s; allocated := allocated s;
     storeQueries := S (storeQueries s) |}.

(** [this.getGameEntries()]: a new promise; the repository is queried
    when the launcher is installed. *)
Definition getGameEntriesM (env : Env) (s : Session)
  : PromiseObj (list IXboxEntry) * Session :=
  if negb (isXboxInstalled (self s)) then newPromise (Resolved nil) s
  else newPromise (getGameEntries true env) (countQuery s).

Definition allGames (env : Env) (s : Session)
  : PromiseObj (list IXboxEntry) * Session :=
  if negb (isXboxInstalled (self s)) then newPromise (Resolved nil) s
  else
    match mCache (self s) with
    | Some cache => (cache, s)
    | None =>
        let (cache, s1) := getGameEntriesM env s in
        let s2 := setCache cache s1 in
        (* the promise made by [tap] is not kept *)
        let (_, s3) := newPromise (settled cache) s2 in
        (cache, s3)
    end.

Definition reloadGames (env : Env) (s : Session)
  : PromiseObj unit * Session :=
  if negb (isXboxInstalled (self s)) then newPromise (Resolved tt) s
  else
    let (outer, s1) := newPromise (Resolved tt) s in
    let (cache, s2) := getGameEntriesM env s1 in
    (outer, setCache cache s2).

(** *** Concrete registries *)

(** [toLowerCase] on names made of ASCII characters, as all names of the
    registries below are: the letters A to Z change. *)
Definition lowerChar (c : ascii) : ascii :=
  let n := nat_of_ascii c in
  if (65 <=? n)%nat && (n <=? 90)%nat then ascii_of_nat (n + 32) else c.

Fixpoint asciiToLowerCase (s : string) : string :=
  match s with
  | EmptyString => EmptyString
  | String c rest => String (lowerChar c) (asciiToLowerCase rest)
  end.

Definition registryOf
    (keys : list (REGISTRY_HIVE * string * Completion string HKey))
  : REGISTRY_HIVE -> string -> Completion string HKey :=
  fun rootKey keyPath =>
    match List.find (fun e => bool_decide (e.1.1 = rootKey) &&
                              bool_decide (e.1.2 = keyPath)) keys with
    | Some e => e.2
    | None => Throw ENOENT
    end.

(** [path.join] on key paths without dots, slashes or doubled separators. *)
Definition backslashJoin (a b : string) : string := a +:+ "\" +:+ b.

(** The environment of a registry given by its keys. *)
Definition envOf
    (keys : list (REGISTRY_HIVE * string * Completion string HKey)) : Env :=
  {| WithRegOpen := registryOf keys;
     path_join := backslashJoin;
     toLowerCase := asciiToLowerCase |}.

Definition sz (n v : string) : ValueEntry :=
  {| vkey := n; vtype := REG_SZ; value := VString v |}.

Definition dword (n : string) (v : Z) : ValueEntry :=
  {| vkey := n; vtype := REG_DWORD; value := VNumber v |}.

Definition keysOf (names : list string) : list KeyEntry :=
  map (fun n => {| key := n |}) names.

Definition pkgXbox : string := "Microsoft.XboxApp_48.0.0.0_x64__8wekyb3d8bbwe".
Definition pkgAstro : string :=
  "SystemEraSoftworks.29415440E1269_1.0.0.0_x64__ftk5pbg2rayv2".
Definition pkgSkyrim : string :=
  "BethesdaSoftworks.Skyrim_1.0.0.0_x64__3275kfvn8vcwc".
Definition pkgNoName : string := "Contoso.Unnamed_1.0.0.0_x64__abcdefgh12345".
Definition pkgNoRoot : string := "Contoso.Broken_1.0.0.0_x64__abcdefgh12345".

Definition refOf (pkg : string) : string :=
  "@{" +:+ pkg +:+ "?ms-resource://App/resources/AppDisplayName}".

Definition cacheOf (pkg : string) : string :=
  "Local Settings\MrtCache\C:%5CProgram Files%5CWindowsApps%5C" +:+ pkg +:+
  "%5Cresources.pri".

Definition exampleKeys : list (REGISTRY_HIVE * string * Completion string HKey) :=
  (HKEY_CLASSES_ROOT, REPOSITORY_PATH,
   Normal {| RegEnumKeys := keysOf (pkgXbox :: pkgAstro :: pkgSkyrim :: pkgNoName :: nil);
             RegEnumValues := nil |}) ::
  (HKEY_CLASSES_ROOT, backslashJoin REPOSITORY_PATH pkgAstro,
   Normal {| RegEnumKeys := nil;
             RegEnumValues :=
               sz "DisplayName" "ASTRONEER" ::
               sz "PackageRootFolder" "C:\Program Files\WindowsApps\Astro" :: nil |}) ::
  (HKEY_CLASSES_ROOT, backslashJoin REPOSITORY_PATH2 pkgAstro,
   Normal {| RegEnumKeys :=
               keysOf ("SystemEraSoftworks.29415440E1269_ftk5pbg2rayv2!ASTRONEER" :: nil);
             RegEnumValues := nil |}) ::
  (HKEY_CLASSES_ROOT, backslashJoin REPOSITORY_PATH pkgSkyrim,
   Normal {| RegEnumKeys := nil;
             RegEnumValues :=
               sz "DisplayName" (refOf pkgSkyrim) ::
               sz "PackageRootFolder" "E:\Games\Skyrim\Content" :: nil |}) ::
  (HKEY_CLASSES_ROOT, backslashJoin REPOSITORY_PATH2 pkgSkyrim,
   Normal {| RegEnumKeys := keysOf ("Skyrim" :: nil); RegEnumValues := nil |}) ::
  (HKEY_CLASSES_ROOT, cacheOf pkgSkyrim,
   Normal {| RegEnumKeys := keysOf ("1d6f2c3a" :: nil); RegEnumValues := nil |}) ::
  (HKEY_CLASSES_ROOT, backslashJoin (cacheOf pkgSkyrim) "1d6f2c3a",
   Normal {| RegEnumKeys := keysOf ("2a0b" :: "3c1d" :: nil); RegEnumValues := nil |}) ::
  (HKEY_CLASSES_ROOT, backslashJoin (backslashJoin (cacheOf pkgSkyrim) "1d6f2c3a") "2a0b",
   Normal {| RegEnumKeys := nil;
             RegEnumValues := sz (refOf pkgSkyrim) "Skyrim Special Edition" :: nil |}) ::
  (HKEY_CLASSES_ROOT, backslashJoin (backslashJoin (cacheOf pkgSkyrim) "1d6f2c3a") "3c1d",
   Normal {| RegEnumKeys := nil;
             RegEnumValues := sz (refOf pkgSkyrim) "Skyrim (PC)" :: nil |}) ::
  (HKEY_CLASSES_ROOT, backslashJoin REPOSITORY_PATH pkgNoName,
   Normal {| RegEnumKeys := nil;
             RegEnumValues :=
               sz "DisplayName" (refOf pkgNoName) ::
               sz "PackageRootFolder" "C:\Program Files\WindowsApps\Unnamed" :: nil |}) ::
  (HKEY_LOCAL_MACHINE, MUTABLE_LOCATION_PATH,
   Normal {| RegEnumKeys := keysOf ("1a" :: "2b" :: "3c" :: nil); RegEnumValues := nil |}) ::
  (HKEY_LOCAL_MACHINE, backslashJoin MUTABLE_LOCATION_PATH "1a",
   Normal {| RegEnumKeys := nil;
             RegEnumValues :=
               sz "MutableLink" "D:\Games\Other\Content" ::
               sz "MutableLocation" "D:\Games\Other" :: nil |}) ::
  (HKEY_LOCAL_MACHINE, backslashJoin MUTABLE_LOCATION_PATH "2b",
   Normal {| RegEnumKeys := nil;
             RegEnumValues :=
               sz "MutableLink" "E:\Games\Skyrim\Content" ::
               sz "MutableLocation" "E:\Games\Skyrim" :: nil |}) ::
  (HKEY_LOCAL_MACHINE, backslashJoin MUTABLE_LOCATION_PATH "3c",
   Normal {| RegEnumKeys := nil;
             RegEnumValues :=
               sz "MutableLink" "E:\Games\Skyrim\Content" ::
               sz "MutableLocation" "F:\Stale\Skyrim" :: nil |}) ::
  nil.

(** A registry in working order. *)
Definition exampleEnv : Env := envOf exampleKeys.

(** A registry with the packages Astro and Unnamed of the one above and
    one more package, whose key has a [DisplayName] but no
    [PackageRootFolder]. *)
Definition brokenEnv : Env :=
  envOf
    ((HKEY_CLASSES_ROOT, REPOSITORY_PATH,
      Normal {| RegEnumKeys :=
                  keysOf (pkgXbox :: pkgAstro :: pkgNoName :: pkgNoRoot :: nil);
                RegEnumValues := nil |}) ::
     (HKEY_CLASSES_ROOT, backslashJoin REPOSITORY_PATH pkgNoRoot,
      Normal {| RegEnumKeys := nil;
                RegEnumValues := sz "DisplayName" (refOf pkgNoRoot) :: nil |}) ::
     exampleKeys).

(** The same registry with the first child key of the state cache closed
    to the user. *)
Definition lockedEnv : Env :=
  envOf
    ((HKEY_LOCAL_MACHINE, backslashJoin MUTABLE_LOCATION_PATH "1a",
      Throw (ErrnoError "EACCES")) :: exampleKeys).

(** A state cache whose only child key has a [MutableLink] and nothing
    else. *)
Definition bareEnv : Env :=
  envOf
    ((HKEY_LOCAL_MACHINE, MUTABLE_LOCATION_PATH,
      Normal {| RegEnumKeys := keysOf ("1a" :: nil); RegEnumValues := nil |}) ::
     (HKEY_LOCAL_MACHINE, backslashJoin MUTABLE_LOCATION_PATH "1a",
      Normal {| RegEnumKeys := nil;
                RegEnumValues := sz "MutableLink" "C:\Nowhere" :: nil |}) ::
     nil).


(** The registry of the example with one more package, whose
    [DisplayName] is a number. *)
Definition pkgNumbered : string := "Contoso.Numbered_1.0.0.0_x64__abcdefgh12345".

Definition numberedEnv : Env :=
  envOf
    ((HKEY_CLASSES_ROOT, REPOSITORY_PATH,
      Normal {| RegEnumKeys :=
                  keysOf (pkgXbox :: pkgAstro :: pkgNumbered :: pkgSkyrim :: nil);
                RegEnumValues := nil |}) ::
     (HKEY_CLASSES_ROOT, backslashJoin REPOSITORY_PATH pkgNumbered,
      Normal {| RegEnumKeys := nil;
                RegEnumValues :=
                  dword "DisplayName" 5 ::
                  sz "PackageRootFolder" "C:\Program Files\WindowsApps\Numbered" ::
                  nil |}) ::
     exampleKeys).

Definition freshSession (x : XboxLauncher) : Session :=
  {| self := x; allocated := 0; storeQueries := 0 |}.

End Launcher.

(** ** Further notions: the remaining methods of the launcher *)

(** The gaming root that one drive contributes to
    [findXboxGamingRootPaths]: the decoded marker, if there is one. *)
Definition markerRoot (h : GamingRoot.Host) (drive : GamingRoot.jsstring)
  : option GamingRoot.jsstring :=
  match GamingRoot.findXboxGamingRootPath h drive with
  | Resolved r => r
  | Rejected _ => None
  end.

(** The identity that the inner loop of [findInstalledGames] reads for a
    manifest path. *)
Definition manifestIdentity (h : GamingRoot.Host) (manifest : GamingRoot.jsstring)
  : option GamingRoot.jsstring :=
  match GamingRoot.getAppManifestData h (GamingRoot.path_dirname h manifest) with
  | Resolved data => GamingRoot.identityName data
  | Rejected _ => None
  end.

(** The host of the example with other search paths, and with a walk of
    the second gaming root that fails. *)
Definition withSearchPaths (h : GamingRoot.Host)
    (drives : list GamingRoot.jsstring) : GamingRoot.Host :=
  {| GamingRoot.argumentsLimit := GamingRoot.argumentsLimit h;
     GamingRoot.searchPaths := drives;
     GamingRoot.getDriveList := GamingRoot.getDriveList h;
     GamingRoot.statAsync := GamingRoot.statAsync h;
     GamingRoot.readFileAsync := GamingRoot.readFileAsync h;
     GamingRoot.readFileUtf8 := GamingRoot.readFileUtf8 h;
     GamingRoot.parseStringPromise := GamingRoot.parseStringPromise h;
     GamingRoot.walk := GamingRoot.walk h;
     GamingRoot.path_basename := GamingRoot.path_basename h;
     GamingRoot.path_dirname := GamingRoot.path_dirname h;
     GamingRoot.path_join := GamingRoot.path_join h;
     GamingRoot.APP_MANIFEST := GamingRoot.APP_MANIFEST h |}.

(** The host with one manifest whose content is replaced. *)
Definition withManifestContent (h : GamingRoot.Host)
    (file content : GamingRoot.jsstring) : GamingRoot.Host :=
  {| GamingRoot.argumentsLimit := GamingRoot.argumentsLimit h;
     GamingRoot.searchPaths := GamingRoot.searchPaths h;
     GamingRoot.getDriveList := GamingRoot.getDriveList h;
     GamingRoot.statAsync := GamingRoot.statAsync h;
     GamingRoot.readFileAsync := GamingRoot.readFileAsync h;
     GamingRoot.readFileUtf8 := fun p =>
       if GamingRoot.jsstring_eqb p file then Resolved content
       else GamingRoot.readFileUtf8 h p;
     GamingRoot.parseStringPromise := GamingRoot.parseStringPromise h;
     GamingRoot.walk := GamingRoot.walk h;
     GamingRoot.path_basename := GamingRoot.path_basename h;
     GamingRoot.path_dirname := GamingRoot.path_dirname h;
     GamingRoot.path_join := GamingRoot.path_join h;
     GamingRoot.APP_MANIFEST := GamingRoot.APP_MANIFEST h |}.

(** The host with another limit on the arguments of a call and with the
    content of one file replaced. *)
Definition withMarker (h : GamingRoot.Host) (limit : positive)
    (file : GamingRoot.jsstring) (content : list Byte.byte) : GamingRoot.Host :=
  {| GamingRoot.argumentsLimit := limit;
     GamingRoot.searchPaths := GamingRoot.searchPaths h;
     GamingRoot.getDriveList := GamingRoot.getDriveList h;
     GamingRoot.statAsync := GamingRoot.statAsync h;
     GamingRoot.readFileAsync := fun p =>
       if GamingRoot.jsstring_eqb p file then Resolved content
       else GamingRoot.readFileAsync h p;
     GamingRoot.readFileUtf8 := GamingRoot.readFileUtf8 h;
     GamingRoot.parseStringPromise := GamingRoot.parseStringPromise h;
     GamingRoot.walk := GamingRoot.walk h;
     GamingRoot.path_basename := GamingRoot.path_basename h;
     GamingRoot.path_dirname := GamingRoot.path_dirname h;
     GamingRoot.path_join := GamingRoot.path_join h;
     GamingRoot.APP_MANIFEST := GamingRoot.APP_MANIFEST h |}.

Definition withFailingWalk (h : GamingRoot.Host)
    (root : GamingRoot.jsstring) (code : string) : GamingRoot.Host :=
  {| GamingRoot.argumentsLimit := GamingRoot.argumentsLimit h;
     GamingRoot.searchPaths := GamingRoot.searchPaths h;
     GamingRoot.getDriveList := GamingRoot.getDriveList h;
     GamingRoot.statAsync := GamingRoot.statAsync h;
     GamingRoot.readFileAsync := GamingRoot.readFileAsync h;
     GamingRoot.readFileUtf8 := GamingRoot.readFileUtf8 h;
     GamingRoot.parseStringPromise := GamingRoot.parseStringPromise h;
     GamingRoot.walk := fun rootPath recurse =>
       if GamingRoot.jsstring_eqb rootPath root then Rejected (ErrnoError code)
       else GamingRoot.walk h rootPath recurse;
     GamingRoot.path_basename := GamingRoot.path_basename h;
     GamingRoot.path_dirname := GamingRoot.path_dirname h;
     GamingRoot.path_join := GamingRoot.path_join h;
     GamingRoot.APP_MANIFEST := GamingRoot.APP_MANIFEST h |}.

Module Api.
Import Launcher.

(** The keys that [getGameEntries] maps over: the names of the child keys
    of the repository that no pattern of [IGNORABLE] matches. *)
Definition candidates (env : Env) (hkey : HKey) : list string :=
  map key (List.filter (notIgnored env IGNORABLE) (RegEnumKeys hkey)).

(** Whether the [DisplayName] of a package key can be fetched. *)
Definition hasDisplayName (env : Env) (k : string) : bool :=
  match RegGetValue env HKEY_CLASSES_ROOT (REPOSITORY_PATH +:+ "\" +:+ k)
                    "DisplayName" with
  | Normal _ => true
  | Throw _ => false
  end.

(** What the promises of the public methods are rejected with: the two
    error classes of [vortex-api] the launcher builds, or the rejection of
    the cached enumeration passed on by [then]. *)
Inductive ApiError :=
| GameEntryNotFound (name store : string)
| ArgumentInvalid (argument : string)
| Failure (e : JsError string).

Inductive ApiPromise (A : Type) : Type :=
| Fulfilled (a : A)
| Failed (e : ApiError).
Arguments Fulfilled {A} a.
Arguments Failed {A} e.

(** The argument of [findByAppId]: [string | string[]]. *)
Inductive AppIds :=
| OneId (appId : string)
| ManyIds (appId : list string).

(** [Array.prototype.join] on an array of strings. *)
Fixpoint join (sep : string) (l : list string) : string :=
  match l with
  | nil => EmptyString
  | x :: nil => x
  | x :: rest => x +:+ sep +:+ join sep rest
  end.

Definition matcher (appId : AppIds) (entry : IXboxEntry) : bool :=
  match appId with
  | ManyIds ids => bool_decide (appid entry ∈ ids)
  | OneId id => bool_decide (id = appid entry)
  end.

(** One more promise object exists. *)
Definition countPromise (s : Session) : Session :=
  (newPromise (Resolved tt) s).2.

(** [findByAppId]: [then] makes a promise; its callback, run when the
    enumeration resolved, makes another with [Promise.resolve] or
    [Promise.reject]. *)
Definition findByAppId (appId : AppIds) (env : Env) (s : Session)
  : ApiPromise IXboxEntry * Session :=
  let (games, s1) := allGames env s in
  let s2 := countPromise s1 in
  match settled games with
  | Rejected err => (Failed (Failure err), s2)
  | Resolved entries =>
      match List.find (matcher appId) entries with
      | None =>
          (Failed (GameEntryNotFound
                     match appId with
                     | ManyIds ids => join ", " ids
                     | OneId id => id
                     end STORE_ID),
           countPromise s2)
      | Some gameEntry => (Fulfilled gameEntry, countPromise s2)
      end
  end.

(** A call of [spawn]. *)
Record SpawnCall := { command : string; args : list string; shell : bool }.

(** [oneShotLaunch]: what it spawns. *)
Definition oneShotLaunch (launchCommand : string) : SpawnCall :=
  {| command := "explorer.exe"; args := launchCommand :: nil; shell := true |}.

(** An element of [appInfo.parameters]: an object that may have the
    property [appExecName]. *)
Record ExecParameter := { appExecName : option string }.

(** The shapes of [appInfo] that the callers of [launchGame] pass: nothing,
    an app id, or an object with [appId] and [parameters]. *)
Inductive AppInfo :=
| NoAppInfo
| AppIdString (appId : string)
| CustomExec (appId : string) (parameters : list ExecParameter).

(** [!appInfo] *)
Definition falsy (appInfo : AppInfo) : bool :=
  match appInfo with
  | NoAppInfo => true
  | AppIdString EmptyString => true
  | _ => false
  end.

Definition isCustomExecObject (appInfo : AppInfo) : bool :=
  match appInfo with
  | CustomExec _ _ => true
  | _ => false
  end.

Definition findExecName (appInfo : AppInfo) (entry : IXboxEntry) : string :=
  match appInfo with
  | CustomExec _ parameters =>
      match List.find (fun arg => bool_decide (is_Some (appExecName arg)))
                      parameters with
      | Some {| appExecName := Some n |} => n
      | _ => executionName entry
      end
  | _ => executionName entry
  end.

(** [launchGame]: the settled promise, the session and the processes
    spawned. *)
Definition launchGame (appInfo : AppInfo) (env : Env) (s : Session)
  : ApiPromise unit * Session * list SpawnCall :=
  if falsy appInfo
  then (Failed (ArgumentInvalid "appInfo is undefined/null"), countPromise s, nil)
  else
    let appId :=
      match appInfo with
      | CustomExec appId _ => appId
      | AppIdString appId => appId
      | NoAppInfo => EmptyString
      end in
    let (found, s1) := findByAppId (OneId appId) env s in
    let s2 := countPromise s1 in
    match found with
    | Fulfilled entry =>
        let launchCommand :=
          "shell:appsFolder\" +:+ appid entry +:+ "_" +:+ publisherId entry
          +:+ "!" +:+ findExecName appInfo entry in
        (Fulfilled tt, countPromise s2, oneShotLaunch launchCommand :: nil)
    | Failed e => (Failed e, s2, nil)
    end.

(** [launchGameStore]: an array of parameters, even an empty one, replaces
    the default execution name. *)
Definition launchGameStore (parameters : option (list string)) : SpawnCall :=
  let execName :=
    match parameters with
    | Some parameters => join EmptyString parameters
    | None => "Microsoft.Xbox.App"
    end in
  oneShotLaunch ("shell:appsFolder\Microsoft.GamingApp_8wekyb3d8bbwe!" +:+ execName).

(** [isGameStoreInstalled] *)
Definition isGameStoreInstalled (s : Session) : bool :=
  isXboxInstalled (self s).

(** [main]: the value returned and the store registered with the host. *)
Definition main (platform : string) (env : Env) : bool * option XboxLauncher :=
  let instance :=
    if bool_decide (platform = "win32") then Some (construct platform env)
    else None in
  (true, instance).

(** The calls that a host makes on the launcher, and the session after
    one of them. *)
Inductive Call :=
| CallAllGames
| CallReloadGames
| CallFindByAppId (appId : AppIds)
| CallLaunchGame (appInfo : AppInfo).

Definition perform (c : Call) (env : Env) (s : Session) : Session :=
  match c with
  | CallAllGames => (allGames env s).2
  | CallReloadGames => (reloadGames env s).2
  | CallFindByAppId appId => (findByAppId appId env s).2
  | CallLaunchGame appInfo => (launchGame appInfo env s).1.2
  end.

(** The sessions that calls lead to, each call seeing the registry of its
    time. *)
Inductive reachable (s0 : Session) : Session -> Prop :=
| reach_start : reachable s0 s0
| reach_call (s : Session) (c : Call) (env : Env) :
    reachable s0 s -> reachable s0 (perform c env s).

End Api.

(** ** The earlier revision of the launcher

    The repository also holds an earlier revision of [index.ts].  Its
    constants, [getKeyNames] and [getFirstKeyName] return what the ones
    above return, and its loop over the hives is the one of [resolveRef];
    its enumeration differs. *)

Module Legacy.
Import Launcher.

(** The callback of [keys.map] in the earlier [getGameEntries]: the
    execution name is looked up under the repository key itself and not
    split, the [DisplayName] fetch has no handler, and a reference without
    a resource cache ends the callback with [undefined].  As in the
    current revision, [displayName.startsWith('@')] throws a [TypeError]
    on a value that is not a string. *)
Definition gameEntry (env : Env) (key : string)
  : Completion string (option IXboxEntry) :=
  let packageId := key in
  let firstKeyName :=
    getFirstKeyName env HKEY_CLASSES_ROOT (path_join env REPOSITORY_PATH key) in
  let executionName :=
    match firstKeyName with
    | Some ((String c0 cs) as firstKeyName) => firstKeyName
    | _ => "App"
    end in
  let publisherId := substr key (lastIndexOf "_" key + 1) in
  let appid := substring key 0 (indexOf "_" key) in
  let finish (name : JsValue) : Completion string (option IXboxEntry) :=
    (let! root :=
       RegGetValue env HKEY_CLASSES_ROOT (REPOSITORY_PATH +:+ "\" +:+ key)
                   "PackageRootFolder" in
     Normal (Some {|
       appid := appid;
       publisherId := publisherId;
       executionName := executionName;
       gamePath := value root;
       name := name;
       gameStoreId := STORE_ID |}))%js in
  (let! v :=
     RegGetValue env HKEY_CLASSES_ROOT (REPOSITORY_PATH +:+ "\" +:+ key)
                 "DisplayName" in
   let displayName := value v in
   match displayName with
   | VString reference =>
       if startsWith reference "@" then
         let cachePath := replace RESOURCES_PATH "{{PACKAGE_ID}}" packageId in
         match getFirstKeyName env HKEY_CLASSES_ROOT cachePath with
         | Some ((String c0 cs) as firstKey) =>
             let hivesPath := path_join env cachePath firstKey in
             let hives := getKeyNames env HKEY_CLASSES_ROOT hivesPath None in
             match hives with
             | nil => Normal None
             | _ => finish (scanHives env hivesPath reference hives VUndefined)
             end
         | _ => Normal None
         end
       else finish displayName
   | _ => Throw TypeError
   end)%js.

Fixpoint mapKeys (env : Env) (keys : list string)
  : Completion string (list (option IXboxEntry)) :=
  match keys with
  | nil => Normal nil
  | key :: rest =>
      (let! entry := gameEntry env key in
       let! entries := mapKeys env rest in
       Normal (entry :: entries))%js
  end.

Definition getGameEntries (env : Env) : Promise string (list IXboxEntry) :=
  match
    (let! hkey := WithRegOpen env HKEY_CLASSES_ROOT REPOSITORY_PATH in
     let keys :=
       map key (List.filter (notIgnored env IGNORABLE) (RegEnumKeys hkey)) in
     let! gameEntries := mapKeys env keys in
     Normal (omap id gameEntries))%js
  with
  | Normal entries => Resolved entries
  | Throw err => Rejected err
  end.

(** The registry of the example with one more package, whose key is
    missing altogether. *)
Definition pkgNameless : string := "Contoso.Nameless_1.0.0.0_x64__abcdefgh12345".

Definition namelessEnv : Env :=
  envOf
    ((HKEY_CLASSES_ROOT, REPOSITORY_PATH,
      Normal {| RegEnumKeys := keysOf (pkgXbox :: pkgAstro :: pkgNameless :: nil);
                RegEnumValues := nil |}) ::
     (HKEY_CLASSES_ROOT, backslashJoin REPOSITORY_PATH pkgAstro,
      Normal {| RegEnumKeys := keysOf ("Assets!Data" :: nil);
                RegEnumValues :=
                  sz "DisplayName" "ASTRONEER" ::
                  sz "PackageRootFolder" "C:\Program Files\WindowsApps\Astro" :: nil |}) ::
     exampleKeys).

End Legacy.

(** Closed goals about the concrete hosts and registries are settled by
    evaluation. *)
Ltac evaluate := vm_compute; reflexivity.

(** * Properties of the marker decoder *)

Section MarkerDecoder.
Import GamingRoot.

Lemma length_decodeUnits_even (fileContent : list Byte.byte) (n : nat) :
  length fileContent = (2 * n)%nat -> length (decodeUnits fileContent) = n.
Proof.
  revert fileContent.
  induction n as [|n IH]; intros fileContent Hlen.
  - destruct fileContent; [reflexivity | discriminate].
  - destruct fileContent as [|a [|b rest]]; simpl in Hlen; try lia.
    simpl. f_equal. apply IH. lia.
Qed.

(** A throw of the [try] block never leaves [findXboxGamingRootPath]. *)
Lemma findXboxGamingRootPath_resolves (h : Host) (driveRootPath : jsstring) :
  exists r, findXboxGamingRootPath h driveRootPath = Resolved r.
Proof.
  unfold findXboxGamingRootPath.
  destruct (findXboxGamingRootPath_try h driveRootPath _); eauto.
Qed.

Lemma odd_length_throws (h : Host) (driveRootPath : jsstring)
    (stats : Stats) (fileContent : list Byte.byte) :
  let file := driveRootPath ++ str ".GamingRoot" in
  statAsync h file = Resolved stats ->
  isFile stats = true ->
  readFileAsync h file = Resolved fileContent ->
  Z.of_nat (length fileContent) mod 2 <> 0 ->
  findXboxGamingRootPath_try h driveRootPath file = Throw (oddLengthError file).
Proof.
  intros file Hstat Hfile Hread Hodd.
  unfold findXboxGamingRootPath_try.
  rewrite Hstat. simpl. rewrite Hfile. simpl.
  rewrite Hread. simpl.
  destruct (Z.eqb_spec (Z.of_nat (length fileContent) mod 2) 0) as [E|E];
    [contradiction | reflexivity].
Qed.

(** C7: on the marker bytes 52 47 42 58 01 00 00 00 41 00 00 00 found at
    the root of the volume D:\ the decoder reads the six little-endian
    units 0x4752 0x5842 1 0 0x41 0, skips the first four, drops the last
    and returns the volume root followed by the remaining unit: D:\A. *)
Theorem C7_marker_example (h : Host) (stats : Stats) :
  statAsync h (str "D:\.GamingRoot") = Resolved stats ->
  isFile stats = true ->
  readFileAsync h (str "D:\.GamingRoot") = Resolved markerA ->
  decodeUnits markerA = 0x4752 :: 0x5842 :: 1 :: 0 :: 0x41 :: 0 :: nil /\
  slice CHAR16_PATH_OFFSET (-1) (decodeUnits markerA) = 0x41 :: nil /\
  findXboxGamingRootPath h (str "D:\") = Resolved (Some (str "D:\A")).
Proof.
  intros Hstat Hfile Hread.
  split; [reflexivity | split; [reflexivity |]].
  unfold findXboxGamingRootPath, findXboxGamingRootPath_try.
  change (str "D:\" ++ str ".GamingRoot") with (str "D:\.GamingRoot").
  rewrite Hstat. simpl. rewrite Hfile. simpl. rewrite Hread.
  unfold fromCharCode_apply.
  destruct (argumentsLimit h); reflexivity.
Qed.

Lemma C7_marker_example_witness :
  findXboxGamingRootPath exampleHost (str "D:\") = Resolved (Some (str "D:\A")).
Proof.
  apply (C7_marker_example exampleHost {| isFile := true |});
    reflexivity.
Defined.

(** C2 (as stated, refuted): the marker of volume E:\ has eleven bytes,
    yet the decoder gives its caller the plain 'no marker' value [null],
    not a rejection. *)
Lemma C2_counterexample :
  readFileAsync exampleHost (str "E:\.GamingRoot") = Resolved markerOdd /\
  Z.of_nat (length markerOdd) mod 2 = 1 /\
  findXboxGamingRootPath exampleHost (str "E:\") = Resolved None /\
  (forall e, findXboxGamingRootPath exampleHost (str "E:\") <> Rejected e).
Proof.
  repeat split; try reflexivity.
  intros e. vm_compute. discriminate.
Qed.

(** C2 (amended): for every marker file whose byte length is odd, the
    [try] block raises the decode error that names the offending path,
    the [catch] clause swallows it, and the caller receives [null], the
    value of the 'no marker' outcome; no truncated path is returned. *)
Theorem C2_odd_length_yields_null (h : Host) (driveRootPath : jsstring)
    (stats : Stats) (fileContent : list Byte.byte) :
  let file := driveRootPath ++ str ".GamingRoot" in
  statAsync h file = Resolved stats ->
  isFile stats = true ->
  readFileAsync h file = Resolved fileContent ->
  Z.of_nat (length fileContent) mod 2 <> 0 ->
  findXboxGamingRootPath_try h driveRootPath file = Throw (oddLengthError file) /\
  findXboxGamingRootPath h driveRootPath = Resolved None.
Proof.
  intros file Hstat Hfile Hread Hodd.
  pose proof (odd_length_throws h driveRootPath stats fileContent
                Hstat Hfile Hread Hodd) as Hthrow.
  cbv zeta in Hthrow. subst file.
  split; [exact Hthrow |].
  unfold findXboxGamingRootPath. cbv zeta. rewrite Hthrow. reflexivity.
Qed.

Lemma C2_odd_length_yields_null_witness :
  findXboxGamingRootPath_try exampleHost (str "E:\") (str "E:\" ++ str ".GamingRoot")
    = Throw (oddLengthError (str "E:\" ++ str ".GamingRoot")) /\
  findXboxGamingRootPath exampleHost (str "E:\") = Resolved None.
Proof.
  apply (C2_odd_length_yields_null exampleHost (str "E:\")
           {| isFile := true |} markerOdd); try reflexivity.
  vm_compute. discriminate.
Defined.

(** C9: [findXboxGamingRootPath] never rejects, and on every failure
    path (the file is absent or [stat] fails otherwise, the path is not a
    file, the read fails, the byte length is odd, fewer than five units
    are decoded) it resolves to [null]. *)
Theorem C9_findXboxGamingRootPath_total (h : Host) (driveRootPath : jsstring) :
  let file := driveRootPath ++ str ".GamingRoot" in
  (forall e, findXboxGamingRootPath h driveRootPath <> Rejected e) /\
  ((exists e, statAsync h file = Rejected e) \/
   (exists stats, statAsync h file = Resolved stats /\ isFile stats = false) \/
   (exists stats e, statAsync h file = Resolved stats /\ isFile stats = true /\
                    readFileAsync h file = Rejected e) \/
   (exists stats fileContent,
       statAsync h file = Resolved stats /\ isFile stats = true /\
       readFileAsync h file = Resolved fileContent /\
       (Z.of_nat (length fileContent) mod 2 <> 0 \/
        Z.of_nat (length (decodeUnits fileContent)) < 5)) ->
   findXboxGamingRootPath h driveRootPath = Resolved None).
Proof.
  intros file. split.
  - intros e He.
    destruct (findXboxGamingRootPath_resolves h driveRootPath) as [r Hr].
    congruence.
  - unfold findXboxGamingRootPath, findXboxGamingRootPath_try.
    subst file. cbv zeta.
    intros [[e He] | [(stats & Hs & Hf) | [(stats & e & Hs & Hf & Hr)
                   | (stats & fileContent & Hs & Hf & Hr & Hbad)]]].
    + rewrite He. reflexivity.
    + rewrite Hs. simpl. rewrite Hf. reflexivity.
    + rewrite Hs. simpl. rewrite Hf. simpl. rewrite Hr. reflexivity.
    + rewrite Hs. simpl. rewrite Hf. simpl. rewrite Hr. simpl.
      destruct (Z.eqb_spec (Z.of_nat (length fileContent) mod 2) 0) as [E|E];
        simpl; [| reflexivity].
      destruct Hbad as [Hodd | Hshort]; [contradiction |].
      unfold CHAR16_PATH_OFFSET.
      destruct (Z.ltb_spec (Z.of_nat (length (decodeUnits fileContent))) (4 + 1));
        [reflexivity | lia].
Qed.

Lemma C9_findXboxGamingRootPath_total_witness :
  findXboxGamingRootPath exampleHost (str "E:\") = Resolved None.
Proof.
  apply (C9_findXboxGamingRootPath_total exampleHost (str "E:\")).
  right. right. right.
  exists {| isFile := true |}, markerOdd.
  repeat split; try reflexivity.
  left. vm_compute. discriminate.
Defined.

End MarkerDecoder.

(** * Properties of the manifest scan *)

Section ManifestScan.
Import GamingRoot.

Variable h : Host.

Lemma getAppManifestData_resolves (filePath : jsstring) :
  exists data, getAppManifestData h filePath = Resolved data.
Proof.
  unfold getAppManifestData.
  destruct (readFileUtf8 h _) as [content|e]; [| eauto].
  destruct (parseStringPromise h content); eauto.
Qed.

Lemma scanManifests_fold (manifests : list jsstring)
    (gamePathMap : gmap jsstring jsstring) :
  scanManifests h manifests gamePathMap
  = Normal (fold_left (fun m x => recordManifest h x m) manifests gamePathMap).
Proof.
  revert gamePathMap.
  induction manifests as [|x rest IH]; intros gamePathMap; [reflexivity |].
  simpl fold_left. rewrite <- IH. simpl. unfold recordManifest.
  destruct (getAppManifestData_resolves (path_dirname h x)) as [data Hd].
  rewrite Hd. reflexivity.
Qed.

Lemma assign_lookup_eq (m : gmap jsstring jsstring) (id p : jsstring) :
  id <> str "__proto__" -> assign m id p !! id = Some p.
Proof.
  intros Hne. unfold assign, jsstring_eqb.
  rewrite bool_decide_eq_false_2 by exact Hne.
  apply lookup_insert_eq.
Qed.

Lemma assign_lookup_ne (m : gmap jsstring jsstring) (id id' p : jsstring) :
  id' <> id -> assign m id' p !! id = m !! id.
Proof.
  intros Hne. unfold assign.
  destruct (jsstring_eqb id' (str "__proto__")); [reflexivity |].
  apply lookup_insert_ne. exact Hne.
Qed.

Lemma recordManifest_other (id x : jsstring) (m : gmap jsstring jsstring) :
  otherIdentity h id x -> recordManifest h x m !! id = m !! id.
Proof.
  intros Hother. unfold recordManifest.
  destruct (getAppManifestData h (path_dirname h x)) as [data|e] eqn:Hd;
    [| reflexivity].
  specialize (Hother data Hd).
  destruct (identityName data) as [[|c cs]|]; try reflexivity.
  apply assign_lookup_ne. congruence.
Qed.

Lemma fold_record_other (id : jsstring) (manifests : list jsstring)
    (m : gmap jsstring jsstring) :
  (forall x, In x manifests -> otherIdentity h id x) ->
  fold_left (fun m x => recordManifest h x m) manifests m !! id = m !! id.
Proof.
  revert m.
  induction manifests as [|x rest IH]; intros m Hall; [reflexivity |].
  simpl. rewrite IH by (intros y Hy; apply Hall; right; exact Hy).
  apply recordManifest_other. apply Hall. left. reflexivity.
Qed.

Lemma recordManifest_this (id x : jsstring) (data : option ManifestXml)
    (m : gmap jsstring jsstring) :
  getAppManifestData h (path_dirname h x) = Resolved data ->
  identityName data = Some id ->
  id <> nil -> id <> str "__proto__" ->
  recordManifest h x m !! id = Some (path_dirname h x).
Proof.
  intros Hd Hid Hne Hproto. unfold recordManifest.
  rewrite Hd, Hid.
  destruct id as [|c cs]; [contradiction |].
  apply assign_lookup_eq. exact Hproto.
Qed.

(** The roots enumerated after the last one that holds [id] leave the
    entry of [id] alone. *)
Lemma scanRoots_other (id : jsstring) (roots : list jsstring)
    (m : gmap jsstring jsstring) :
  (forall r, In r roots -> exists ms, findManifests h r true = Resolved ms) ->
  (forall r ms x, In r roots -> findManifests h r true = Resolved ms ->
                  In x ms -> otherIdentity h id x) ->
  exists m', scanRoots h roots m = Normal m' /\ m' !! id = m !! id.
Proof.
  revert m.
  induction roots as [|r rest IH]; intros m Hwalk Hother.
  - exists m. split; reflexivity.
  - destruct (Hwalk r (or_introl eq_refl)) as [ms Hms].
    simpl. rewrite Hms. simpl. rewrite scanManifests_fold. simpl.
    destruct (IH (fold_left (fun m x => recordManifest h x m) ms m))
      as (m' & Hm' & Hlook).
    + intros r' Hr'. apply Hwalk. right. exact Hr'.
    + intros r' ms' x Hr'. apply Hother. right. exact Hr'.
    + exists m'. split; [exact Hm' |].
      rewrite Hlook. apply fold_record_other.
      intros x Hx. apply (Hother r ms x); [left; reflexivity | exact Hms | exact Hx].
Qed.

Lemma scanRoots_app (roots1 roots2 : list jsstring)
    (m : gmap jsstring jsstring) :
  scanRoots h (roots1 ++ roots2) m
  = bindC (scanRoots h roots1 m) (scanRoots h roots2).
Proof.
  revert m.
  induction roots1 as [|r rest IH]; intros m; [reflexivity |].
  simpl. destruct (await (findManifests h r true)) as [ms|e]; [| reflexivity].
  simpl. destruct (scanManifests h ms m) as [m1|e]; [| reflexivity].
  simpl. apply IH.
Qed.

Lemma scanRoots_normal (roots : list jsstring) (m : gmap jsstring jsstring) :
  (forall r, In r roots -> exists ms, findManifests h r true = Resolved ms) ->
  exists m', scanRoots h roots m = Normal m'.
Proof.
  revert m.
  induction roots as [|r rest IH]; intros m Hwalk; [eexists; reflexivity |].
  destruct (Hwalk r (or_introl eq_refl)) as [ms Hms].
  simpl. rewrite Hms. simpl. rewrite scanManifests_fold. simpl.
  apply IH. intros r' Hr'. apply Hwalk. right. exact Hr'.
Qed.

End ManifestScan.

Section InstalledGames.
Import GamingRoot.

(** C6 (as stated, refuted): the title Foo has a manifest on the volumes
    C:\ and D:\, enumerated in this order; the map ends with the install
    path of D:\, the later volume, not with the one of C:\. *)
Lemma C6_counterexample :
  findXboxGamingRootPaths exampleHost = Resolved (str "C:\B" :: str "D:\A" :: nil) /\
  findManifests exampleHost (str "C:\B") true
    = Resolved (str "C:\B\Foo\appxmanifest.xml" :: nil) /\
  findManifests exampleHost (str "D:\A") true
    = Resolved (str "D:\A\Foo\appxmanifest.xml" ::
                str "D:\A\Bar\appxmanifest.xml" :: nil) /\
  (forall gamePath, In gamePath (str "C:\B\Foo" :: str "D:\A\Foo" :: nil) ->
     exists data, getAppManifestData exampleHost gamePath = Resolved data /\
                  identityName data = Some (str "Foo")) /\
  exists m, findInstalledGames exampleHost = Resolved m /\
            m !! str "Foo" = Some (str "D:\A\Foo") /\
            m !! str "Foo" <> Some (str "C:\B\Foo").
Proof.
  split; [reflexivity |]. split; [reflexivity |]. split; [reflexivity |].
  split.
  - intros gamePath [<- | [<- | []]];
      (eexists; split; [vm_compute; reflexivity | reflexivity]).
  - exists (<[str "Bar" := str "D:\A\Bar"]> (<[str "Foo" := str "D:\A\Foo"]> ∅)).
    split; [vm_compute; reflexivity |].
    split; [vm_compute; reflexivity | vm_compute; discriminate].
Qed.

(** C6 (amended): last write wins.  For every title identity (a non-empty
    name other than [__proto__]), the map holds the install path of the
    manifest with this identity that is enumerated last: the one on the
    latest volume, whatever earlier volumes held for the same identity. *)
Theorem C6_last_volume_wins (h : Host)
    (before after ms1 ms2 : list jsstring) (root manifest id : jsstring)
    (data : option ManifestXml) :
  findXboxGamingRootPaths h = Resolved (before ++ root :: after) ->
  (forall r, In r (before ++ after) ->
             exists ms, findManifests h r true = Resolved ms) ->
  findManifests h root true = Resolved (ms1 ++ manifest :: ms2) ->
  getAppManifestData h (path_dirname h manifest) = Resolved data ->
  identityName data = Some id ->
  id <> nil -> id <> str "__proto__" ->
  (forall x, In x ms2 -> otherIdentity h id x) ->
  (forall r ms x, In r after -> findManifests h r true = Resolved ms ->
                  In x ms -> otherIdentity h id x) ->
  exists m, findInstalledGames h = Resolved m /\
            m !! id = Some (path_dirname h manifest).
Proof.
  intros Hroots Hwalk Hms Hdata Hid Hne Hproto Hrest Hafter.
  unfold findInstalledGames. rewrite Hroots. simpl.
  rewrite scanRoots_app.
  destruct (scanRoots_normal h before ∅) as [m1 Hm1].
  { intros r Hr. apply Hwalk. apply in_or_app. left. exact Hr. }
  rewrite Hm1. simpl. rewrite Hms. simpl.
  rewrite scanManifests_fold. simpl.
  rewrite fold_left_app. simpl.
  set (m2 := fold_left _ ms1 m1).
  destruct (scanRoots_other h id after
              (fold_left (fun m x => recordManifest h x m) ms2
                         (recordManifest h manifest m2)))
    as (m & Hm & Hlook).
  { intros r Hr. apply Hwalk. apply in_or_app. right. exact Hr. }
  { exact Hafter. }
  exists m. rewrite Hm. split; [reflexivity |].
  rewrite Hlook, fold_record_other by exact Hrest.
  eapply recordManifest_this; eassumption.
Qed.

Lemma C6_last_volume_wins_witness :
  exists m, findInstalledGames exampleHost = Resolved m /\
            m !! str "Foo"
            = Some (path_dirname exampleHost (str "D:\A\Foo\appxmanifest.xml")).
Proof.
  apply (C6_last_volume_wins exampleHost
           (str "C:\B" :: nil) nil nil (str "D:\A\Bar\appxmanifest.xml" :: nil)
           (str "D:\A") (str "D:\A\Foo\appxmanifest.xml") (str "Foo")
           (Some (manifestOf (str "Foo")))).
  - reflexivity.
  - intros r [<- | []]. eexists. reflexivity.
  - reflexivity.
  - reflexivity.
  - reflexivity.
  - discriminate.
  - discriminate.
  - intros x [<- | []] data Hdata.
    vm_compute in Hdata. injection Hdata as <-.
    vm_compute. discriminate.
  - intros r ms x [].
Defined.

End InstalledGames.

(** * Properties of the registry resolvers *)

Section Resolvers.
Import Launcher.

Variable env : Env.

Lemma find_value_named (vals : list ValueEntry) (n : string) (v : ValueEntry) :
  List.find (fun v => bool_decide (vkey v = n)) vals = Some v ->
  vkey v = n /\ In v vals.
Proof.
  intros Hfind. apply find_some in Hfind as [Hin Hdec].
  apply bool_decide_eq_true in Hdec. split; assumption.
Qed.

Lemma includes_find (vals : list ValueEntry) (n : string) :
  includes (map vkey vals) n = true ->
  exists v, List.find (fun v => bool_decide (vkey v = n)) vals = Some v.
Proof.
  unfold includes. intros Hinc. apply bool_decide_eq_true in Hinc.
  apply list_elem_of_In, in_map_iff in Hinc as (v & Hv & Hin).
  destruct (List.find (fun v => bool_decide (vkey v = n)) vals) as [w|] eqn:Hf;
    [eauto |].
  apply (find_none _ _ Hf) in Hin.
  apply bool_decide_eq_false in Hin. contradiction.
Qed.

Lemma find_includes (vals : list ValueEntry) (n : string) (v : ValueEntry) :
  List.find (fun v => bool_decide (vkey v = n)) vals = Some v ->
  includes (map vkey vals) n = true.
Proof.
  intros Hfind. apply find_value_named in Hfind as [Hn Hin].
  unfold includes. apply bool_decide_eq_true.
  apply list_elem_of_In, in_map_iff. eauto.
Qed.

(** A successful [RegGetValue] means that the key opens and that the value
    sits among the enumerated ones. *)
Lemma RegGetValue_Normal (rootKey : REGISTRY_HIVE) (keyPath n : string)
    (v : ValueEntry) :
  RegGetValue env rootKey keyPath n = Normal v ->
  exists hkey, WithRegOpen env rootKey keyPath = Normal hkey /\
               List.find (fun v => bool_decide (vkey v = n)) (RegEnumValues hkey)
               = Some v.
Proof.
  unfold RegGetValue. intros Hget.
  destruct (WithRegOpen env rootKey keyPath) as [hkey|e]; [| discriminate].
  simpl in Hget. exists hkey. split; [reflexivity |].
  destruct (List.find _ (RegEnumValues hkey)); congruence.
Qed.

(** ** [resolveRef] *)

Lemma probeHive_match (hivesPath displayName hive : string)
    (name : JsValue) (v : ValueEntry) :
  RegGetValue env HKEY_CLASSES_ROOT (path_join env hivesPath hive) displayName
    = Normal v ->
  probeHive env hivesPath displayName hive name = value v.
Proof.
  intros Hget. unfold probeHive.
  destruct (RegGetValue_Normal _ _ _ _ Hget) as (hkey & Hopen & Hfind).
  rewrite Hopen. simpl.
  rewrite (find_includes _ _ _ Hfind), Hget. reflexivity.
Qed.

Lemma probeHive_nomatch (hivesPath displayName hive : string)
    (name : JsValue) :
  (forall v, RegGetValue env HKEY_CLASSES_ROOT (path_join env hivesPath hive)
                         displayName <> Normal v) ->
  probeHive env hivesPath displayName hive name = name.
Proof.
  intros Hnone. unfold probeHive.
  destruct (WithRegOpen env HKEY_CLASSES_ROOT (path_join env hivesPath hive))
    as [hkey|e] eqn:Hopen; [| reflexivity].
  simpl.
  destruct (includes (map vkey (RegEnumValues hkey)) displayName) eqn:Hinc;
    [| reflexivity].
  destruct (includes_find _ _ Hinc) as [v Hfind].
  exfalso. apply (Hnone v). unfold RegGetValue. rewrite Hopen. simpl.
  rewrite Hfind. reflexivity.
Qed.

Lemma scanHives_nomatch (hivesPath displayName : string) (hives : list string)
    (name : JsValue) :
  (forall hive v, In hive hives ->
     RegGetValue env HKEY_CLASSES_ROOT (path_join env hivesPath hive)
                 displayName <> Normal v) ->
  scanHives env hivesPath displayName hives name = name.
Proof.
  revert name. unfold scanHives.
  induction hives as [|hive rest IH]; intros name Hnone; [reflexivity |].
  simpl. rewrite probeHive_nomatch.
  - apply IH. intros hive' v Hin. apply Hnone. right. exact Hin.
  - intros v. apply Hnone. left. reflexivity.
Qed.

Lemma scanHives_last_match (hivesPath displayName hive : string)
    (before after : list string) (name : JsValue) (v : ValueEntry) :
  RegGetValue env HKEY_CLASSES_ROOT (path_join env hivesPath hive) displayName
    = Normal v ->
  (forall later w, In later after ->
     RegGetValue env HKEY_CLASSES_ROOT (path_join env hivesPath later)
                 displayName <> Normal w) ->
  scanHives env hivesPath displayName (before ++ hive :: after) name
  = value v.
Proof.
  intros Hget Hafter.
  unfold scanHives. rewrite fold_left_app. simpl.
  rewrite (probeHive_match _ _ _ _ _ Hget).
  apply scanHives_nomatch. exact Hafter.
Qed.

(** ** [resolveMutableLocation] *)

Lemma probeMutable_not_candidate (packagePath : JsValue) (hivePath : string)
    (hk : HKey) :
  includes (stringValueNames hk) "MutableLink"
    && includes (stringValueNames hk) "MutableLocation" = false ->
  probeMutable env packagePath hivePath hk = Normal VUndefined.
Proof. intros Hc. unfold probeMutable. rewrite Hc. reflexivity. Qed.

Lemma scanMutable_set (packagePath : JsValue) (keys : list string)
    (loc : JsValue) :
  defined loc = true ->
  scanMutable env packagePath keys loc = Normal loc.
Proof.
  intros Hdef. destruct keys; simpl; [reflexivity |].
  rewrite Hdef. reflexivity.
Qed.

(** What the scan does on a child key that it passes over. *)
Lemma scanMutable_pass (packagePath : JsValue) (k : string)
    (rest : list string) :
  passedOver env packagePath k ->
  scanMutable env packagePath (k :: rest) VUndefined
  = scanMutable env packagePath rest VUndefined.
Proof.
  intros (hk & Hopen & Hno). simpl. rewrite Hopen. simpl.
  assert (Hprobe : probeMutable env packagePath
                     (path_join env MUTABLE_LOCATION_PATH k) hk
                   = Normal VUndefined).
  { destruct Hno as [Hc | (l & Hl & Hne)].
    - apply probeMutable_not_candidate. exact Hc.
    - unfold probeMutable.
      destruct (includes (stringValueNames hk) "MutableLink"
                && includes (stringValueNames hk) "MutableLocation");
        [| reflexivity].
      rewrite Hl. simpl. rewrite Hne. reflexivity. }
  rewrite Hprobe. reflexivity.
Qed.

Lemma scanMutable_passed (packagePath : JsValue) (before rest : list string) :
  (forall k, In k before -> passedOver env packagePath k) ->
  scanMutable env packagePath (before ++ rest) VUndefined
  = scanMutable env packagePath rest VUndefined.
Proof.
  induction before as [|k before' IH]; intros Hbefore; [reflexivity |].
  rewrite <- app_comm_cons.
  rewrite scanMutable_pass by (apply Hbefore; left; reflexivity).
  apply IH. intros k' Hin. apply Hbefore. right. exact Hin.
Qed.

(** No child key that opens is a mapping record: the scan ends
    undefined or throws. *)
Lemma scanMutable_no_candidate (packagePath : JsValue) (keys : list string) :
  (forall k hk, In k keys ->
     WithRegOpen env HKEY_LOCAL_MACHINE (path_join env MUTABLE_LOCATION_PATH k)
       = Normal hk ->
     includes (stringValueNames hk) "MutableLink"
       && includes (stringValueNames hk) "MutableLocation" = false) ->
  forall loc, scanMutable env packagePath keys VUndefined = Normal loc ->
              loc = VUndefined.
Proof.
  induction keys as [|k rest IH]; intros Hnone loc Hscan.
  - injection Hscan as <-. reflexivity.
  - simpl in Hscan.
    destruct (WithRegOpen env HKEY_LOCAL_MACHINE
                (path_join env MUTABLE_LOCATION_PATH k)) as [hk|e] eqn:Hopen;
      [| discriminate].
    simpl in Hscan.
    rewrite probeMutable_not_candidate in Hscan
      by (apply (Hnone k hk); [left; reflexivity | exact Hopen]).
    simpl in Hscan. apply IH; [| exact Hscan].
    intros k' hk' Hin. apply Hnone. right. exact Hin.
Qed.

Lemma resolveMutableLocation_no_candidate (packagePath : JsValue) :
  (forall firsthkey k hk,
     WithRegOpen env HKEY_LOCAL_MACHINE MUTABLE_LOCATION_PATH = Normal firsthkey ->
     In k (map key (RegEnumKeys firsthkey)) ->
     WithRegOpen env HKEY_LOCAL_MACHINE (path_join env MUTABLE_LOCATION_PATH k)
       = Normal hk ->
     includes (stringValueNames hk) "MutableLink"
       && includes (stringValueNames hk) "MutableLocation" = false) ->
  resolveMutableLocation env packagePath = VUndefined.
Proof.
  intros Hnone. unfold resolveMutableLocation.
  destruct (WithRegOpen env HKEY_LOCAL_MACHINE MUTABLE_LOCATION_PATH)
    as [firsthkey|e] eqn:Hroot; [| reflexivity].
  simpl.
  pose proof (scanMutable_no_candidate packagePath
                (map key (RegEnumKeys firsthkey))
                (fun k hk => Hnone firsthkey k hk eq_refl)) as Hscan.
  destruct (scanMutable env packagePath (map key (RegEnumKeys firsthkey))
                        VUndefined) as [loc|e]; [| reflexivity].
  apply Hscan. reflexivity.
Qed.

(** The child keys enumerated before [k] are passed over; [k] is a
    mapping record whose link is the probe path. *)
Lemma resolveMutableLocation_first_match (packagePath : JsValue)
    (firsthkey : HKey) (before after : list string) (k : string)
    (hk : HKey) (link loc : ValueEntry) :
  WithRegOpen env HKEY_LOCAL_MACHINE MUTABLE_LOCATION_PATH = Normal firsthkey ->
  map key (RegEnumKeys firsthkey) = before ++ k :: after ->
  (forall k', In k' before -> passedOver env packagePath k') ->
  WithRegOpen env HKEY_LOCAL_MACHINE (path_join env MUTABLE_LOCATION_PATH k)
    = Normal hk ->
  includes (stringValueNames hk) "MutableLink" = true ->
  includes (stringValueNames hk) "MutableLocation" = true ->
  RegGetValue env HKEY_LOCAL_MACHINE (path_join env MUTABLE_LOCATION_PATH k)
              "MutableLink" = Normal link ->
  strictEquals (value link) packagePath = true ->
  RegGetValue env HKEY_LOCAL_MACHINE (path_join env MUTABLE_LOCATION_PATH k)
              "MutableLocation" = Normal loc ->
  defined (value loc) = true ->
  resolveMutableLocation env packagePath = value loc.
Proof.
  intros Hroot Hkeys Hbefore Hopen Hl1 Hl2 Hlink Heq Hloc Hdef.
  unfold resolveMutableLocation. rewrite Hroot. simpl. rewrite Hkeys.
  rewrite scanMutable_passed by exact Hbefore.
  simpl. rewrite Hopen. simpl. unfold probeMutable.
  rewrite Hl1, Hl2. simpl. rewrite Hlink. simpl. rewrite Heq.
  rewrite Hloc. simpl. rewrite scanMutable_set by exact Hdef. reflexivity.
Qed.

(** The child keys enumerated before [k] are passed over; [k] cannot be
    opened. *)
Lemma resolveMutableLocation_unopenable (packagePath : JsValue)
    (firsthkey : HKey) (before after : list string) (k : string) (err : Err) :
  WithRegOpen env HKEY_LOCAL_MACHINE MUTABLE_LOCATION_PATH = Normal firsthkey ->
  map key (RegEnumKeys firsthkey) = before ++ k :: after ->
  (forall k', In k' before -> passedOver env packagePath k') ->
  WithRegOpen env HKEY_LOCAL_MACHINE (path_join env MUTABLE_LOCATION_PATH k)
    = Throw err ->
  resolveMutableLocation env packagePath = VUndefined.
Proof.
  intros Hroot Hkeys Hbefore Hopen.
  unfold resolveMutableLocation. rewrite Hroot. simpl. rewrite Hkeys.
  rewrite scanMutable_passed by exact Hbefore.
  simpl. rewrite Hopen. reflexivity.
Qed.

(** Every child key is passed over. *)
Lemma resolveMutableLocation_all_passed (packagePath : JsValue)
    (firsthkey : HKey) :
  WithRegOpen env HKEY_LOCAL_MACHINE MUTABLE_LOCATION_PATH = Normal firsthkey ->
  (forall k, In k (map key (RegEnumKeys firsthkey)) ->
             passedOver env packagePath k) ->
  resolveMutableLocation env packagePath = VUndefined.
Proof.
  intros Hroot Hall.
  unfold resolveMutableLocation. rewrite Hroot. simpl.
  rewrite <- (app_nil_r (map key (RegEnumKeys firsthkey))).
  rewrite scanMutable_passed by exact Hall. reflexivity.
Qed.

End Resolvers.

Section ResolverClaims.
Import Launcher.

(** C3 (as stated, refuted): the resource cache of the Skyrim package has
    the hives 2a0b and 3c1d, in this order, and both hold a value named
    with the reference string; [resolveRef] returns the data of the second
    hive, so the first match does not determine the name. *)
Lemma C3_counterexample :
  let hivesPath := backslashJoin (cacheOf pkgSkyrim) "1d6f2c3a" in
  getKeyNames exampleEnv HKEY_CLASSES_ROOT hivesPath None = "2a0b" :: "3c1d" :: nil /\
  RegGetValue exampleEnv HKEY_CLASSES_ROOT (backslashJoin hivesPath "2a0b")
              (refOf pkgSkyrim)
    = Normal (sz (refOf pkgSkyrim) "Skyrim Special Edition") /\
  RegGetValue exampleEnv HKEY_CLASSES_ROOT (backslashJoin hivesPath "3c1d")
              (refOf pkgSkyrim)
    = Normal (sz (refOf pkgSkyrim) "Skyrim (PC)") /\
  resolveRef exampleEnv pkgSkyrim (refOf pkgSkyrim) = VString "Skyrim (PC)" /\
  resolveRef exampleEnv pkgSkyrim (refOf pkgSkyrim)
    <> VString "Skyrim Special Edition".
Proof.
  cbv zeta. repeat split; try (vm_compute; reflexivity).
  vm_compute. discriminate.
Qed.

(** C3 (amended): in [resolveRef] the hives are scanned in enumeration
    order and every hive that holds a value named with the original
    reference string overwrites the name found so far: the last such hive
    determines the returned name.  The hives are those under the first
    child key of the key that [replace] makes of the resource path and the
    package id. *)
Theorem C3_last_matching_hive_wins (env : Env)
    (packageId displayName firstKey hive : string)
    (before after : list string) (v : ValueEntry) :
  let cachePath := replace RESOURCES_PATH "{{PACKAGE_ID}}" packageId in
  let hivesPath := path_join env cachePath firstKey in
  getFirstKeyName env HKEY_CLASSES_ROOT cachePath = Some firstKey ->
  firstKey <> EmptyString ->
  getKeyNames env HKEY_CLASSES_ROOT hivesPath None = before ++ hive :: after ->
  RegGetValue env HKEY_CLASSES_ROOT (path_join env hivesPath hive) displayName
    = Normal v ->
  (forall later w, In later after ->
     RegGetValue env HKEY_CLASSES_ROOT (path_join env hivesPath later)
                 displayName <> Normal w) ->
  resolveRef env packageId displayName = value v.
Proof.
  intros cachePath hivesPath Hfirst Hne Hhives Hget Hafter.
  unfold resolveRef. fold cachePath. rewrite Hfirst.
  destruct firstKey as [|c0 cs]; [contradiction |].
  fold hivesPath. rewrite Hhives.
  destruct (before ++ hive :: after) as [|x xs] eqn:Hl.
  - destruct before; discriminate.
  - rewrite <- Hl.
    apply scanHives_last_match; assumption.
Qed.

Lemma C3_last_matching_hive_wins_witness :
  resolveRef exampleEnv pkgSkyrim (refOf pkgSkyrim)
  = value (sz (refOf pkgSkyrim) "Skyrim (PC)").
Proof.
  apply (C3_last_matching_hive_wins exampleEnv pkgSkyrim (refOf pkgSkyrim)
           "1d6f2c3a" "3c1d" ("2a0b" :: nil) nil).
  - reflexivity.
  - discriminate.
  - reflexivity.
  - reflexivity.
  - intros later w [].
Defined.

(** C5 (as stated, refuted): the second child key of the state cache
    links the probe path to a mutable location, but the first child key
    cannot be opened; [resolveMutableLocation] returns undefined. *)
Lemma C5_counterexample :
  getKeyNames lockedEnv HKEY_LOCAL_MACHINE MUTABLE_LOCATION_PATH None
    = "1a" :: "2b" :: "3c" :: nil /\
  WithRegOpen lockedEnv HKEY_LOCAL_MACHINE (backslashJoin MUTABLE_LOCATION_PATH "1a")
    = Throw (ErrnoError "EACCES") /\
  RegGetValue lockedEnv HKEY_LOCAL_MACHINE (backslashJoin MUTABLE_LOCATION_PATH "2b")
              "MutableLink" = Normal (sz "MutableLink" "E:\Games\Skyrim\Content") /\
  RegGetValue lockedEnv HKEY_LOCAL_MACHINE (backslashJoin MUTABLE_LOCATION_PATH "2b")
              "MutableLocation" = Normal (sz "MutableLocation" "E:\Games\Skyrim") /\
  resolveMutableLocation lockedEnv (VString "E:\Games\Skyrim\Content")
    = VUndefined.
Proof. repeat split; vm_compute; reflexivity. Qed.

(** C5 (amended): [resolveMutableLocation] returns undefined when no
    state-cache child key has both a [MutableLink] and a [MutableLocation]
    string-typed value.  When some child key has both, its [MutableLink]
    value equals the probe path exactly and its [MutableLocation] value is
    defined, the function returns that [MutableLocation] value, taking the
    first such match in enumeration order, provided that every child key
    enumerated before this match is passed over: it can be opened, and it
    lacks one of the two values or links another path.  And when a child
    key cannot be opened after the child keys before it were passed over,
    the scan ends there and the result is undefined, whatever the child
    keys enumerated later hold. *)
Theorem C5_resolveMutableLocation (env : Env) (packagePath : JsValue) :
  ((forall firsthkey k hk,
      WithRegOpen env HKEY_LOCAL_MACHINE MUTABLE_LOCATION_PATH = Normal firsthkey ->
      In k (map key (RegEnumKeys firsthkey)) ->
      WithRegOpen env HKEY_LOCAL_MACHINE (path_join env MUTABLE_LOCATION_PATH k)
        = Normal hk ->
      includes (stringValueNames hk) "MutableLink"
        && includes (stringValueNames hk) "MutableLocation" = false) ->
   resolveMutableLocation env packagePath = VUndefined) /\
  (forall firsthkey before k after hk link loc,
      WithRegOpen env HKEY_LOCAL_MACHINE MUTABLE_LOCATION_PATH = Normal firsthkey ->
      map key (RegEnumKeys firsthkey) = before ++ k :: after ->
      (forall k', In k' before -> passedOver env packagePath k') ->
      WithRegOpen env HKEY_LOCAL_MACHINE (path_join env MUTABLE_LOCATION_PATH k)
        = Normal hk ->
      includes (stringValueNames hk) "MutableLink" = true ->
      includes (stringValueNames hk) "MutableLocation" = true ->
      RegGetValue env HKEY_LOCAL_MACHINE (path_join env MUTABLE_LOCATION_PATH k)
                  "MutableLink" = Normal link ->
      strictEquals (value link) packagePath = true ->
      RegGetValue env HKEY_LOCAL_MACHINE (path_join env MUTABLE_LOCATION_PATH k)
                  "MutableLocation" = Normal loc ->
      defined (value loc) = true ->
      resolveMutableLocation env packagePath = value loc) /\
  (forall firsthkey before k after err,
      WithRegOpen env HKEY_LOCAL_MACHINE MUTABLE_LOCATION_PATH = Normal firsthkey ->
      map key (RegEnumKeys firsthkey) = before ++ k :: after ->
      (forall k', In k' before -> passedOver env packagePath k') ->
      WithRegOpen env HKEY_LOCAL_MACHINE (path_join env MUTABLE_LOCATION_PATH k)
        = Throw err ->
      resolveMutableLocation env packagePath = VUndefined).
Proof.
  split; [| split].
  - apply resolveMutableLocation_no_candidate.
  - intros firsthkey before k after hk link loc.
    apply resolveMutableLocation_first_match.
  - intros firsthkey before k after err.
    apply resolveMutableLocation_unopenable.
Qed.

Lemma C5_resolveMutableLocation_witness :
  resolveMutableLocation bareEnv (VString "C:\Nowhere") = VUndefined /\
  resolveMutableLocation exampleEnv (VString "E:\Games\Skyrim\Content")
  = value (sz "MutableLocation" "E:\Games\Skyrim") /\
  resolveMutableLocation lockedEnv (VString "E:\Games\Skyrim\Content")
  = VUndefined.
Proof.
  split; [| split].
  - apply (proj1 (C5_resolveMutableLocation bareEnv (VString "C:\Nowhere"))).
    intros firsthkey k hk Hroot Hin Hopen.
    vm_compute in Hroot. injection Hroot as <-.
    destruct Hin as [<- | []].
    vm_compute in Hopen. injection Hopen as <-.
    reflexivity.
  - apply (proj1 (proj2 (C5_resolveMutableLocation exampleEnv
                           (VString "E:\Games\Skyrim\Content")))
             {| RegEnumKeys := keysOf ("1a" :: "2b" :: "3c" :: nil);
                RegEnumValues := nil |}
             ("1a" :: nil) "2b" ("3c" :: nil)
             {| RegEnumKeys := nil;
                RegEnumValues :=
                  sz "MutableLink" "E:\Games\Skyrim\Content" ::
                  sz "MutableLocation" "E:\Games\Skyrim" :: nil |}
             (sz "MutableLink" "E:\Games\Skyrim\Content")
             (sz "MutableLocation" "E:\Games\Skyrim")); try reflexivity.
    intros k' [<- | []].
    eexists. split; [reflexivity |].
    right. eexists. split; reflexivity.
  - apply (proj2 (proj2 (C5_resolveMutableLocation lockedEnv
                           (VString "E:\Games\Skyrim\Content")))
             {| RegEnumKeys := keysOf ("1a" :: "2b" :: "3c" :: nil);
                RegEnumValues := nil |}
             nil "1a" ("2b" :: "3c" :: nil) (ErrnoError "EACCES"));
      try reflexivity.
    intros k' [].
Defined.

End ResolverClaims.

(** * Properties of the package enumerator *)

Section Enumerator.
Import Launcher.

Lemma split_not_nil (sep : ascii) (s : string) : split sep s <> nil.
Proof.
  induction s as [|c rest IH]; simpl; [discriminate |].
  destruct (Ascii.eqb c sep); [discriminate |].
  destruct (split sep rest); [contradiction | discriminate].
Qed.

Lemma indexOf_lower_bound (ch : ascii) (s : string) : -1 <= indexOf ch s.
Proof.
  induction s as [|c rest IH]; simpl; [lia |].
  destruct (Ascii.eqb c ch); [lia |].
  destruct (Z.ltb_spec (indexOf ch rest) 0); lia.
Qed.

(** [split] yields more than one segment exactly when the separator
    occurs in the string. *)
Lemma split_several (sep : ascii) (s : string) :
  (1 <? Z.of_nat (length (split sep s))) = (0 <=? indexOf sep s).
Proof.
  induction s as [|c rest IH]; simpl; [reflexivity |].
  pose proof (split_not_nil sep rest) as Hnil.
  pose proof (indexOf_lower_bound sep rest) as Hlow.
  destruct (Ascii.eqb c sep).
  - simpl. destruct (split sep rest) as [|seg segs]; [contradiction |].
    simpl length. destruct (Z.ltb_spec 1 (Z.of_nat (S (S (length segs))))); [reflexivity | lia].
  - destruct (split sep rest) as [|seg segs]; [contradiction |].
    simpl length in *. rewrite IH.
    destruct (Z.ltb_spec (indexOf sep rest) 0);
      destruct (Z.leb_spec 0 (indexOf sep rest)); try lia;
      first [reflexivity | symmetry; apply Z.leb_le; lia].
Qed.

(** The two registry reads that decide what [gameEntry] yields. *)
Lemma gameEntry_cases (env : Env) (k : string) :
  match RegGetValue env HKEY_CLASSES_ROOT (REPOSITORY_PATH +:+ "\" +:+ k)
                    "DisplayName" with
  | Throw _ => gameEntry env k = Normal None
  | Normal v =>
      match value v with
      | VString s =>
          match RegGetValue env HKEY_CLASSES_ROOT
                            (REPOSITORY_PATH +:+ "\" +:+ k)
                            "PackageRootFolder" with
          | Throw err => gameEntry env k = Throw err
          | Normal root =>
              exists e,
                gameEntry env k = Normal (Some e) /\
                name e = (if startsWith s "@" then resolveRef env k s
                          else VString s) /\
                gamePath e
                = (if defined (resolveMutableLocation env (value root))
                   then resolveMutableLocation env (value root)
                   else value root)
          end
      | _ => gameEntry env k = Throw TypeError
      end
  end.
Proof.
  unfold gameEntry.
  destruct (RegGetValue env HKEY_CLASSES_ROOT (REPOSITORY_PATH +:+ "\" +:+ k)
                        "DisplayName") as [v|e]; [| reflexivity].
  destruct (value v) as [s|n|b|l|]; try reflexivity.
  destruct (RegGetValue env HKEY_CLASSES_ROOT (REPOSITORY_PATH +:+ "\" +:+ k)
                        "PackageRootFolder") as [root|e]; [| reflexivity].
  simpl. eexists. split; [reflexivity |]. split; reflexivity.
Qed.

(** What the reads of an emitted entry were. *)
Lemma gameEntry_emitted (env : Env) (k : string) (e : IXboxEntry) :
  gameEntry env k = Normal (Some e) ->
  exists d s root,
    RegGetValue env HKEY_CLASSES_ROOT (REPOSITORY_PATH +:+ "\" +:+ k)
                "DisplayName" = Normal d /\
    value d = VString s /\
    RegGetValue env HKEY_CLASSES_ROOT (REPOSITORY_PATH +:+ "\" +:+ k)
                "PackageRootFolder" = Normal root /\
    name e = (if startsWith s "@" then resolveRef env k s else VString s) /\
    gamePath e = (if defined (resolveMutableLocation env (value root))
                  then resolveMutableLocation env (value root)
                  else value root).
Proof.
  intros He. pose proof (gameEntry_cases env k) as Hc.
  destruct (RegGetValue env HKEY_CLASSES_ROOT (REPOSITORY_PATH +:+ "\" +:+ k)
                        "DisplayName") as [d|err]; [| congruence].
  destruct (value d) as [s|n|b|l|] eqn:Hd; try congruence.
  destruct (RegGetValue env HKEY_CLASSES_ROOT (REPOSITORY_PATH +:+ "\" +:+ k)
                        "PackageRootFolder") as [root|err]; [| congruence].
  destruct Hc as (e' & He' & Hname & Hpath).
  assert (e' = e) as -> by congruence.
  exists d, s, root. repeat split; assumption.
Qed.

(** A reference that [resolveRef] leaves undefined does not stop the
    callback: it emits the entry, with an undefined name. *)
Lemma gameEntry_unresolved_reference (env : Env) (k s : string)
    (d root : ValueEntry) :
  RegGetValue env HKEY_CLASSES_ROOT (REPOSITORY_PATH +:+ "\" +:+ k) "DisplayName"
    = Normal d ->
  value d = VString s ->
  startsWith s "@" = true ->
  resolveRef env k s = VUndefined ->
  RegGetValue env HKEY_CLASSES_ROOT (REPOSITORY_PATH +:+ "\" +:+ k)
              "PackageRootFolder" = Normal root ->
  exists e, gameEntry env k = Normal (Some e) /\ name e = VUndefined.
Proof.
  intros Hd Hs Hat Href Hroot.
  pose proof (gameEntry_cases env k) as Hc.
  rewrite Hd, Hs, Hroot in Hc.
  destruct Hc as (e & He & Hname & _).
  exists e. split; [exact He |]. rewrite Hname, Hat. exact Href.
Qed.

(** C1: on a registry with three candidate packages, two in order and
    one whose key has a [DisplayName] but no [PackageRootFolder], the
    fetch of [PackageRootFolder] throws outside every [try] of the
    callback and the promise of [getGameEntries] is rejected: the entries
    of the packages in order are lost with the batch. *)
Theorem C1_root_folder_failure_rejects_batch :
  map key (List.filter (notIgnored brokenEnv IGNORABLE)
             (keysOf (pkgXbox :: pkgAstro :: pkgNoName :: pkgNoRoot :: nil)))
    = pkgAstro :: pkgNoName :: pkgNoRoot :: nil /\
  (exists e, gameEntry brokenEnv pkgAstro = Normal (Some e)) /\
  (exists e, gameEntry brokenEnv pkgNoName = Normal (Some e)) /\
  (exists v, RegGetValue brokenEnv HKEY_CLASSES_ROOT
               (REPOSITORY_PATH +:+ "\" +:+ pkgNoRoot) "DisplayName" = Normal v) /\
  RegGetValue brokenEnv HKEY_CLASSES_ROOT
    (REPOSITORY_PATH +:+ "\" +:+ pkgNoRoot) "PackageRootFolder" = Throw ENOENT /\
  gameEntry brokenEnv pkgNoRoot = Throw ENOENT /\
  getGameEntries true brokenEnv = Rejected ENOENT.
Proof.
  split; [evaluate |].
  split; [eexists; evaluate |].
  split; [eexists; evaluate |].
  split; [eexists; evaluate |].
  split; [evaluate |].
  split; evaluate.
Qed.

(** C4 (as stated, refuted): the first child key under the secondary
    repository path of the Skyrim package is called Skyrim, a name
    without an exclamation mark; the entry's executionName is App, not
    the child key name. *)
Lemma C4_counterexample :
  getFirstKeyName exampleEnv HKEY_CLASSES_ROOT
    (path_join exampleEnv REPOSITORY_PATH2 pkgSkyrim) = Some "Skyrim" /\
  split "!" "Skyrim" = "Skyrim" :: nil /\
  exists e, gameEntry exampleEnv pkgSkyrim = Normal (Some e) /\
            executionName e = "App" /\
            executionName e <> "Skyrim".
Proof.
  split; [vm_compute; reflexivity |]. split; [vm_compute; reflexivity |].
  eexists. split; [vm_compute; reflexivity |].
  split; [reflexivity | discriminate].
Qed.

(** C4 (amended): for every candidate package key that yields an entry,
    if a first child key exists under the secondary repository path of
    the package and its name contains an exclamation mark, executionName
    is the last segment of that name split on the exclamation mark; if the
    name contains none, or if there is no child key, executionName is the
    literal App. *)
Theorem C4_executionName (env : Env) (k : string) (e : IXboxEntry) :
  gameEntry env k = Normal (Some e) ->
  match getFirstKeyName env HKEY_CLASSES_ROOT (path_join env REPOSITORY_PATH2 k) with
  | Some child =>
      if 0 <=? indexOf "!" child
      then executionName e = List.last (split "!" child) EmptyString
      else executionName e = "App"
  | None => executionName e = "App"
  end.
Proof.
  unfold gameEntry. intros He.
  destruct (RegGetValue env HKEY_CLASSES_ROOT (REPOSITORY_PATH +:+ "\" +:+ k)
                        "DisplayName") as [v|err]; [| discriminate].
  destruct (value v) as [s|n|b|l|]; try discriminate.
  destruct (RegGetValue env HKEY_CLASSES_ROOT (REPOSITORY_PATH +:+ "\" +:+ k)
                        "PackageRootFolder") as [root|err]; [| discriminate].
  simpl in He. injection He as <-. simpl.
  destruct (getFirstKeyName env HKEY_CLASSES_ROOT (path_join env REPOSITORY_PATH2 k))
    as [[|c0 cs]|]; [reflexivity | | reflexivity].
  rewrite split_several.
  destruct (0 <=? indexOf "!" (String c0 cs)); reflexivity.
Qed.

Lemma C4_executionName_witness :
  exists e, gameEntry exampleEnv pkgAstro = Normal (Some e) /\
            executionName e = "ASTRONEER".
Proof.
  eexists. split; [vm_compute; reflexivity |].
  match goal with
  | |- executionName ?e = _ =>
      pose proof (C4_executionName exampleEnv pkgAstro e) as Hexec
  end.
  assert (Hentry : gameEntry exampleEnv pkgAstro
                   = Normal (Some {| appid := "SystemEraSoftworks.29415440E1269";
                                     publisherId := "ftk5pbg2rayv2";
                                     executionName := "ASTRONEER";
                                     gamePath :=
                                       VString "C:\Program Files\WindowsApps\Astro";
                                     name := VString "ASTRONEER";
                                     gameStoreId := "xbox" |}))
    by (vm_compute; reflexivity).
  specialize (Hexec Hentry).
  vm_compute in Hexec. exact Hexec.
Defined.

(** C10: the key of the package Unnamed has a [DisplayName] that starts
    with an at sign and that [resolveRef] leaves undefined, and a
    [PackageRootFolder]; the callback of the enumerator yields its entry,
    with an undefined name.  The key of the package Broken, enumerated
    after it, has no [PackageRootFolder]: its callback throws, the promise
    of [getGameEntries] is rejected, and the entry of Unnamed is not
    emitted. *)
Theorem C10_unresolved_entry_lost_with_batch :
  map key (List.filter (notIgnored brokenEnv IGNORABLE)
             (keysOf (pkgXbox :: pkgAstro :: pkgNoName :: pkgNoRoot :: nil)))
    = pkgAstro :: pkgNoName :: pkgNoRoot :: nil /\
  RegGetValue brokenEnv HKEY_CLASSES_ROOT
    (REPOSITORY_PATH +:+ "\" +:+ pkgNoName) "DisplayName"
    = Normal (sz "DisplayName" (refOf pkgNoName)) /\
  startsWith (refOf pkgNoName) "@" = true /\
  resolveRef brokenEnv pkgNoName (refOf pkgNoName) = VUndefined /\
  (exists e, gameEntry brokenEnv pkgNoName = Normal (Some e) /\
             name e = VUndefined) /\
  gameEntry brokenEnv pkgNoRoot = Throw ENOENT /\
  getGameEntries true brokenEnv = Rejected ENOENT /\
  (forall entries, getGameEntries true brokenEnv <> Resolved entries).
Proof.
  split; [evaluate |].
  split; [evaluate |].
  split; [evaluate |].
  split; [evaluate |].
  split.
  { apply (gameEntry_unresolved_reference brokenEnv pkgNoName (refOf pkgNoName)
             (sz "DisplayName" (refOf pkgNoName))
             (sz "PackageRootFolder" "C:\Program Files\WindowsApps\Unnamed"));
      evaluate. }
  split; [evaluate |].
  split; [evaluate |].
  intros entries. vm_compute. discriminate.
Qed.

End Enumerator.

(** * Properties of the cache of the launcher *)

Section Cache.
Import Launcher.

Lemma getGameEntriesM_installed (env : Env) (s : Session) :
  isXboxInstalled (self s) = true ->
  getGameEntriesM env s
  = ({| pid := allocated s; settled := getGameEntries true env |},
     {| self := self s; allocated := S (allocated s);
        storeQueries := S (storeQueries s) |}).
Proof.
  intros Hinst. unfold getGameEntriesM. rewrite Hinst. reflexivity.
Qed.

Lemma allGames_cached (env : Env) (s : Session)
    (cache : PromiseObj (list IXboxEntry)) :
  isXboxInstalled (self s) = true ->
  mCache (self s) = Some cache ->
  allGames env s = (cache, s).
Proof.
  intros Hinst Hcache. unfold allGames. rewrite Hinst, Hcache. reflexivity.
Qed.

Lemma allGames_uncached (env : Env) (s : Session) :
  isXboxInstalled (self s) = true ->
  mCache (self s) = None ->
  allGames env s
  = ({| pid := allocated s; settled := getGameEntries true env |},
     {| self := {| isXboxInstalled := true;
                   mCache := Some {| pid := allocated s;
                                     settled := getGameEntries true env |} |};
        allocated := S (S (allocated s));
        storeQueries := S (storeQueries s) |}).
Proof.
  intros Hinst Hcache. unfold allGames. rewrite Hinst, Hcache. simpl.
  rewrite getGameEntriesM_installed by exact Hinst.
  unfold setCache, newPromise. simpl. rewrite Hinst. reflexivity.
Qed.

Lemma reloadGames_installed (env : Env) (s : Session) :
  isXboxInstalled (self s) = true ->
  reloadGames env s
  = ({| pid := allocated s; settled := Resolved tt |},
     {| self := {| isXboxInstalled := true;
                   mCache := Some {| pid := S (allocated s);
                                     settled := getGameEntries true env |} |};
        allocated := S (S (allocated s));
        storeQueries := S (storeQueries s) |}).
Proof.
  intros Hinst. unfold reloadGames. rewrite Hinst. simpl.
  rewrite getGameEntriesM_installed by exact Hinst.
  unfold setCache. simpl. rewrite Hinst. reflexivity.
Qed.

(** C8: with the store installed, the second of two calls of [allGames]
    returns the very promise of the first and leaves the session as it
    was (no promise made, no query of the store), whatever the registry
    holds by then; [reloadGames] issues one query, and the call of
    [allGames] after it returns the promise of that query, a promise
    made after the first one. *)
Theorem C8_allGames_memoized (env1 env2 env3 env4 : Env) (s : Session) :
  isXboxInstalled (self s) = true ->
  let r1 := allGames env1 s in
  let r2 := allGames env2 r1.2 in
  let r3 := reloadGames env3 r2.2 in
  let r4 := allGames env4 r3.2 in
  r2.1 = r1.1 /\
  r2.2 = r1.2 /\
  (mCache (self s) = None ->
   settled r1.1 = getGameEntries true env1 /\
   storeQueries r1.2 = S (storeQueries s)) /\
  storeQueries r3.2 = S (storeQueries r2.2) /\
  settled r4.1 = getGameEntries true env3 /\
  pid r4.1 = S (allocated r2.2) /\
  storeQueries r4.2 = storeQueries r3.2 /\
  ((forall c, mCache (self s) = Some c -> (pid c < allocated s)%nat) ->
   pid r4.1 <> pid r1.1).
Proof.
  intros Hinst r1 r2 r3 r4.
  assert (Hr1 : isXboxInstalled (self r1.2) = true /\ mCache (self r1.2) = Some r1.1).
  { subst r1. destruct (mCache (self s)) as [cache|] eqn:Hcache.
    - rewrite (allGames_cached env1 s cache Hinst Hcache). simpl.
      split; assumption.
    - rewrite (allGames_uncached env1 s Hinst Hcache). simpl.
      split; reflexivity. }
  destruct Hr1 as [Hinst1 Hcache1].
  assert (Hr2 : r2 = (r1.1, r1.2))
    by (subst r2; apply allGames_cached; assumption).
  assert (Hr3 : r3.2
                = {| self := {| isXboxInstalled := true;
                                mCache := Some {| pid := S (allocated r1.2);
                                                  settled := getGameEntries true env3 |} |};
                     allocated := S (S (allocated r1.2));
                     storeQueries := S (storeQueries r1.2) |})
    by (subst r3; rewrite Hr2; simpl;
        rewrite (reloadGames_installed env3 r1.2 Hinst1); reflexivity).
  assert (Hr4 : r4 = ({| pid := S (allocated r1.2);
                         settled := getGameEntries true env3 |}, r3.2)).
  { subst r4. rewrite Hr3. apply allGames_cached; reflexivity. }
  rewrite Hr4, Hr3, Hr2. simpl.
  split; [reflexivity |]. split; [reflexivity |].
  split.
  { intros Hnone. subst r1. rewrite (allGames_uncached env1 s Hinst Hnone).
    split; reflexivity. }
  repeat split; try reflexivity.
  - intros Hwf. subst r1.
    destruct (mCache (self s)) as [cache|] eqn:Hcache.
    + rewrite (allGames_cached env1 s cache Hinst Hcache). simpl.
      specialize (Hwf cache eq_refl). lia.
    + rewrite (allGames_uncached env1 s Hinst Hcache). simpl. lia.
Qed.

Lemma C8_allGames_memoized_witness :
  let s := freshSession (construct "win32" exampleEnv) in
  let r1 := allGames exampleEnv s in
  let r2 := allGames brokenEnv r1.2 in
  let r3 := reloadGames brokenEnv r2.2 in
  let r4 := allGames exampleEnv r3.2 in
  r2.1 = r1.1 /\
  r2.2 = r1.2 /\
  (mCache (self s) = None ->
   settled r1.1 = getGameEntries true exampleEnv /\
   storeQueries r1.2 = S (storeQueries s)) /\
  storeQueries r3.2 = S (storeQueries r2.2) /\
  settled r4.1 = getGameEntries true brokenEnv /\
  pid r4.1 = S (allocated r2.2) /\
  storeQueries r4.2 = storeQueries r3.2 /\
  ((forall c, mCache (self s) = Some c -> (pid c < allocated s)%nat) ->
   pid r4.1 <> pid r1.1).
Proof.
  apply (C8_allGames_memoized exampleEnv brokenEnv brokenEnv exampleEnv
           (freshSession (construct "win32" exampleEnv))).
  vm_compute. reflexivity.
Defined.

End Cache.

(** * Further properties of the marker decoder *)

Section DecoderFacts.
Import GamingRoot.

Lemma byteValue_bounds (b : Byte.byte) : 0 <= byteValue b < 256.
Proof.
  unfold byteValue. pose proof (Byte.to_N_bounded b) as Hb. lia.
Qed.

(** The two bytes of a unit do not overlap: the bitwise or is a sum. *)
Lemma lor_shiftl_8 (a b : Z) :
  0 <= a < 256 -> 0 <= b -> Z.lor a (Z.shiftl b 8) = a + 256 * b.
Proof.
  intros Ha Hb.
  assert (Hland : Z.land a (Z.shiftl b 8) = 0).
  { apply Z.bits_inj'. intros n Hn.
    rewrite Z.land_spec, Z.bits_0.
    destruct (Z.lt_ge_cases n 8) as [Hlow | Hhigh].
    - rewrite Z.shiftl_spec_low by lia. apply andb_false_r.
    - assert (Hbit : Z.testbit a n = false).
      { destruct (Z.eq_dec a 0) as [-> | Hnz]; [apply Z.bits_0 |].
        apply Z.bits_above_log2; [lia |].
        assert (Z.log2 a < 8) by (apply Z.log2_lt_pow2; lia).
        lia. }
      rewrite Hbit. reflexivity. }
  rewrite <- Z.lxor_lor by exact Hland.
  rewrite <- Z.add_nocarry_lxor by exact Hland.
  rewrite Z.shiftl_mul_pow2 by lia. lia.
Qed.

Lemma decodeUnits_app (a b : list Byte.byte) (n : nat) :
  length a = (2 * n)%nat ->
  decodeUnits (a ++ b) = decodeUnits a ++ decodeUnits b.
Proof.
  revert a.
  induction n as [|n IH]; intros a Hlen.
  - destruct a; [reflexivity | discriminate].
  - destruct a as [|x [|y rest]]; simpl in Hlen; try lia.
    simpl. f_equal. apply IH. lia.
Qed.

Lemma decodeUnits_range (fileContent : list Byte.byte) (n : nat) :
  length fileContent = (2 * n)%nat ->
  Forall (fun u => 0 <= u < 65536) (decodeUnits fileContent).
Proof.
  revert fileContent.
  induction n as [|n IH]; intros fileContent Hlen.
  - destruct fileContent; [constructor | discriminate].
  - destruct fileContent as [|x [|y rest]]; simpl in Hlen; try lia.
    simpl. constructor; [| apply IH; lia].
    pose proof (byteValue_bounds x). pose proof (byteValue_bounds y).
    rewrite lor_shiftl_8 by lia. lia.
Qed.

Lemma fromCharCode_in_range (units : list Z) :
  Forall (fun u => 0 <= u < 65536) units -> fromCharCode units = units.
Proof.
  unfold fromCharCode.
  induction 1 as [|u units Hu _ IH]; [reflexivity |].
  simpl. rewrite IH, Z.mod_small by exact Hu. reflexivity.
Qed.

Lemma slice_payload {A} (header payload terminator : list A) :
  length header = 4%nat -> length terminator = 1%nat ->
  slice 4 (-1) (header ++ payload ++ terminator) = payload.
Proof.
  intros Hh Ht. unfold slice.
  rewrite !length_app, Hh, Ht.
  replace (4 <? 0) with false by reflexivity.
  replace (-1 <? 0) with true by reflexivity.
  rewrite Z.min_l, Z.max_l by lia.
  replace (Z.to_nat 4) with (length header) by (rewrite Hh; reflexivity).
  rewrite drop_app_length.
  apply take_app_length'. lia.
Qed.

Lemma fromCharCode_apply_cases (h : Host) (units : list Z) :
  fromCharCode_apply h units
  = if Z.of_nat (length units) <=? Z.pos (argumentsLimit h)
    then Normal (fromCharCode units) else Throw RangeError.
Proof. reflexivity. Qed.

(** X1: a marker file that consists of eight header bytes, a payload of
    whole 16-bit units and two final bytes decodes to the volume root
    followed by the units of the payload, as long as the engine accepts
    one argument per unit of the payload in the call of
    [String.fromCharCode]; neither the header nor the final unit takes
    part in the result, and an empty payload gives the volume root itself.
    With a payload of more units than the engine accepts the call throws
    and the decoder resolves to [null]. *)
Theorem marker_payload_decoded (h : Host) (driveRootPath : jsstring)
    (stats : Stats) (header payload terminator : list Byte.byte) (n : nat) :
  statAsync h (driveRootPath ++ str ".GamingRoot") = Resolved stats ->
  isFile stats = true ->
  readFileAsync h (driveRootPath ++ str ".GamingRoot")
    = Resolved (header ++ payload ++ terminator) ->
  length header = 8%nat ->
  length payload = (2 * n)%nat ->
  length terminator = 2%nat ->
  findXboxGamingRootPath h driveRootPath
  = Resolved (if Z.of_nat n <=? Z.pos (argumentsLimit h)
              then Some (driveRootPath ++ decodeUnits payload)
              else None).
Proof.
  intros Hstat Hfile Hread Hh Hp Ht.
  unfold findXboxGamingRootPath, findXboxGamingRootPath_try. cbv zeta.
  rewrite Hstat. simpl. rewrite Hfile. simpl. rewrite Hread. simpl.
  rewrite !length_app, Hh, Hp, Ht.
  replace (Z.of_nat (8 + (2 * n + 2)) mod 2 =? 0) with true
    by (symmetry; apply Z.eqb_eq;
        replace (Z.of_nat (8 + (2 * n + 2))) with ((Z.of_nat n + 5) * 2) by lia;
        apply Z_mod_mult).
  simpl negb. cbv iota.
  rewrite (decodeUnits_app header _ 4) by exact Hh.
  rewrite (decodeUnits_app payload _ n) by exact Hp.
  rewrite !length_app.
  rewrite (length_decodeUnits_even header 4) by exact Hh.
  rewrite (length_decodeUnits_even payload n) by exact Hp.
  rewrite (length_decodeUnits_even terminator 1) by exact Ht.
  unfold CHAR16_PATH_OFFSET.
  replace (Z.of_nat (4 + (n + 1)) <? 4 + 1) with false
    by (symmetry; apply Z.ltb_ge; lia).
  rewrite slice_payload
    by (first [apply (length_decodeUnits_even header 4); exact Hh
              | apply (length_decodeUnits_even terminator 1); exact Ht]).
  rewrite fromCharCode_apply_cases.
  rewrite (length_decodeUnits_even payload n) by exact Hp.
  destruct (Z.of_nat n <=? Z.pos (argumentsLimit h)); [| reflexivity].
  rewrite fromCharCode_in_range by (apply (decodeUnits_range payload n); exact Hp).
  reflexivity.
Qed.

Lemma marker_payload_decoded_witness :
  findXboxGamingRootPath exampleHost (str "C:\")
  = Resolved (Some (str "C:\" ++ decodeUnits (Byte.x42 :: Byte.x00 :: nil))) /\
  findXboxGamingRootPath
    (withMarker exampleHost 1 (str "D:\.GamingRoot")
       (Byte.x52 :: Byte.x47 :: Byte.x42 :: Byte.x58 ::
        Byte.x01 :: Byte.x00 :: Byte.x00 :: Byte.x00 ::
        Byte.x41 :: Byte.x00 :: Byte.x42 :: Byte.x00 ::
        Byte.x00 :: Byte.x00 :: nil))
    (str "D:\")
  = Resolved None.
Proof.
  split.
  - apply (marker_payload_decoded exampleHost (str "C:\") {| isFile := true |}
             (Byte.x52 :: Byte.x47 :: Byte.x42 :: Byte.x58 ::
              Byte.x01 :: Byte.x00 :: Byte.x00 :: Byte.x00 :: nil)
             (Byte.x42 :: Byte.x00 :: nil)
             (Byte.x00 :: Byte.x00 :: nil) 1); reflexivity.
  - apply (marker_payload_decoded
             (withMarker exampleHost 1 (str "D:\.GamingRoot")
                (Byte.x52 :: Byte.x47 :: Byte.x42 :: Byte.x58 ::
                 Byte.x01 :: Byte.x00 :: Byte.x00 :: Byte.x00 ::
                 Byte.x41 :: Byte.x00 :: Byte.x42 :: Byte.x00 ::
                 Byte.x00 :: Byte.x00 :: nil))
             (str "D:\") {| isFile := true |}
             (Byte.x52 :: Byte.x47 :: Byte.x42 :: Byte.x58 ::
              Byte.x01 :: Byte.x00 :: Byte.x00 :: Byte.x00 :: nil)
             (Byte.x41 :: Byte.x00 :: Byte.x42 :: Byte.x00 :: nil)
             (Byte.x00 :: Byte.x00 :: nil) 2); reflexivity.
Defined.

(** X2: on a byte sequence of even length the decoding loop is the
    inverse of the little-endian encoding: there is one unit for every
    two bytes, every unit is a 16-bit value, and writing each unit back as
    its low byte followed by its high byte gives the original bytes. *)
Theorem decodeUnits_round_trip (fileContent : list Byte.byte) (n : nat) :
  length fileContent = (2 * n)%nat ->
  length (decodeUnits fileContent) = n /\
  Forall (fun u => 0 <= u < 65536) (decodeUnits fileContent) /\
  flat_map (fun u => u mod 256 :: u / 256 :: nil) (decodeUnits fileContent)
  = map byteValue fileContent.
Proof.
  intros Hlen.
  split; [apply length_decodeUnits_even; exact Hlen |].
  split; [apply (decodeUnits_range fileContent n); exact Hlen |].
  revert fileContent Hlen.
  induction n as [|n IH]; intros fileContent Hlen.
  - destruct fileContent; [reflexivity | discriminate].
  - destruct fileContent as [|x [|y rest]]; simpl in Hlen; try lia.
    simpl. pose proof (byteValue_bounds x). pose proof (byteValue_bounds y).
    rewrite lor_shiftl_8 by lia.
    rewrite IH by lia.
    f_equal; [| f_equal].
    + symmetry. apply (Z.mod_unique _ _ (byteValue y)); [left; lia | lia].
    + symmetry. apply (Z.div_unique _ _ _ (byteValue x)); [left; lia | lia].
Qed.

Lemma decodeUnits_round_trip_witness :
  length (decodeUnits markerA) = 6%nat /\
  Forall (fun u => 0 <= u < 65536) (decodeUnits markerA) /\
  flat_map (fun u => u mod 256 :: u / 256 :: nil) (decodeUnits markerA)
  = map byteValue markerA.
Proof.
  apply (decodeUnits_round_trip markerA 6). reflexivity.
Defined.

End DecoderFacts.

(** * Further properties of the manifest scan *)

Section ScanFacts.
Import GamingRoot.

Variable h : Host.

Lemma scanDrives_omap (drives gamingRootPaths : list jsstring) :
  scanDrives h drives gamingRootPaths
  = Normal (gamingRootPaths ++ omap (markerRoot h) drives).
Proof.
  revert gamingRootPaths.
  induction drives as [|drive rest IH]; intros gamingRootPaths.
  - simpl. rewrite app_nil_r. reflexivity.
  - simpl. unfold markerRoot at 1.
    destruct (findXboxGamingRootPath_resolves h drive) as [r Hr].
    rewrite Hr. simpl. rewrite IH.
    destruct r as [p|]; [| reflexivity].
    rewrite <- app_assoc. reflexivity.
Qed.

Lemma omap_all_None {A B} (f : A -> option B) (l : list A) :
  (forall x, In x l -> f x = None) -> omap f l = nil.
Proof.
  induction l as [|x rest IH]; intros Hall; [reflexivity |].
  simpl. rewrite (Hall x) by (left; reflexivity). simpl.
  apply IH. intros y Hy. apply Hall. right. exact Hy.
Qed.

Lemma findManifests_inv (rootPath : jsstring) (recurse : bool)
    (manifests : list jsstring) (x : jsstring) :
  findManifests h rootPath recurse = Resolved manifests ->
  In x manifests ->
  path_basename h x = APP_MANIFEST h /\
  exists entries, walk h rootPath recurse = Resolved entries /\ In x entries.
Proof.
  unfold findManifests. intros Hfind Hin.
  destruct (walk h rootPath recurse) as [entries|e]; [| discriminate].
  simpl in Hfind. injection Hfind as <-.
  apply list_elem_of_In, list_elem_of_filter in Hin as [Hbase Hin].
  split; [exact Hbase |].
  exists entries. split; [reflexivity | apply list_elem_of_In; exact Hin].
Qed.

Lemma findManifests_of_walk (rootPath : jsstring) (recurse : bool)
    (entries : list jsstring) :
  walk h rootPath recurse = Resolved entries ->
  exists manifests, findManifests h rootPath recurse = Resolved manifests.
Proof.
  intros Hwalk. unfold findManifests. rewrite Hwalk. eexists. reflexivity.
Qed.

(** Where an entry of the map comes from, after one round of the loop. *)
Lemma recordManifest_lookup (x id p : jsstring) (m : gmap jsstring jsstring) :
  recordManifest h x m !! id = Some p ->
  m !! id = Some p \/
  (manifestIdentity h x = Some id /\ id <> nil /\ p = path_dirname h x).
Proof.
  unfold recordManifest, manifestIdentity.
  destruct (getAppManifestData h (path_dirname h x)) as [data|e]; [| auto].
  destruct (identityName data) as [[|c cs]|]; auto.
  unfold assign.
  destruct (jsstring_eqb (c :: cs) (str "__proto__")); [auto |].
  intros Hlook.
  destruct (decide (c :: cs = id)) as [<- | Hne].
  - rewrite lookup_insert_eq in Hlook. injection Hlook as <-.
    right. split; [reflexivity | split; [discriminate | reflexivity]].
  - rewrite lookup_insert_ne in Hlook by exact Hne. left. exact Hlook.
Qed.

Lemma fold_record_lookup (manifests : list jsstring) (id p : jsstring)
    (m : gmap jsstring jsstring) :
  fold_left (fun m x => recordManifest h x m) manifests m !! id = Some p ->
  m !! id = Some p \/
  exists x, In x manifests /\ manifestIdentity h x = Some id /\
            id <> nil /\ p = path_dirname h x.
Proof.
  revert m.
  induction manifests as [|x rest IH]; intros m Hlook; [left; exact Hlook |].
  simpl in Hlook. apply IH in Hlook as [Hlook | (y & Hy & Hrest)].
  - apply recordManifest_lookup in Hlook as [Hlook | Hthis]; [left; exact Hlook |].
    right. exists x. split; [left; reflexivity | exact Hthis].
  - right. exists y. split; [right; exact Hy | exact Hrest].
Qed.

Lemma scanRoots_lookup (roots : list jsstring) (id p : jsstring)
    (m m' : gmap jsstring jsstring) :
  scanRoots h roots m = Normal m' ->
  m' !! id = Some p ->
  m !! id = Some p \/
  exists root manifests x,
    In root roots /\ findManifests h root true = Resolved manifests /\
    In x manifests /\ manifestIdentity h x = Some id /\
    id <> nil /\ p = path_dirname h x.
Proof.
  revert m.
  induction roots as [|r rest IH]; intros m Hscan Hlook.
  - injection Hscan as <-. left. exact Hlook.
  - simpl in Hscan.
    destruct (findManifests h r true) as [ms|e] eqn:Hms; [| discriminate].
    simpl in Hscan. rewrite scanManifests_fold in Hscan. simpl in Hscan.
    destruct (IH _ Hscan Hlook)
      as [Hfold | (root & manifests & x & Hroot & Hrest)].
    + apply fold_record_lookup in Hfold as [Hm | (x & Hx & Hrest)];
        [left; exact Hm |].
      right. exists r, ms, x.
      split; [left; reflexivity | split; [exact Hms | split; assumption]].
    + right. exists root, manifests, x. split; [right; exact Hroot | exact Hrest].
Qed.

(** An identity recorded once stays in the map. *)
Lemma recordManifest_keeps (x id : jsstring) (m : gmap jsstring jsstring) :
  is_Some (m !! id) -> is_Some (recordManifest h x m !! id).
Proof.
  intros Hsome. unfold recordManifest.
  destruct (getAppManifestData h (path_dirname h x)) as [data|e]; [| exact Hsome].
  destruct (identityName data) as [[|c cs]|]; try exact Hsome.
  unfold assign.
  destruct (jsstring_eqb (c :: cs) (str "__proto__")); [exact Hsome |].
  destruct (decide (c :: cs = id)) as [<- | Hne].
  - rewrite lookup_insert_eq. eauto.
  - rewrite lookup_insert_ne by exact Hne. exact Hsome.
Qed.

Lemma fold_record_keeps (manifests : list jsstring) (id : jsstring)
    (m : gmap jsstring jsstring) :
  is_Some (m !! id) ->
  is_Some (fold_left (fun m x => recordManifest h x m) manifests m !! id).
Proof.
  revert m.
  induction manifests as [|x rest IH]; intros m Hsome; [exact Hsome |].
  simpl. apply IH, recordManifest_keeps, Hsome.
Qed.

Lemma scanRoots_keeps (roots : list jsstring) (id : jsstring)
    (m m' : gmap jsstring jsstring) :
  scanRoots h roots m = Normal m' ->
  is_Some (m !! id) -> is_Some (m' !! id).
Proof.
  revert m.
  induction roots as [|r rest IH]; intros m Hscan Hsome.
  - injection Hscan as <-. exact Hsome.
  - simpl in Hscan.
    destruct (findManifests h r true) as [ms|e]; [| discriminate].
    simpl in Hscan. rewrite scanManifests_fold in Hscan. simpl in Hscan.
    apply (IH _ Hscan). apply fold_record_keeps, Hsome.
Qed.

Lemma scanRoots_records (roots manifests : list jsstring)
    (root x id : jsstring) (m m' : gmap jsstring jsstring) :
  scanRoots h roots m = Normal m' ->
  In root roots ->
  findManifests h root true = Resolved manifests ->
  In x manifests ->
  manifestIdentity h x = Some id ->
  id <> nil -> id <> str "__proto__" ->
  is_Some (m' !! id).
Proof.
  revert m.
  induction roots as [|r rest IH];
    intros m Hscan Hroot Hms Hx Hid Hne Hproto; [destruct Hroot |].
  simpl in Hscan.
  destruct (findManifests h r true) as [ms|e] eqn:Hr; [| discriminate].
  simpl in Hscan. rewrite scanManifests_fold in Hscan. simpl in Hscan.
  destruct Hroot as [-> | Hroot].
  - rewrite Hr in Hms. injection Hms as ->.
    apply (scanRoots_keeps _ _ _ _ Hscan).
    apply in_split in Hx as (ms1 & ms2 & ->).
    rewrite fold_left_app. simpl. apply fold_record_keeps.
    unfold manifestIdentity in Hid.
    destruct (getAppManifestData h (path_dirname h x)) as [data|e] eqn:Hd;
      [| discriminate].
    rewrite (recordManifest_this h id x data _ Hd Hid Hne Hproto). eauto.
  - apply (IH _ Hscan Hroot Hms Hx Hid Hne Hproto).
Qed.

End ScanFacts.

Section ScanProperties.
Import GamingRoot.

(** X3: [findXboxGamingRootPaths] scans the configured search paths, or
    the drive list when no search path is configured, and returns the
    decoded marker of every drive that has one, in the order of the
    drives; a drive without a usable marker is skipped, and only a failing
    drive list makes the promise reject. *)
Theorem gaming_roots_in_drive_order (h : Host) :
  findXboxGamingRootPaths h
  = match searchPaths h with
    | nil =>
        match getDriveList h with
        | Resolved drives => Resolved (omap (markerRoot h) drives)
        | Rejected e => Rejected e
        end
    | drives => Resolved (omap (markerRoot h) drives)
    end.
Proof.
  unfold findXboxGamingRootPaths.
  destruct (searchPaths h) as [|d ds].
  - destruct (getDriveList h) as [drives|e]; [| reflexivity].
    simpl. rewrite scanDrives_omap. reflexivity.
  - cbn [bindC]. rewrite scanDrives_omap. reflexivity.
Qed.

(** X4: every entry of the map that [findInstalledGames] returns comes
    from a manifest: its key is the non-empty identity name read from a
    file that the walk of some gaming root reported and whose base name is
    the manifest file name, and its value is the directory of that
    file. *)
Theorem installed_games_sound (h : Host) (m : gmap jsstring jsstring)
    (id p : jsstring) :
  findInstalledGames h = Resolved m ->
  m !! id = Some p ->
  exists roots root entries manifest,
    findXboxGamingRootPaths h = Resolved roots /\
    In root roots /\
    walk h root true = Resolved entries /\
    In manifest entries /\
    path_basename h manifest = APP_MANIFEST h /\
    manifestIdentity h manifest = Some id /\
    id <> nil /\
    p = path_dirname h manifest.
Proof.
  unfold findInstalledGames. intros Hfind Hlook.
  destruct (findXboxGamingRootPaths h) as [roots|e]; [| discriminate].
  simpl in Hfind.
  destruct (scanRoots h roots ∅) as [m'|e] eqn:Hscan; [| discriminate].
  injection Hfind as ->.
  destruct (scanRoots_lookup h roots id p ∅ m Hscan Hlook)
    as [Hempty | (root & manifests & x & Hroot & Hms & Hx & Hid & Hne & Hp)].
  - rewrite lookup_empty in Hempty. discriminate.
  - destruct (findManifests_inv h root true manifests x Hms Hx)
      as (Hbase & entries & Hwalk & Hin).
    exists roots, root, entries, x. repeat split; assumption.
Qed.

Lemma installed_games_sound_witness :
  exists roots root entries manifest,
    findXboxGamingRootPaths exampleHost = Resolved roots /\
    In root roots /\
    walk exampleHost root true = Resolved entries /\
    In manifest entries /\
    path_basename exampleHost manifest = APP_MANIFEST exampleHost /\
    manifestIdentity exampleHost manifest = Some (str "Bar") /\
    str "Bar" <> nil /\
    str "D:\A\Bar" = path_dirname exampleHost manifest.
Proof.
  apply (installed_games_sound exampleHost
           (<[str "Bar" := str "D:\A\Bar"]> (<[str "Foo" := str "D:\A\Foo"]> ∅))).
  - vm_compute. reflexivity.
  - vm_compute. reflexivity.
Defined.

(** X5: every manifest that the scan finds under a gaming root and whose
    identity name is a non-empty string other than [__proto__] has its
    identity among the keys of the returned map. *)
Theorem installed_games_complete (h : Host) (m : gmap jsstring jsstring)
    (roots manifests : list jsstring) (root manifest id : jsstring) :
  findInstalledGames h = Resolved m ->
  findXboxGamingRootPaths h = Resolved roots ->
  In root roots ->
  findManifests h root true = Resolved manifests ->
  In manifest manifests ->
  manifestIdentity h manifest = Some id ->
  id <> nil -> id <> str "__proto__" ->
  exists p, m !! id = Some p.
Proof.
  unfold findInstalledGames.
  intros Hfind Hroots Hroot Hms Hx Hid Hne Hproto.
  rewrite Hroots in Hfind. simpl in Hfind.
  destruct (scanRoots h roots ∅) as [m'|e] eqn:Hscan; [| discriminate].
  injection Hfind as ->.
  apply (scanRoots_records h roots manifests root manifest id ∅ m); assumption.
Qed.

Lemma installed_games_complete_witness :
  exists p,
    (<[str "Bar" := str "D:\A\Bar"]> (<[str "Foo" := str "D:\A\Foo"]> ∅)
       : gmap jsstring jsstring) !! str "Foo" = Some p.
Proof.
  apply (installed_games_complete exampleHost _
           (str "C:\B" :: str "D:\A" :: nil)
           (str "C:\B\Foo\appxmanifest.xml" :: nil)
           (str "C:\B") (str "C:\B\Foo\appxmanifest.xml") (str "Foo")).
  - vm_compute. reflexivity.
  - vm_compute. reflexivity.
  - left. reflexivity.
  - vm_compute. reflexivity.
  - left. reflexivity.
  - vm_compute. reflexivity.
  - discriminate.
  - discriminate.
Defined.

(** X6: once the gaming roots are known and the walk of each of them
    succeeds, [findInstalledGames] resolves, whatever reading and parsing
    the manifests does: a manifest that cannot be read or parsed never
    fails the discovery. *)
Theorem installed_games_resolves (h : Host) (roots : list jsstring) :
  findXboxGamingRootPaths h = Resolved roots ->
  (forall r, In r roots -> exists entries, walk h r true = Resolved entries) ->
  exists m, findInstalledGames h = Resolved m.
Proof.
  intros Hroots Hwalk. unfold findInstalledGames. rewrite Hroots. simpl.
  destruct (scanRoots_normal h roots ∅) as [m Hm].
  { intros r Hr. destruct (Hwalk r Hr) as [entries He].
    apply (findManifests_of_walk h r true entries He). }
  exists m. rewrite Hm. reflexivity.
Qed.

Lemma installed_games_resolves_witness :
  exists m, findInstalledGames exampleHost = Resolved m.
Proof.
  apply (installed_games_resolves exampleHost (str "C:\B" :: str "D:\A" :: nil)).
  - vm_compute. reflexivity.
  - intros r [<- | [<- | []]]; eexists; vm_compute; reflexivity.
Defined.

(** X7: the walks are not isolated from one another: when the walk of a
    gaming root rejects after the walks of the roots before it succeeded,
    [findInstalledGames] rejects with that error and the titles already
    found are lost. *)
Theorem installed_games_walk_failure (h : Host)
    (before after : list jsstring) (root : jsstring) (e : JsError jsstring) :
  findXboxGamingRootPaths h = Resolved (before ++ root :: after) ->
  (forall r, In r before -> exists entries, walk h r true = Resolved entries) ->
  walk h root true = Rejected e ->
  findInstalledGames h = Rejected e.
Proof.
  intros Hroots Hwalk Hfail. unfold findInstalledGames. rewrite Hroots. simpl.
  rewrite scanRoots_app.
  destruct (scanRoots_normal h before ∅) as [m Hm].
  { intros r Hr. destruct (Hwalk r Hr) as [entries He].
    apply (findManifests_of_walk h r true entries He). }
  rewrite Hm. simpl. unfold findManifests. rewrite Hfail. reflexivity.
Qed.

Lemma installed_games_walk_failure_witness :
  findInstalledGames (withFailingWalk exampleHost (str "D:\A") "EPERM")
  = Rejected (ErrnoError "EPERM").
Proof.
  apply (installed_games_walk_failure
           (withFailingWalk exampleHost (str "D:\A") "EPERM")
           (str "C:\B" :: nil) nil (str "D:\A")).
  - vm_compute. reflexivity.
  - intros r [<- | []]. eexists. vm_compute. reflexivity.
  - vm_compute. reflexivity.
Defined.

(** X8: when none of the drives scanned has a usable marker, the result
    is the empty map, and no walk is attempted. *)
Theorem no_marker_no_games (h : Host) (drives : list jsstring) :
  (searchPaths h = drives /\ drives <> nil) \/
  (searchPaths h = nil /\ getDriveList h = Resolved drives) ->
  (forall d, In d drives -> markerRoot h d = None) ->
  findXboxGamingRootPaths h = Resolved nil /\
  findInstalledGames h = Resolved ∅.
Proof.
  intros Hdrives Hnone.
  assert (Hroots : findXboxGamingRootPaths h = Resolved nil).
  { unfold findXboxGamingRootPaths.
    destruct Hdrives as [[Hpaths Hne] | [Hpaths Hlist]]; rewrite Hpaths.
    - destruct drives as [|d ds]; [contradiction |].
      cbn [bindC]. rewrite scanDrives_omap.
      rewrite omap_all_None by exact Hnone. reflexivity.
    - rewrite Hlist. simpl. rewrite scanDrives_omap.
      rewrite omap_all_None by exact Hnone. reflexivity. }
  split; [exact Hroots |].
  unfold findInstalledGames. rewrite Hroots. reflexivity.
Qed.

Lemma no_marker_no_games_witness :
  findXboxGamingRootPaths (withSearchPaths exampleHost (str "E:\" :: str "F:\" :: nil))
    = Resolved nil /\
  findInstalledGames (withSearchPaths exampleHost (str "E:\" :: str "F:\" :: nil))
    = Resolved ∅.
Proof.
  apply (no_marker_no_games
           (withSearchPaths exampleHost (str "E:\" :: str "F:\" :: nil))
           (str "E:\" :: str "F:\" :: nil)).
  - left. split; [reflexivity | discriminate].
  - intros d [<- | [<- | []]]; vm_compute; reflexivity.
Defined.

End ScanProperties.

(** * Further properties of the package enumerator *)

Section StringFacts.
Import Launcher.


Lemma indexOf_append_here (ch : ascii) (a r : string) :
  indexOf ch a = -1 ->
  indexOf ch (a +:+ String ch r) = strlen a.
Proof.
  unfold strlen.
  induction a as [|c a IH]; intros Hnone.
  - simpl. rewrite Ascii.eqb_refl. reflexivity.
  - simpl in Hnone. simpl String.append. simpl indexOf.
    destruct (Ascii.eqb c ch); [discriminate |].
    pose proof (indexOf_lower_bound ch a) as Hlow.
    destruct (Z.ltb_spec (indexOf ch a) 0) as [Hneg | Hpos]; [| lia].
    rewrite IH by lia.
    destruct (Z.ltb_spec (Z.of_nat (String.length a)) 0); simpl String.length; lia.
Qed.

Lemma lastIndexOf_lower_bound (ch : ascii) (s : string) : -1 <= lastIndexOf ch s.
Proof.
  induction s as [|c rest IH]; simpl; [lia |].
  destruct (Z.leb_spec 0 (lastIndexOf ch rest)); [lia |].
  destruct (Ascii.eqb c ch); lia.
Qed.

Lemma lastIndexOf_absent (ch : ascii) (s : string) :
  indexOf ch s = -1 -> lastIndexOf ch s = -1.
Proof.
  induction s as [|c rest IH]; intros Hnone; [reflexivity |].
  simpl in *.
  destruct (Ascii.eqb c ch); [discriminate |].
  pose proof (indexOf_lower_bound ch rest) as Hlow.
  destruct (Z.ltb_spec (indexOf ch rest) 0) as [Hneg | Hpos]; [| lia].
  rewrite IH by lia. reflexivity.
Qed.

Lemma lastIndexOf_append_here (ch : ascii) (r p : string) :
  indexOf ch p = -1 ->
  lastIndexOf ch (r +:+ String ch p) = strlen r.
Proof.
  unfold strlen. intros Hnone.
  induction r as [|c r IH].
  - simpl. rewrite (lastIndexOf_absent ch p Hnone). simpl.
    rewrite Ascii.eqb_refl. reflexivity.
  - simpl String.append. simpl lastIndexOf. rewrite IH.
    destruct (Z.leb_spec 0 (Z.of_nat (String.length r)));
      simpl String.length; lia.
Qed.

Lemma substring_prefix (a b : string) :
  String.substring 0 (String.length a) (a +:+ b) = a.
Proof.
  induction a as [|c a IH]; simpl.
  - destruct b; reflexivity.
  - rewrite IH. reflexivity.
Qed.

Lemma substring_whole (s : string) :
  String.substring 0 (String.length s) s = s.
Proof.
  induction s as [|c s IH]; simpl; [reflexivity | rewrite IH; reflexivity].
Qed.

Lemma substring_suffix (a b : string) :
  String.substring (String.length a) (String.length b) (a +:+ b) = b.
Proof.
  induction a as [|c a IH]; simpl; [apply substring_whole | exact IH].
Qed.

Lemma substring_after (ch : ascii) (r p : string) :
  String.substring (S (String.length r)) (String.length p) (r +:+ String ch p) = p.
Proof.
  induction r as [|c r IH]; simpl; [apply substring_whole | exact IH].
Qed.

Lemma length_append (a b : string) :
  String.length (a +:+ b) = (String.length a + String.length b)%nat.
Proof.
  induction a as [|c a IH]; simpl; [reflexivity | rewrite IH; reflexivity].
Qed.

(** The app id of a key: what precedes its first underscore. *)
Lemma appid_of_key (a r : string) :
  indexOf "_" a = -1 ->
  substring (a +:+ "_" +:+ r) 0 (indexOf "_" (a +:+ "_" +:+ r)) = a.
Proof.
  intros Hnone. change ("_" +:+ r) with (String "_" r).
  rewrite (indexOf_append_here "_" a r Hnone).
  unfold substring, strlen. rewrite length_append. simpl String.length.
  rewrite !Z.max_l by lia.
  rewrite Z.min_l by lia. rewrite (Z.min_l (Z.of_nat (String.length a))) by lia.
  rewrite Z.min_l, Z.max_r by lia.
  rewrite Z.sub_0_r, Nat2Z.id. simpl Z.to_nat.
  apply substring_prefix.
Qed.

(** The publisher id of a key: what follows its last underscore. *)
Lemma publisherId_of_key (r p : string) :
  indexOf "_" p = -1 ->
  substr (r +:+ "_" +:+ p) (lastIndexOf "_" (r +:+ "_" +:+ p) + 1) = p.
Proof.
  intros Hnone. change ("_" +:+ p) with (String "_" p).
  rewrite (lastIndexOf_append_here "_" r p Hnone).
  unfold substr, strlen. rewrite length_append. simpl String.length.
  destruct (Z.ltb_spec (Z.of_nat (String.length r) + 1) 0); [lia |].
  rewrite Z.min_l by lia.
  replace (Z.to_nat (Z.of_nat (String.length r) + 1))
    with (S (String.length r)) by lia.
  replace (Z.to_nat (Z.of_nat (String.length r + S (String.length p))
                     - (Z.of_nat (String.length r) + 1)))
    with (String.length p) by lia.
  apply substring_after.
Qed.

(** A key without an underscore: [substring(0, -1)] is empty and
    [substr(0)] is the whole key. *)
Lemma ids_of_plain_key (k : string) :
  indexOf "_" k = -1 ->
  substring k 0 (indexOf "_" k) = EmptyString /\
  substr k (lastIndexOf "_" k + 1) = k.
Proof.
  intros Hnone. rewrite (lastIndexOf_absent "_" k Hnone), Hnone.
  split.
  - unfold substring, strlen. simpl Z.max.
    rewrite !Z.min_l by lia. simpl. destruct k; reflexivity.
  - unfold substr, strlen. simpl.
    rewrite Z.min_l by lia. simpl. rewrite Z.sub_0_r, Nat2Z.id.
    apply substring_whole.
Qed.






End StringFacts.

Section EnumeratorFacts.
Import Launcher Api.

Variable env : Env.

Lemma mapKeys_inv (keys : list string) (entries : list (option IXboxEntry))
    (e : IXboxEntry) :
  mapKeys env keys = Normal entries ->
  In e (omap id entries) ->
  exists k, In k keys /\ gameEntry env k = Normal (Some e).
Proof.
  revert entries.
  induction keys as [|k rest IH]; intros entries Hmap Hin.
  - injection Hmap as <-. destruct Hin.
  - simpl in Hmap.
    destruct (gameEntry env k) as [r|err] eqn:Hk; [| discriminate].
    simpl in Hmap.
    destruct (mapKeys env rest) as [l|err]; [| discriminate].
    injection Hmap as <-.
    assert (Hrest : In e (omap id l) ->
                    exists k', In k' (k :: rest) /\ gameEntry env k' = Normal (Some e)).
    { intros Hl. destruct (IH l eq_refl Hl) as (k' & Hk' & He).
      exists k'. split; [right; exact Hk' | exact He]. }
    destruct r as [e'|]; simpl in Hin; [| exact (Hrest Hin)].
    destruct Hin as [<- | Hin]; [| exact (Hrest Hin)].
    exists k. split; [left; reflexivity | exact Hk].
Qed.

Lemma gameEntry_dropped (k : string) :
  hasDisplayName env k = false -> gameEntry env k = Normal None.
Proof.
  unfold hasDisplayName. intros Hno.
  pose proof (gameEntry_cases env k) as Hc.
  destruct (RegGetValue env HKEY_CLASSES_ROOT (REPOSITORY_PATH +:+ "\" +:+ k)
                        "DisplayName"); [discriminate | exact Hc].
Qed.

Lemma gameEntry_kept (k : string) (r : option IXboxEntry) :
  hasDisplayName env k = true -> gameEntry env k = Normal r ->
  exists e, r = Some e.
Proof.
  unfold hasDisplayName. intros Hyes Hr.
  pose proof (gameEntry_cases env k) as Hc.
  destruct (RegGetValue env HKEY_CLASSES_ROOT (REPOSITORY_PATH +:+ "\" +:+ k)
                        "DisplayName") as [d|err]; [| discriminate].
  destruct (value d) as [s|n|b|l|]; try congruence.
  destruct (RegGetValue env HKEY_CLASSES_ROOT (REPOSITORY_PATH +:+ "\" +:+ k)
                        "PackageRootFolder").
  - destruct Hc as (e & He & _). rewrite He in Hr. injection Hr as <-. eauto.
  - rewrite Hc in Hr. discriminate.
Qed.

Lemma mapKeys_in_order (keys : list string) :
  (forall k, In k keys -> exists r, gameEntry env k = Normal r) ->
  exists entries,
    mapKeys env keys = Normal entries /\
    Forall2 (fun k e => gameEntry env k = Normal (Some e))
            (List.filter (hasDisplayName env) keys) (omap id entries).
Proof.
  induction keys as [|k rest IH]; intros Hall.
  - exists nil. split; [reflexivity | constructor].
  - destruct (Hall k (or_introl eq_refl)) as [r Hr].
    destruct IH as (entries & Hmap & Hord).
    { intros k' Hk'. apply Hall. right. exact Hk'. }
    exists (r :: entries). split.
    + simpl. rewrite Hr. simpl. rewrite Hmap. reflexivity.
    + simpl. destruct (hasDisplayName env k) eqn:Hd.
      * destruct (gameEntry_kept k r Hd Hr) as [e ->]. simpl.
        constructor; [exact Hr | exact Hord].
      * rewrite (gameEntry_dropped k Hd) in Hr. injection Hr as <-.
        simpl. exact Hord.
Qed.

Lemma mapKeys_throw (before after : list string) (k : string) (e : Err) :
  (forall k', In k' before -> exists r, gameEntry env k' = Normal r) ->
  gameEntry env k = Throw e ->
  mapKeys env (before ++ k :: after) = Throw e.
Proof.
  intros Hbefore Hk.
  induction before as [|k' rest IH].
  - simpl. rewrite Hk. reflexivity.
  - destruct (Hbefore k' (or_introl eq_refl)) as [r Hr].
    simpl. rewrite Hr. simpl. rewrite IH; [reflexivity |].
    intros k'' Hin. apply Hbefore. right. exact Hin.
Qed.

(** What the reads of one candidate decide about its callback. *)
Lemma gameEntry_normal_of_reads (k : string) :
  (forall d, RegGetValue env HKEY_CLASSES_ROOT (REPOSITORY_PATH +:+ "\" +:+ k)
                         "DisplayName" = Normal d ->
     (exists s, value d = VString s) /\
     exists r, RegGetValue env HKEY_CLASSES_ROOT (REPOSITORY_PATH +:+ "\" +:+ k)
                           "PackageRootFolder" = Normal r) ->
  exists r, gameEntry env k = Normal r.
Proof.
  intros Hreads. pose proof (gameEntry_cases env k) as Hc.
  destruct (RegGetValue env HKEY_CLASSES_ROOT (REPOSITORY_PATH +:+ "\" +:+ k)
                        "DisplayName") as [d|err]; [| eauto].
  destruct (Hreads d eq_refl) as [[s Hs] [r Hr]]. rewrite Hs, Hr in Hc.
  destruct Hc as (e & He & _). eauto.
Qed.

Lemma notIgnored_spec (k : KeyEntry) :
  notIgnored env IGNORABLE k = true ->
  forall ign, In ign IGNORABLE ->
              startsWith (toLowerCase env (key k)) ign = false.
Proof.
  unfold notIgnored. intros Hnot ign Hin.
  destruct (List.find (fun ign => startsWith (toLowerCase env (key k)) ign)
                      IGNORABLE) eqn:Hfind; [discriminate |].
  exact (find_none _ _ Hfind ign Hin).
Qed.

End EnumeratorFacts.

Section EnumeratorProperties.
Import Launcher Api.

(** X9: when the repository opens and every candidate with a
    [DisplayName] has a string for it and a [PackageRootFolder] that can
    be fetched, [getGameEntries] resolves to one entry per candidate with
    a [DisplayName], in the order in which the registry enumerates the
    keys; the candidates without a [DisplayName] are left out and the
    others are not affected. *)
Theorem enumeration_in_key_order (env : Env) (hkey : HKey) :
  WithRegOpen env HKEY_CLASSES_ROOT REPOSITORY_PATH = Normal hkey ->
  (forall k d, In k (candidates env hkey) ->
     RegGetValue env HKEY_CLASSES_ROOT (REPOSITORY_PATH +:+ "\" +:+ k) "DisplayName"
       = Normal d ->
     (exists s, value d = VString s) /\
     exists r, RegGetValue env HKEY_CLASSES_ROOT (REPOSITORY_PATH +:+ "\" +:+ k)
                 "PackageRootFolder" = Normal r) ->
  exists entries,
    getGameEntries true env = Resolved entries /\
    Forall2 (fun k e => gameEntry env k = Normal (Some e))
            (List.filter (hasDisplayName env) (candidates env hkey)) entries.
Proof.
  intros Hroot Hreads.
  destruct (mapKeys_in_order env (candidates env hkey)) as (entries & Hmap & Hord).
  { intros k Hk. apply gameEntry_normal_of_reads. intros d Hd.
    exact (Hreads k d Hk Hd). }
  exists (omap id entries). split; [| exact Hord].
  unfold getGameEntries. simpl. rewrite Hroot. simpl.
  fold (candidates env hkey). rewrite Hmap. reflexivity.
Qed.

(** X10: when the [PackageRootFolder] of a candidate whose [DisplayName]
    is a string cannot be fetched, and the callbacks of the candidates
    enumerated before it complete (each of them has no [DisplayName], or a
    string for it and a [PackageRootFolder]), the promise of
    [getGameEntries] is rejected with the error of that fetch: no entry is
    returned. *)
Theorem enumeration_rejected_by_root_folder (env : Env) (hkey : HKey)
    (before after : list string) (k s : string) (d : ValueEntry) (e : Err) :
  WithRegOpen env HKEY_CLASSES_ROOT REPOSITORY_PATH = Normal hkey ->
  candidates env hkey = before ++ k :: after ->
  (forall k' d', In k' before ->
     RegGetValue env HKEY_CLASSES_ROOT (REPOSITORY_PATH +:+ "\" +:+ k') "DisplayName"
       = Normal d' ->
     (exists s', value d' = VString s') /\
     exists r, RegGetValue env HKEY_CLASSES_ROOT (REPOSITORY_PATH +:+ "\" +:+ k')
                 "PackageRootFolder" = Normal r) ->
  RegGetValue env HKEY_CLASSES_ROOT (REPOSITORY_PATH +:+ "\" +:+ k) "DisplayName"
    = Normal d ->
  value d = VString s ->
  RegGetValue env HKEY_CLASSES_ROOT (REPOSITORY_PATH +:+ "\" +:+ k) "PackageRootFolder"
    = Throw e ->
  getGameEntries true env = Rejected e.
Proof.
  intros Hroot Hkeys Hbefore Hname Hs Hfolder.
  unfold getGameEntries. simpl. rewrite Hroot. simpl.
  fold (candidates env hkey). rewrite Hkeys.
  rewrite (mapKeys_throw env before after k e); [reflexivity | |].
  - intros k' Hk'. apply gameEntry_normal_of_reads. intros d' Hd'.
    exact (Hbefore k' d' Hk' Hd').
  - pose proof (gameEntry_cases env k) as Hc.
    rewrite Hname, Hs, Hfolder in Hc. exact Hc.
Qed.

(** X11: every entry that [getGameEntries] returns was built from a child
    key of the repository whose lower-cased name starts with none of the
    patterns of [IGNORABLE], and carries the store id xbox. *)
Theorem entries_from_unignored_keys (env : Env) (entries : list IXboxEntry)
    (e : IXboxEntry) :
  getGameEntries true env = Resolved entries ->
  In e entries ->
  gameStoreId e = "xbox" /\
  exists hkey k,
    WithRegOpen env HKEY_CLASSES_ROOT REPOSITORY_PATH = Normal hkey /\
    In k (RegEnumKeys hkey) /\
    (forall ign, In ign IGNORABLE ->
                 startsWith (toLowerCase env (key k)) ign = false) /\
    gameEntry env (key k) = Normal (Some e).
Proof.
  unfold getGameEntries. simpl. intros Hget Hin.
  destruct (WithRegOpen env HKEY_CLASSES_ROOT REPOSITORY_PATH) as [hkey|err];
    [| discriminate].
  simpl in Hget.
  destruct (mapKeys env _) as [l|err] eqn:Hmap; [| discriminate].
  simpl in Hget. injection Hget as <-.
  destruct (mapKeys_inv env _ l e Hmap Hin) as (name & Hname & He).
  apply in_map_iff in Hname as (k & <- & Hk).
  apply filter_In in Hk as [Hk Hnot].
  split.
  - unfold gameEntry in He.
    destruct (RegGetValue env HKEY_CLASSES_ROOT
                (REPOSITORY_PATH +:+ "\" +:+ key k) "DisplayName") as [d|err];
      [| discriminate].
    destruct (value d) as [s|n|b|l'|]; try discriminate.
    destruct (RegGetValue env HKEY_CLASSES_ROOT
                (REPOSITORY_PATH +:+ "\" +:+ key k) "PackageRootFolder");
      [| discriminate].
    simpl in He. injection He as <-. reflexivity.
  - exists hkey, k. split; [reflexivity |]. split; [exact Hk |].
    split; [exact (notIgnored_spec env k Hnot) | exact He].
Qed.

(** X29: a [DisplayName] that is not a string (a number, a buffer, an
    array, or no data) makes [displayName.startsWith] throw outside every
    [try] of the callback: when the callbacks of the candidates enumerated
    before it complete, the promise of [getGameEntries] is rejected with a
    [TypeError] and no entry is returned, those of the healthy packages
    included. *)
Theorem enumeration_rejected_by_display_name (env : Env) (hkey : HKey)
    (before after : list string) (k : string) (d : ValueEntry) :
  WithRegOpen env HKEY_CLASSES_ROOT REPOSITORY_PATH = Normal hkey ->
  candidates env hkey = before ++ k :: after ->
  (forall k' d', In k' before ->
     RegGetValue env HKEY_CLASSES_ROOT (REPOSITORY_PATH +:+ "\" +:+ k') "DisplayName"
       = Normal d' ->
     (exists s', value d' = VString s') /\
     exists r, RegGetValue env HKEY_CLASSES_ROOT (REPOSITORY_PATH +:+ "\" +:+ k')
                 "PackageRootFolder" = Normal r) ->
  RegGetValue env HKEY_CLASSES_ROOT (REPOSITORY_PATH +:+ "\" +:+ k) "DisplayName"
    = Normal d ->
  (forall s, value d <> VString s) ->
  gameEntry env k = Throw TypeError /\
  getGameEntries true env = Rejected TypeError.
Proof.
  intros Hroot Hkeys Hbefore Hname Hs.
  assert (Hk : gameEntry env k = Throw TypeError).
  { pose proof (gameEntry_cases env k) as Hc. rewrite Hname in Hc.
    destruct (value d) as [s|n|b|l|]; [| exact Hc ..].
    exfalso. exact (Hs s eq_refl). }
  split; [exact Hk |].
  unfold getGameEntries. simpl. rewrite Hroot. simpl.
  fold (candidates env hkey). rewrite Hkeys.
  rewrite (mapKeys_throw env before after k TypeError); [reflexivity | | exact Hk].
  intros k' Hk'. apply gameEntry_normal_of_reads. intros d' Hd'.
  exact (Hbefore k' d' Hk' Hd').
Qed.

End EnumeratorProperties.

Section EnumeratorWitnesses.
Import Launcher Api.

Lemma enumeration_in_key_order_witness :
  exists entries,
    getGameEntries true Legacy.namelessEnv = Resolved entries /\
    Forall2 (fun k e => gameEntry Legacy.namelessEnv k = Normal (Some e))
            (List.filter (hasDisplayName Legacy.namelessEnv)
               (candidates Legacy.namelessEnv
                  {| RegEnumKeys :=
                       keysOf (pkgXbox :: pkgAstro :: Legacy.pkgNameless :: nil);
                     RegEnumValues := nil |}))
            entries.
Proof.
  apply (enumeration_in_key_order Legacy.namelessEnv
           {| RegEnumKeys := keysOf (pkgXbox :: pkgAstro :: Legacy.pkgNameless :: nil);
              RegEnumValues := nil |}).
  - evaluate.
  - intros k d Hin Hd. vm_compute in Hin.
    destruct Hin as [<- | [<- | []]].
    + vm_compute in Hd. injection Hd as <-.
      split; eexists; evaluate.
    + vm_compute in Hd. discriminate.
Defined.

Lemma enumeration_rejected_by_root_folder_witness :
  getGameEntries true brokenEnv = Rejected ENOENT.
Proof.
  apply (enumeration_rejected_by_root_folder brokenEnv
           {| RegEnumKeys :=
                keysOf (pkgXbox :: pkgAstro :: pkgNoName :: pkgNoRoot :: nil);
              RegEnumValues := nil |}
           (pkgAstro :: pkgNoName :: nil) nil pkgNoRoot (refOf pkgNoRoot)
           (sz "DisplayName" (refOf pkgNoRoot))).
  - evaluate.
  - evaluate.
  - intros k' d' Hin Hd'.
    destruct Hin as [<- | [<- | []]];
      vm_compute in Hd'; injection Hd' as <-; split; eexists; evaluate.
  - evaluate.
  - evaluate.
  - evaluate.
Defined.

Lemma entries_from_unignored_keys_witness :
  gameStoreId
    {| appid := "SystemEraSoftworks.29415440E1269";
       publisherId := "ftk5pbg2rayv2";
       executionName := "ASTRONEER";
       gamePath := VString "C:\Program Files\WindowsApps\Astro";
       name := VString "ASTRONEER";
       gameStoreId := "xbox" |} = "xbox" /\
  exists hkey k,
    WithRegOpen exampleEnv HKEY_CLASSES_ROOT REPOSITORY_PATH = Normal hkey /\
    In k (RegEnumKeys hkey) /\
    (forall ign, In ign IGNORABLE ->
                 startsWith (toLowerCase exampleEnv (key k)) ign = false) /\
    gameEntry exampleEnv (key k)
    = Normal (Some {| appid := "SystemEraSoftworks.29415440E1269";
                      publisherId := "ftk5pbg2rayv2";
                      executionName := "ASTRONEER";
                      gamePath := VString "C:\Program Files\WindowsApps\Astro";
                      name := VString "ASTRONEER";
                      gameStoreId := "xbox" |}).
Proof.
  eapply (entries_from_unignored_keys exampleEnv).
  - evaluate.
  - left. reflexivity.
Defined.

Lemma enumeration_rejected_by_display_name_witness :
  gameEntry numberedEnv pkgNumbered = Throw TypeError /\
  getGameEntries true numberedEnv = Rejected TypeError.
Proof.
  apply (enumeration_rejected_by_display_name numberedEnv
           {| RegEnumKeys :=
                keysOf (pkgXbox :: pkgAstro :: pkgNumbered :: pkgSkyrim :: nil);
              RegEnumValues := nil |}
           (pkgAstro :: nil) (pkgSkyrim :: nil) pkgNumbered
           (dword "DisplayName" 5)).
  - evaluate.
  - evaluate.
  - intros k' d' Hin Hd'.
    destruct Hin as [<- | []].
    vm_compute in Hd'. injection Hd' as <-. split; eexists; evaluate.
  - evaluate.
  - intros s. discriminate.
Defined.

End EnumeratorWitnesses.

Section DetectionProperties.
Import Launcher Api.

Lemma xbox_pattern_listed : In "microsoft.xbox" IGNORABLE.
Proof. unfold IGNORABLE. simpl. tauto. Qed.



(** X13: the constructor reports the store as installed exactly when the
    platform is win32, the package repository can be opened and one of
    its child keys has a lower-cased name that starts with
    microsoft.xboxapp; the cache starts out empty. *)
Theorem construct_installed_iff (platform : string) (env : Env) :
  mCache (construct platform env) = None /\
  (isXboxInstalled (construct platform env) = true <->
   platform = "win32" /\
   exists hkey k,
     WithRegOpen env HKEY_CLASSES_ROOT REPOSITORY_PATH = Normal hkey /\
     In k (RegEnumKeys hkey) /\
     startsWith (toLowerCase env (key k)) XBOXAPP_NAME = true).
Proof.
  split; [reflexivity |].
  unfold construct. simpl.
  destruct (bool_decide (platform = "win32")) eqn:Hplat.
  - apply bool_decide_eq_true in Hplat.
    destruct (WithRegOpen env HKEY_CLASSES_ROOT REPOSITORY_PATH) as [hkey|err].
    + destruct (List.find (fun k => startsWith k XBOXAPP_NAME)
                  (map (fun k => toLowerCase env (key k)) (RegEnumKeys hkey)))
        as [n|] eqn:Hfind.
      * split; [| reflexivity]. intros _. split; [exact Hplat |].
        apply find_some in Hfind as [Hin Hstarts].
        apply in_map_iff in Hin as (k & <- & Hk).
        exists hkey, k. split; [reflexivity | split; assumption].
      * split; [discriminate |].
        intros (_ & hkey' & k & Hopen & Hk & Hstarts).
        injection Hopen as <-.
        assert (Hin : In (toLowerCase env (key k))
                         (map (fun k => toLowerCase env (key k)) (RegEnumKeys hkey)))
          by (apply in_map_iff; eauto).
        pose proof (find_none _ _ Hfind _ Hin) as Hno. simpl in Hno.
        congruence.
    + split; [discriminate |].
      intros (_ & hkey & k & Hopen & _). discriminate.
  - apply bool_decide_eq_false in Hplat.
    split; [discriminate | intros [Hwin _]; contradiction].
Qed.

(** X14: the identity fields of an entry are cut out of its package key:
    the app id is what precedes the first underscore and the publisher id
    what follows the last one; for a key without an underscore the app id
    is empty and the publisher id is the whole key. *)
Theorem entry_ids_from_key (env : Env) (k : string) (e : IXboxEntry) :
  gameEntry env k = Normal (Some e) ->
  (forall a r, k = a +:+ "_" +:+ r -> indexOf "_" a = -1 -> appid e = a) /\
  (forall r p, k = r +:+ "_" +:+ p -> indexOf "_" p = -1 -> publisherId e = p) /\
  (indexOf "_" k = -1 -> appid e = EmptyString /\ publisherId e = k).
Proof.
  unfold gameEntry. intros He.
  destruct (RegGetValue env HKEY_CLASSES_ROOT (REPOSITORY_PATH +:+ "\" +:+ k)
                        "DisplayName") as [v|err]; [| discriminate].
  destruct (value v) as [s|n|b|l|]; try discriminate.
  destruct (RegGetValue env HKEY_CLASSES_ROOT (REPOSITORY_PATH +:+ "\" +:+ k)
                        "PackageRootFolder") as [root|err]; [| discriminate].
  simpl in He. injection He as <-. simpl.
  split; [| split].
  - intros a r -> Hnone. apply appid_of_key. exact Hnone.
  - intros r p -> Hnone. apply publisherId_of_key. exact Hnone.
  - intros Hnone. apply ids_of_plain_key. exact Hnone.
Qed.

Lemma entry_ids_from_key_witness :
  appid {| appid := "SystemEraSoftworks.29415440E1269";
           publisherId := "ftk5pbg2rayv2";
           executionName := "ASTRONEER";
           gamePath := VString "C:\Program Files\WindowsApps\Astro";
           name := VString "ASTRONEER";
           gameStoreId := "xbox" |} = "SystemEraSoftworks.29415440E1269" /\
  publisherId {| appid := "SystemEraSoftworks.29415440E1269";
                 publisherId := "ftk5pbg2rayv2";
                 executionName := "ASTRONEER";
                 gamePath := VString "C:\Program Files\WindowsApps\Astro";
                 name := VString "ASTRONEER";
                 gameStoreId := "xbox" |} = "ftk5pbg2rayv2".
Proof.
  assert (Hentry : gameEntry exampleEnv pkgAstro
                   = Normal (Some {| appid := "SystemEraSoftworks.29415440E1269";
                                     publisherId := "ftk5pbg2rayv2";
                                     executionName := "ASTRONEER";
                                     gamePath :=
                                       VString "C:\Program Files\WindowsApps\Astro";
                                     name := VString "ASTRONEER";
                                     gameStoreId := "xbox" |}))
    by evaluate.
  destruct (entry_ids_from_key exampleEnv pkgAstro _ Hentry) as (Happ & Hpub & _).
  split.
  - apply (Happ "SystemEraSoftworks.29415440E1269" "1.0.0.0_x64__ftk5pbg2rayv2");
      evaluate.
  - apply (Hpub "SystemEraSoftworks.29415440E1269_1.0.0.0_x64_" "ftk5pbg2rayv2");
      evaluate.
Defined.

End DetectionProperties.

(** * Further properties of the registry resolvers *)

Section ResolverFacts.
Import Launcher Api.

Variable env : Env.

Lemma probeHive_cases (hivesPath displayName hive : string)
    (name : JsValue) :
  match RegGetValue env HKEY_CLASSES_ROOT (path_join env hivesPath hive)
                    displayName with
  | Normal v => probeHive env hivesPath displayName hive name = value v
  | Throw _ => probeHive env hivesPath displayName hive name = name
  end.
Proof.
  destruct (RegGetValue env HKEY_CLASSES_ROOT (path_join env hivesPath hive)
                        displayName) as [v|err] eqn:Hget.
  - apply probeHive_match. exact Hget.
  - apply probeHive_nomatch. intros v Hv. rewrite Hv in Hget. discriminate.
Qed.

(** The scan of the hives leaves the name as it was, no hive holding the
    value, or ends with the data of a hive that holds it. *)
Lemma scanHives_result (hivesPath displayName : string) (hives : list string)
    (name : JsValue) :
  (scanHives env hivesPath displayName hives name = name /\
   forall hive v, In hive hives ->
     RegGetValue env HKEY_CLASSES_ROOT (path_join env hivesPath hive) displayName
       <> Normal v) \/
  exists hive v,
    In hive hives /\
    RegGetValue env HKEY_CLASSES_ROOT (path_join env hivesPath hive) displayName
      = Normal v /\
    scanHives env hivesPath displayName hives name = value v.
Proof.
  unfold scanHives. revert name.
  induction hives as [|hive rest IH]; intros name.
  - left. split; [reflexivity | intros hive v []].
  - simpl.
    pose proof (probeHive_cases hivesPath displayName hive name) as Hc.
    destruct (RegGetValue env HKEY_CLASSES_ROOT (path_join env hivesPath hive)
                          displayName) as [v|err] eqn:Hget; rewrite Hc.
    + right.
      destruct (IH (value v)) as [[Hsame _] | (hive' & v' & Hin & Hget' & Hres)].
      * exists hive, v. split; [left; reflexivity |].
        split; [exact Hget | exact Hsame].
      * exists hive', v'. split; [right; exact Hin |].
        split; [exact Hget' | exact Hres].
    + destruct (IH name) as [[Hsame Hnone] | (hive' & v' & Hin & Hget' & Hres)].
      * left. split; [exact Hsame |].
        intros hive' v' [<- | Hin]; [congruence | exact (Hnone hive' v' Hin)].
      * right. exists hive', v'. split; [right; exact Hin |].
        split; [exact Hget' | exact Hres].
Qed.

Lemma scanMutable_sound (packagePath loc : JsValue) (keys : list string) :
  scanMutable env packagePath keys VUndefined = Normal loc ->
  defined loc = true ->
  exists k hk link v,
    In k keys /\
    WithRegOpen env HKEY_LOCAL_MACHINE (path_join env MUTABLE_LOCATION_PATH k)
      = Normal hk /\
    includes (stringValueNames hk) "MutableLink" = true /\
    includes (stringValueNames hk) "MutableLocation" = true /\
    RegGetValue env HKEY_LOCAL_MACHINE (path_join env MUTABLE_LOCATION_PATH k)
                "MutableLink" = Normal link /\
    strictEquals (value link) packagePath = true /\
    RegGetValue env HKEY_LOCAL_MACHINE (path_join env MUTABLE_LOCATION_PATH k)
                "MutableLocation" = Normal v /\
    value v = loc.
Proof.
  intros Hscan Hdef.
  induction keys as [|k rest IH].
  - injection Hscan as <-. discriminate.
  - simpl in Hscan.
    destruct (WithRegOpen env HKEY_LOCAL_MACHINE
                (path_join env MUTABLE_LOCATION_PATH k)) as [hk|err] eqn:Hopen;
      [| discriminate].
    simpl in Hscan.
    assert (Hlater : scanMutable env packagePath rest VUndefined = Normal loc ->
                     exists k' hk' link v,
                       In k' (k :: rest) /\
                       WithRegOpen env HKEY_LOCAL_MACHINE
                         (path_join env MUTABLE_LOCATION_PATH k') = Normal hk' /\
                       includes (stringValueNames hk') "MutableLink" = true /\
                       includes (stringValueNames hk') "MutableLocation" = true /\
                       RegGetValue env HKEY_LOCAL_MACHINE
                         (path_join env MUTABLE_LOCATION_PATH k') "MutableLink"
                         = Normal link /\
                       strictEquals (value link) packagePath = true /\
                       RegGetValue env HKEY_LOCAL_MACHINE
                         (path_join env MUTABLE_LOCATION_PATH k') "MutableLocation"
                         = Normal v /\
                       value v = loc).
    { intros Hrest. destruct (IH Hrest) as (k' & hk' & link & v & Hin & Hmore).
      exists k', hk', link, v. split; [right; exact Hin | exact Hmore]. }
    unfold probeMutable in Hscan.
    destruct (includes (stringValueNames hk) "MutableLink") eqn:Hl1;
      [| exact (Hlater Hscan)].
    destruct (includes (stringValueNames hk) "MutableLocation") eqn:Hl2;
      [| exact (Hlater Hscan)].
    simpl in Hscan.
    destruct (RegGetValue env HKEY_LOCAL_MACHINE
                (path_join env MUTABLE_LOCATION_PATH k) "MutableLink")
      as [link|err] eqn:Hlink; [| discriminate].
    simpl in Hscan.
    destruct (strictEquals (value link) packagePath) eqn:Heq;
      [| exact (Hlater Hscan)].
    destruct (RegGetValue env HKEY_LOCAL_MACHINE
                (path_join env MUTABLE_LOCATION_PATH k) "MutableLocation")
      as [v|err] eqn:Hloc; [| discriminate].
    simpl in Hscan.
    destruct (defined (value v)) eqn:Hv.
    + rewrite scanMutable_set in Hscan by exact Hv. injection Hscan as Hres.
      exists k, hk, link, v.
      split; [left; reflexivity |]. repeat split; assumption.
    + destruct (value v); try discriminate. exact (Hlater Hscan).
Qed.

End ResolverFacts.

Section ResolverProperties.
Import Launcher Api.

(** X15: a mutable location that [resolveMutableLocation] returns is
    never made up: it is the [MutableLocation] value of a child key of the
    state cache that has both string values and whose [MutableLink] value
    is the probe path. *)
Theorem mutable_location_sound (env : Env) (packagePath loc : JsValue) :
  resolveMutableLocation env packagePath = loc ->
  defined loc = true ->
  exists firsthkey k hk link v,
    WithRegOpen env HKEY_LOCAL_MACHINE MUTABLE_LOCATION_PATH = Normal firsthkey /\
    In k (map key (RegEnumKeys firsthkey)) /\
    WithRegOpen env HKEY_LOCAL_MACHINE (path_join env MUTABLE_LOCATION_PATH k)
      = Normal hk /\
    includes (stringValueNames hk) "MutableLink" = true /\
    includes (stringValueNames hk) "MutableLocation" = true /\
    RegGetValue env HKEY_LOCAL_MACHINE (path_join env MUTABLE_LOCATION_PATH k)
                "MutableLink" = Normal link /\
    strictEquals (value link) packagePath = true /\
    RegGetValue env HKEY_LOCAL_MACHINE (path_join env MUTABLE_LOCATION_PATH k)
                "MutableLocation" = Normal v /\
    value v = loc.
Proof.
  unfold resolveMutableLocation. intros Hres Hdef.
  destruct (WithRegOpen env HKEY_LOCAL_MACHINE MUTABLE_LOCATION_PATH)
    as [firsthkey|err]; [| subst loc; discriminate].
  simpl in Hres.
  destruct (scanMutable env packagePath (map key (RegEnumKeys firsthkey))
                        VUndefined) as [r|err] eqn:Hscan;
    [| subst loc; discriminate].
  subst r.
  destruct (scanMutable_sound env packagePath loc _ Hscan Hdef)
    as (k & hk & link & v & Hin & Hmore).
  exists firsthkey, k, hk, link, v.
  split; [reflexivity | split; [exact Hin | exact Hmore]].
Qed.

Lemma mutable_location_sound_witness :
  exists firsthkey k hk link v,
    WithRegOpen exampleEnv HKEY_LOCAL_MACHINE MUTABLE_LOCATION_PATH = Normal firsthkey /\
    In k (map key (RegEnumKeys firsthkey)) /\
    WithRegOpen exampleEnv HKEY_LOCAL_MACHINE
      (path_join exampleEnv MUTABLE_LOCATION_PATH k) = Normal hk /\
    includes (stringValueNames hk) "MutableLink" = true /\
    includes (stringValueNames hk) "MutableLocation" = true /\
    RegGetValue exampleEnv HKEY_LOCAL_MACHINE
      (path_join exampleEnv MUTABLE_LOCATION_PATH k) "MutableLink" = Normal link /\
    strictEquals (value link) (VString "E:\Games\Skyrim\Content") = true /\
    RegGetValue exampleEnv HKEY_LOCAL_MACHINE
      (path_join exampleEnv MUTABLE_LOCATION_PATH k) "MutableLocation" = Normal v /\
    value v = VString "E:\Games\Skyrim".
Proof.
  apply (mutable_location_sound exampleEnv); evaluate.
Defined.

(** X16: a defined name that [resolveRef] returns is the data of a value
    named with the reference string in one of the hives under the first
    child key of the package's resource cache; [resolveRef] returns
    undefined when no such hive holds such a value (the cache key has no
    child, the child has no hives, or no hive that opens has the value);
    and when it returns undefined although some hive holds such a value,
    one of these values has no data. *)
Theorem resolveRef_sound_and_undefined (env : Env)
    (packageId displayName : string) :
  let cachePath := replace RESOURCES_PATH "{{PACKAGE_ID}}" packageId in
  (forall n, resolveRef env packageId displayName = n ->
     defined n = true ->
     exists firstKey hive v,
       getFirstKeyName env HKEY_CLASSES_ROOT cachePath = Some firstKey /\
       In hive (getKeyNames env HKEY_CLASSES_ROOT
                  (path_join env cachePath firstKey) None) /\
       RegGetValue env HKEY_CLASSES_ROOT
         (path_join env (path_join env cachePath firstKey) hive) displayName
         = Normal v /\
       value v = n) /\
  ((forall firstKey hive v,
      getFirstKeyName env HKEY_CLASSES_ROOT cachePath = Some firstKey ->
      firstKey <> EmptyString ->
      In hive (getKeyNames env HKEY_CLASSES_ROOT
                 (path_join env cachePath firstKey) None) ->
      RegGetValue env HKEY_CLASSES_ROOT
        (path_join env (path_join env cachePath firstKey) hive) displayName
        <> Normal v) ->
   resolveRef env packageId displayName = VUndefined) /\
  (resolveRef env packageId displayName = VUndefined ->
   forall firstKey hive v,
     getFirstKeyName env HKEY_CLASSES_ROOT cachePath = Some firstKey ->
     firstKey <> EmptyString ->
     In hive (getKeyNames env HKEY_CLASSES_ROOT
                (path_join env cachePath firstKey) None) ->
     RegGetValue env HKEY_CLASSES_ROOT
       (path_join env (path_join env cachePath firstKey) hive) displayName
       = Normal v ->
     exists hive' v',
       In hive' (getKeyNames env HKEY_CLASSES_ROOT
                   (path_join env cachePath firstKey) None) /\
       RegGetValue env HKEY_CLASSES_ROOT
         (path_join env (path_join env cachePath firstKey) hive') displayName
         = Normal v' /\
       value v' = VUndefined).
Proof.
  intros cachePath. unfold resolveRef. fold cachePath.
  destruct (getFirstKeyName env HKEY_CLASSES_ROOT cachePath)
    as [[|c0 cs]|] eqn:Hfirst.
  - split; [intros n <-; discriminate |].
    split; [reflexivity |].
    intros _ firstKey hive v Hf Hne. injection Hf as <-. contradiction.
  - set (firstKey := String c0 cs).
    set (hivesPath := path_join env cachePath firstKey).
    destruct (getKeyNames env HKEY_CLASSES_ROOT hivesPath None)
      as [|h0 hs] eqn:Hhives.
    + split; [intros n <-; discriminate |].
      split; [reflexivity |].
      intros _ firstKey' hive v Hf _ Hin. injection Hf as <-.
      fold firstKey hivesPath in Hin. rewrite Hhives in Hin. destruct Hin.
    + pose proof (scanHives_result env hivesPath displayName (h0 :: hs)
                    VUndefined) as Hres.
      split; [| split].
      * intros n Hn Hdef.
        destruct Hres as [[Hsame _] | (hive & v & Hin & Hget & Hv)].
        -- rewrite Hsame in Hn. subst n. discriminate.
        -- exists firstKey, hive, v.
           split; [reflexivity |].
           fold hivesPath. rewrite Hhives.
           split; [exact Hin |]. split; [exact Hget | congruence].
      * intros Hall. apply scanHives_nomatch.
        intros hive v Hin.
        specialize (Hall firstKey hive v eq_refl).
        fold hivesPath in Hall. rewrite Hhives in Hall.
        apply Hall; [discriminate | exact Hin].
      * intros Hnone firstKey' hive v Hf _ Hin Hget. injection Hf as <-.
        fold firstKey hivesPath in Hin, Hget. fold firstKey hivesPath.
        rewrite Hhives in Hin. rewrite Hhives.
        destruct Hres as [[_ Hno] | (hive' & v' & Hin' & Hget' & Hv')].
        -- exfalso. exact (Hno hive v Hin Hget).
        -- exists hive', v'. split; [exact Hin' |].
           split; [exact Hget' | congruence].
  - split; [intros n <-; discriminate |].
    split; [reflexivity |].
    intros _ firstKey hive v Hf. discriminate.
Qed.

Lemma resolveRef_sound_and_undefined_witness :
  (exists firstKey hive v,
     getFirstKeyName exampleEnv HKEY_CLASSES_ROOT
       (replace RESOURCES_PATH "{{PACKAGE_ID}}" pkgSkyrim) = Some firstKey /\
     In hive (getKeyNames exampleEnv HKEY_CLASSES_ROOT
                (path_join exampleEnv
                   (replace RESOURCES_PATH "{{PACKAGE_ID}}" pkgSkyrim) firstKey)
                None) /\
     RegGetValue exampleEnv HKEY_CLASSES_ROOT
       (path_join exampleEnv
          (path_join exampleEnv
             (replace RESOURCES_PATH "{{PACKAGE_ID}}" pkgSkyrim) firstKey) hive)
       (refOf pkgSkyrim) = Normal v /\
     value v = VString "Skyrim (PC)") /\
  resolveRef exampleEnv pkgNoName (refOf pkgNoName) = VUndefined.
Proof.
  split.
  - apply (proj1 (resolveRef_sound_and_undefined exampleEnv pkgSkyrim
                    (refOf pkgSkyrim))); evaluate.
  - apply (proj1 (proj2 (resolveRef_sound_and_undefined exampleEnv pkgNoName
                           (refOf pkgNoName)))).
    intros firstKey hive v Hfirst. vm_compute in Hfirst. discriminate.
Defined.

End ResolverProperties.

Section EntryProperties.
Import Launcher Api.

(** X17: how an emitted entry gets its name and its path.  The name is
    the [DisplayName] as it stands unless it starts with an at sign, and
    what [resolveRef] makes of it otherwise.  The path is chosen between
    two registry values: the mutable location that the state cache links
    to the [PackageRootFolder] value, when [resolveMutableLocation] finds
    one, and the [PackageRootFolder] value otherwise.  So the entry
    carries the [MutableLocation] of the first child key of the state
    cache that links the [PackageRootFolder] value; and it is still
    emitted, with the [PackageRootFolder] value as its path, when the
    state cache cannot be opened, when all its child keys are passed over,
    or when a child key cannot be opened before a link is found. *)
Theorem entry_name_and_path (env : Env) (k : string) (e : IXboxEntry)
    (root : ValueEntry) :
  gameEntry env k = Normal (Some e) ->
  RegGetValue env HKEY_CLASSES_ROOT (REPOSITORY_PATH +:+ "\" +:+ k) "PackageRootFolder"
    = Normal root ->
  (exists d s,
     RegGetValue env HKEY_CLASSES_ROOT (REPOSITORY_PATH +:+ "\" +:+ k) "DisplayName"
       = Normal d /\
     value d = VString s /\
     name e = (if startsWith s "@" then resolveRef env k s else VString s)) /\
  gamePath e = (if defined (resolveMutableLocation env (value root))
                then resolveMutableLocation env (value root)
                else value root) /\
  (forall firsthkey before c after hk link loc,
     WithRegOpen env HKEY_LOCAL_MACHINE MUTABLE_LOCATION_PATH = Normal firsthkey ->
     map key (RegEnumKeys firsthkey) = before ++ c :: after ->
     (forall c', In c' before -> passedOver env (value root) c') ->
     WithRegOpen env HKEY_LOCAL_MACHINE (path_join env MUTABLE_LOCATION_PATH c)
       = Normal hk ->
     includes (stringValueNames hk) "MutableLink" = true ->
     includes (stringValueNames hk) "MutableLocation" = true ->
     RegGetValue env HKEY_LOCAL_MACHINE (path_join env MUTABLE_LOCATION_PATH c)
                 "MutableLink" = Normal link ->
     strictEquals (value link) (value root) = true ->
     RegGetValue env HKEY_LOCAL_MACHINE (path_join env MUTABLE_LOCATION_PATH c)
                 "MutableLocation" = Normal loc ->
     defined (value loc) = true ->
     gamePath e = value loc) /\
  (forall err,
     WithRegOpen env HKEY_LOCAL_MACHINE MUTABLE_LOCATION_PATH = Throw err ->
     gamePath e = value root) /\
  (forall firsthkey,
     WithRegOpen env HKEY_LOCAL_MACHINE MUTABLE_LOCATION_PATH = Normal firsthkey ->
     (forall c, In c (map key (RegEnumKeys firsthkey)) ->
                passedOver env (value root) c) ->
     gamePath e = value root) /\
  (forall firsthkey before c after err,
     WithRegOpen env HKEY_LOCAL_MACHINE MUTABLE_LOCATION_PATH = Normal firsthkey ->
     map key (RegEnumKeys firsthkey) = before ++ c :: after ->
     (forall c', In c' before -> passedOver env (value root) c') ->
     WithRegOpen env HKEY_LOCAL_MACHINE (path_join env MUTABLE_LOCATION_PATH c)
       = Throw err ->
     gamePath e = value root).
Proof.
  intros He Hroot.
  destruct (gameEntry_emitted env k e He)
    as (d & s & root' & Hd & Hs & Hroot' & Hname & Hpath).
  assert (root' = root) as -> by congruence.
  split; [exists d, s; repeat split; assumption |].
  split; [exact Hpath |].
  split; [| split; [| split]].
  - intros firsthkey before c after hk link loc
           Hopen Hkeys Hbefore Hc Hl1 Hl2 Hlink Heq Hloc Hdef.
    rewrite Hpath.
    rewrite (resolveMutableLocation_first_match env (value root) firsthkey
               before after c hk link loc Hopen Hkeys Hbefore Hc Hl1 Hl2
               Hlink Heq Hloc Hdef).
    rewrite Hdef. reflexivity.
  - intros err Hclosed. rewrite Hpath.
    unfold resolveMutableLocation. rewrite Hclosed. reflexivity.
  - intros firsthkey Hopen Hall. rewrite Hpath.
    rewrite (resolveMutableLocation_all_passed env (value root) firsthkey
               Hopen Hall).
    reflexivity.
  - intros firsthkey before c after err Hopen Hkeys Hbefore Hc. rewrite Hpath.
    rewrite (resolveMutableLocation_unopenable env (value root) firsthkey
               before after c err Hopen Hkeys Hbefore Hc).
    reflexivity.
Qed.

Lemma entry_name_and_path_witness :
  gamePath {| appid := "BethesdaSoftworks.Skyrim";
              publisherId := "3275kfvn8vcwc";
              executionName := "App";
              gamePath := VString "E:\Games\Skyrim";
              name := VString "Skyrim (PC)";
              gameStoreId := "xbox" |}
  = value (sz "MutableLocation" "E:\Games\Skyrim").
Proof.
  destruct (entry_name_and_path exampleEnv pkgSkyrim
              {| appid := "BethesdaSoftworks.Skyrim";
                 publisherId := "3275kfvn8vcwc";
                 executionName := "App";
                 gamePath := VString "E:\Games\Skyrim";
                 name := VString "Skyrim (PC)";
                 gameStoreId := "xbox" |}
              (sz "PackageRootFolder" "E:\Games\Skyrim\Content"))
    as (_ & _ & Hlinked & _).
  - evaluate.
  - evaluate.
  - apply (Hlinked
             {| RegEnumKeys := keysOf ("1a" :: "2b" :: "3c" :: nil);
                RegEnumValues := nil |}
             ("1a" :: nil) "2b" ("3c" :: nil)
             {| RegEnumKeys := nil;
                RegEnumValues :=
                  sz "MutableLink" "E:\Games\Skyrim\Content" ::
                  sz "MutableLocation" "E:\Games\Skyrim" :: nil |}
             (sz "MutableLink" "E:\Games\Skyrim\Content")
             (sz "MutableLocation" "E:\Games\Skyrim")); try evaluate.
    intros c' [<- | []].
    eexists. split; [evaluate |].
    right. eexists. split; evaluate.
Defined.

End EntryProperties.

(** * Further properties of the launcher object *)

Section SessionFacts.
Import Launcher Api.

(** What one call of [allGames] does to the session. *)
Lemma allGames_step (env : Env) (s : Session) :
  isXboxInstalled (self (allGames env s).2) = isXboxInstalled (self s) /\
  (allocated s <= allocated (allGames env s).2)%nat /\
  (storeQueries s <= storeQueries (allGames env s).2)%nat /\
  (is_Some (mCache (self s)) -> is_Some (mCache (self (allGames env s).2))) /\
  (isXboxInstalled (self s) = false ->
   self (allGames env s).2 = self s /\
   storeQueries (allGames env s).2 = storeQueries s) /\
  ((forall c, mCache (self s) = Some c -> (pid c < allocated s)%nat) ->
   forall c, mCache (self (allGames env s).2) = Some c ->
             (pid c < allocated (allGames env s).2)%nat).
Proof.
  destruct (isXboxInstalled (self s)) eqn:Hinst.
  - destruct (mCache (self s)) as [cache|] eqn:Hcache.
    + rewrite (allGames_cached env s cache Hinst Hcache). simpl.
      rewrite Hcache. repeat split; auto; try lia; try discriminate.
    + rewrite (allGames_uncached env s Hinst Hcache). simpl.
      repeat split; auto; try lia; try discriminate;
      try (intros _ c Hc; injection Hc as <-; simpl; lia).
  - unfold allGames. rewrite Hinst. simpl.
    repeat split; auto; try lia;
      try (intros Hwf c Hc; specialize (Hwf c Hc); lia).
Qed.

Lemma reloadGames_step (env : Env) (s : Session) :
  isXboxInstalled (self (reloadGames env s).2) = isXboxInstalled (self s) /\
  (allocated s <= allocated (reloadGames env s).2)%nat /\
  (storeQueries s <= storeQueries (reloadGames env s).2)%nat /\
  (is_Some (mCache (self s)) -> is_Some (mCache (self (reloadGames env s).2))) /\
  (isXboxInstalled (self s) = false ->
   self (reloadGames env s).2 = self s /\
   storeQueries (reloadGames env s).2 = storeQueries s) /\
  ((forall c, mCache (self s) = Some c -> (pid c < allocated s)%nat) ->
   forall c, mCache (self (reloadGames env s).2) = Some c ->
             (pid c < allocated (reloadGames env s).2)%nat).
Proof.
  destruct (isXboxInstalled (self s)) eqn:Hinst.
  - rewrite (reloadGames_installed env s Hinst). simpl.
    repeat split; auto; try lia; try discriminate;
      try (intros _ c Hc; injection Hc as <-; simpl; lia).
  - unfold reloadGames. rewrite Hinst. simpl.
    repeat split; auto; try lia;
      try (intros Hwf c Hc; specialize (Hwf c Hc); lia).
Qed.

Lemma countPromise_self (s : Session) :
  self (countPromise s) = self s /\
  allocated (countPromise s) = S (allocated s) /\
  storeQueries (countPromise s) = storeQueries s.
Proof. repeat split. Qed.

(** [findByAppId] changes the session through [allGames] and by making
    promises only. *)
Lemma findByAppId_session (appId : AppIds) (env : Env) (s : Session) :
  self (findByAppId appId env s).2 = self (allGames env s).2 /\
  storeQueries (findByAppId appId env s).2 = storeQueries (allGames env s).2 /\
  (allocated (allGames env s).2 <= allocated (findByAppId appId env s).2)%nat.
Proof.
  unfold findByAppId.
  destruct (allGames env s) as [games s1]. simpl.
  destruct (settled games) as [entries|err]; simpl.
  - destruct (List.find (matcher appId) entries); simpl; repeat split; lia.
  - repeat split; lia.
Qed.

Lemma launchGame_session (appInfo : AppInfo) (env : Env) (s : Session) :
  (self (launchGame appInfo env s).1.2 = self s /\
   storeQueries (launchGame appInfo env s).1.2 = storeQueries s /\
   (allocated s <= allocated (launchGame appInfo env s).1.2)%nat) \/
  (self (launchGame appInfo env s).1.2 = self (allGames env s).2 /\
   storeQueries (launchGame appInfo env s).1.2 = storeQueries (allGames env s).2 /\
   (allocated (allGames env s).2 <= allocated (launchGame appInfo env s).1.2)%nat).
Proof.
  unfold launchGame.
  destruct (falsy appInfo).
  - left. simpl. repeat split; lia.
  - right.
    match goal with
    | |- context [findByAppId ?a env s] =>
        pose proof (findByAppId_session a env s) as (Hself & Hq & Ha);
        destruct (findByAppId a env s) as [found s1]
    end.
    simpl in *. destruct found; simpl; repeat split; try assumption; lia.
Qed.

Lemma perform_step (c : Call) (env : Env) (s : Session) :
  isXboxInstalled (self (perform c env s)) = isXboxInstalled (self s) /\
  (allocated s <= allocated (perform c env s))%nat /\
  (storeQueries s <= storeQueries (perform c env s))%nat /\
  (is_Some (mCache (self s)) -> is_Some (mCache (self (perform c env s)))) /\
  (isXboxInstalled (self s) = false ->
   self (perform c env s) = self s /\
   storeQueries (perform c env s) = storeQueries s) /\
  ((forall c', mCache (self s) = Some c' -> (pid c' < allocated s)%nat) ->
   forall c', mCache (self (perform c env s)) = Some c' ->
              (pid c' < allocated (perform c env s))%nat).
Proof.
  pose proof (allGames_step env s) as (Ai & Aa & Aq & Ac & Au & Aw).
  destruct c as [| | appId | appInfo]; simpl.
  - exact (allGames_step env s).
  - exact (reloadGames_step env s).
  - pose proof (findByAppId_session appId env s) as (Hself & Hq & Ha).
    rewrite Hself, Hq.
    split; [exact Ai |]. split; [lia |]. split; [exact Aq |].
    split; [exact Ac |]. split; [exact Au |].
    intros Hwf c' Hc'. specialize (Aw Hwf c' Hc'). lia.
  - destruct (launchGame_session appInfo env s)
      as [(Hself & Hq & Ha) | (Hself & Hq & Ha)]; rewrite Hself, Hq.
    + repeat split; auto; try lia;
        try (intros Hwf c' Hc'; specialize (Hwf c' Hc'); lia).
    + split; [exact Ai |]. split; [lia |]. split; [exact Aq |].
      split; [exact Ac |]. split; [exact Au |].
      intros Hwf c' Hc'. specialize (Aw Hwf c' Hc'). lia.
Qed.

End SessionFacts.

Section SessionProperties.
Import Launcher Api.

(** X18: whatever calls of [allGames], [reloadGames], [findByAppId] and
    [launchGame] a host makes, on whatever registries: the installation
    flag keeps the value the constructor gave it; a cache, once filled, is
    never emptied again; the counts of promises and of store queries never
    decrease; a launcher that is not installed never fills its cache and
    never queries the store; and the cached promise is always one that
    was made before. *)
Theorem session_invariants (s0 s : Session) :
  reachable s0 s ->
  isXboxInstalled (self s) = isXboxInstalled (self s0) /\
  (allocated s0 <= allocated s)%nat /\
  (storeQueries s0 <= storeQueries s)%nat /\
  (is_Some (mCache (self s0)) -> is_Some (mCache (self s))) /\
  (isXboxInstalled (self s0) = false ->
   self s = self s0 /\ storeQueries s = storeQueries s0) /\
  ((forall c, mCache (self s0) = Some c -> (pid c < allocated s0)%nat) ->
   forall c, mCache (self s) = Some c -> (pid c < allocated s)%nat).
Proof.
  induction 1 as [|s c env Hreach (Ii & Ia & Iq & Ic & Iu & Iw)].
  - repeat split; auto.
  - pose proof (perform_step c env s) as (Pi & Pa & Pq & Pc & Pu & Pw).
    split; [congruence |]. split; [lia |]. split; [lia |].
    split; [auto |]. split.
    + intros Hoff. destruct (Iu Hoff) as [Hself Hq].
      assert (Hoff' : isXboxInstalled (self s) = false) by congruence.
      destruct (Pu Hoff') as [Hself' Hq']. split; congruence.
    + intros Hwf. apply Pw. apply Iw. exact Hwf.
Qed.

Lemma session_invariants_witness :
  let s0 := freshSession (construct "win32" exampleEnv) in
  let s := perform (CallLaunchGame (AppIdString "SystemEraSoftworks.29415440E1269"))
             exampleEnv
             (perform CallReloadGames brokenEnv (perform CallAllGames exampleEnv s0)) in
  isXboxInstalled (self s) = isXboxInstalled (self s0) /\
  (allocated s0 <= allocated s)%nat /\
  (storeQueries s0 <= storeQueries s)%nat /\
  (is_Some (mCache (self s0)) -> is_Some (mCache (self s))) /\
  (isXboxInstalled (self s0) = false ->
   self s = self s0 /\ storeQueries s = storeQueries s0) /\
  ((forall c, mCache (self s0) = Some c -> (pid c < allocated s0)%nat) ->
   forall c, mCache (self s) = Some c -> (pid c < allocated s)%nat).
Proof.
  apply (session_invariants (freshSession (construct "win32" exampleEnv))).
  apply reach_call, reach_call, reach_call, reach_start.
Defined.

(** X19: on a launcher that is not installed every query short-circuits
    without touching the store: [allGames] resolves to the empty list,
    [findByAppId] rejects with the not-found error that names the
    requested ids and the store, [launchGame] spawns nothing, and none of
    them issues a store query, whatever the registry holds. *)
Theorem store_unavailable (env : Env) (s : Session) (appId : AppIds)
    (appInfo : AppInfo) :
  isXboxInstalled (self s) = false ->
  settled (allGames env s).1 = Resolved nil /\
  (findByAppId appId env s).1
  = Failed (GameEntryNotFound
              match appId with
              | ManyIds ids => join ", " ids
              | OneId id => id
              end STORE_ID) /\
  (launchGame appInfo env s).2 = nil /\
  storeQueries (allGames env s).2 = storeQueries s /\
  storeQueries (findByAppId appId env s).2 = storeQueries s /\
  storeQueries (launchGame appInfo env s).1.2 = storeQueries s.
Proof.
  intros Hoff.
  assert (Hall : allGames env s = newPromise (Resolved nil) s)
    by (unfold allGames; rewrite Hoff; reflexivity).
  assert (Hfind : forall a,
             findByAppId a env s
             = (Failed (GameEntryNotFound
                          match a with
                          | ManyIds ids => join ", " ids
                          | OneId id => id
                          end STORE_ID),
                countPromise (countPromise (allGames env s).2)))
    by (intros a; unfold findByAppId; rewrite Hall; reflexivity).
  split; [rewrite Hall; reflexivity |].
  split; [rewrite Hfind; reflexivity |].
  split.
  { unfold launchGame. destruct (falsy appInfo); [reflexivity |].
    rewrite Hfind. reflexivity. }
  split; [rewrite Hall; reflexivity |].
  split; [rewrite Hfind, Hall; reflexivity |].
  unfold launchGame. destruct (falsy appInfo); [reflexivity |].
  rewrite Hfind, Hall. reflexivity.
Qed.

Lemma store_unavailable_witness :
  let s := freshSession (construct "linux" exampleEnv) in
  settled (allGames exampleEnv s).1 = Resolved nil /\
  (findByAppId (ManyIds ("Foo" :: "Bar" :: nil)) exampleEnv s).1
  = Failed (GameEntryNotFound (join ", " ("Foo" :: "Bar" :: nil)) STORE_ID) /\
  (launchGame (AppIdString "Foo") exampleEnv s).2 = nil /\
  storeQueries (allGames exampleEnv s).2 = storeQueries s /\
  storeQueries (findByAppId (ManyIds ("Foo" :: "Bar" :: nil)) exampleEnv s).2
  = storeQueries s /\
  storeQueries (launchGame (AppIdString "Foo") exampleEnv s).1.2 = storeQueries s.
Proof.
  apply (store_unavailable exampleEnv
           (freshSession (construct "linux" exampleEnv))
           (ManyIds ("Foo" :: "Bar" :: nil)) (AppIdString "Foo")).
  evaluate.
Defined.

Lemma find_first (A : Type) (f : A -> bool) (before after : list A) (x : A) :
  (forall y, In y before -> f y = false) -> f x = true ->
  List.find f (before ++ x :: after) = Some x.
Proof.
  intros Hbefore Hx.
  induction before as [|y rest IH]; simpl.
  - rewrite Hx. reflexivity.
  - rewrite (Hbefore y) by (left; reflexivity).
    apply IH. intros z Hz. apply Hbefore. right. exact Hz.
Qed.

Lemma find_none_iff (A : Type) (f : A -> bool) (l : list A) :
  (forall y, In y l -> f y = false) -> List.find f l = None.
Proof.
  induction l as [|y rest IH]; intros Hall; [reflexivity |].
  simpl. rewrite (Hall y) by (left; reflexivity).
  apply IH. intros z Hz. apply Hall. right. exact Hz.
Qed.

(** X20: [findByAppId] passes a rejection of the enumeration on; on a
    resolved enumeration it returns the first entry, in enumeration
    order, whose app id is the requested id or one of the requested ids,
    never an entry that does not match, and when no entry matches it
    rejects with the not-found error that names the requested ids (joined
    with a comma and a space) and the store. *)
Theorem findByAppId_first_match (appId : AppIds) (env : Env) (s : Session) :
  match settled (allGames env s).1 with
  | Rejected err => (findByAppId appId env s).1 = Failed (Failure err)
  | Resolved entries =>
      (forall before e after,
          entries = before ++ e :: after ->
          matcher appId e = true ->
          (forall x, In x before -> matcher appId x = false) ->
          (findByAppId appId env s).1 = Fulfilled e) /\
      ((forall x, In x entries -> matcher appId x = false) ->
       (findByAppId appId env s).1
       = Failed (GameEntryNotFound
                   match appId with
                   | ManyIds ids => join ", " ids
                   | OneId id => id
                   end STORE_ID)) /\
      (forall e, (findByAppId appId env s).1 = Fulfilled e ->
                 In e entries /\ matcher appId e = true)
  end.
Proof.
  unfold findByAppId.
  destruct (allGames env s) as [games s1]. simpl.
  destruct (settled games) as [entries|err]; [| reflexivity].
  split; [| split].
  - intros before e after -> He Hbefore.
    rewrite (find_first _ _ before after e Hbefore He). reflexivity.
  - intros Hnone. rewrite (find_none_iff _ _ entries Hnone). reflexivity.
  - intros e.
    destruct (List.find (matcher appId) entries) as [found|] eqn:Hfind;
      simpl; [| discriminate].
    intros Heq. injection Heq as <-.
    apply find_some in Hfind. exact Hfind.
Qed.

Lemma findByAppId_first_match_witness :
  (findByAppId (ManyIds ("Contoso.Unnamed" :: "BethesdaSoftworks.Skyrim" :: nil))
     exampleEnv (freshSession (construct "win32" exampleEnv))).1
  = Fulfilled {| appid := "BethesdaSoftworks.Skyrim";
                 publisherId := "3275kfvn8vcwc";
                 executionName := "App";
                 gamePath := VString "E:\Games\Skyrim";
                 name := VString "Skyrim (PC)";
                 gameStoreId := "xbox" |}.
Proof.
  pose proof (findByAppId_first_match
                (ManyIds ("Contoso.Unnamed" :: "BethesdaSoftworks.Skyrim" :: nil))
                exampleEnv (freshSession (construct "win32" exampleEnv))) as Hfirst.
  vm_compute settled in Hfirst.
  destruct Hfirst as (Hfound & _ & _).
  eapply (Hfound (_ :: nil) _ (_ :: nil)).
  - reflexivity.
  - evaluate.
  - intros x [<- | []]. evaluate.
Defined.

Lemma matcher_singleton (id : string) (e : IXboxEntry) :
  matcher (ManyIds (id :: nil)) e = matcher (OneId id) e.
Proof.
  simpl. destruct (decide (id = appid e)) as [Heq | Hne].
  - rewrite !bool_decide_eq_true_2; [reflexivity | exact Heq |].
    rewrite <- Heq. apply list_elem_of_In. left. reflexivity.
  - rewrite !bool_decide_eq_false_2; [reflexivity | exact Hne |].
    intros Hin. apply list_elem_of_In in Hin as [Heq | []]. congruence.
Qed.

Lemma find_pointwise (A : Type) (f g : A -> bool) (l : list A) :
  (forall x, f x = g x) -> List.find f l = List.find g l.
Proof.
  intros Hfg. induction l as [|x rest IH]; [reflexivity |].
  simpl. rewrite Hfg, IH. reflexivity.
Qed.

(** X21: asking [findByAppId] for one id and asking it for the array
    that holds just this id are the same call: the same entry or the same
    error, the not-found error naming the id in both cases, and the same
    session afterwards. *)
Theorem findByAppId_one_or_singleton (id : string) (env : Env) (s : Session) :
  findByAppId (ManyIds (id :: nil)) env s = findByAppId (OneId id) env s.
Proof.
  unfold findByAppId.
  destruct (allGames env s) as [games s1].
  destruct (settled games) as [entries|err]; [| reflexivity].
  rewrite (find_pointwise _ _ _ entries (matcher_singleton id)).
  reflexivity.
Qed.

End SessionProperties.

Section LaunchProperties.
Import Launcher Api.

Lemma findByAppId_fulfilled_id (id : string) (env : Env) (s : Session)
    (entry : IXboxEntry) :
  (findByAppId (OneId id) env s).1 = Fulfilled entry -> appid entry = id.
Proof.
  unfold findByAppId.
  destruct (allGames env s) as [games s1]. simpl.
  destruct (settled games) as [entries|err]; [| discriminate].
  destruct (List.find (matcher (OneId id)) entries) as [found|] eqn:Hfind;
    simpl; [| discriminate].
  intros Heq. injection Heq as <-.
  apply find_some in Hfind as [_ Hmatch].
  simpl in Hmatch. apply bool_decide_eq_true in Hmatch. congruence.
Qed.

(** X22: [launchGame] rejects a missing or empty [appInfo] at once with
    the invalid-argument error, without a query of the store and without
    spawning.  Otherwise it looks the requested id up with [findByAppId]:
    when an entry is found it spawns explorer.exe once, through the shell,
    with the command shell:appsFolder\ followed by the requested id, an
    underscore, the publisher id of the entry, an exclamation mark and the
    execution name; when the lookup fails it passes the error on and
    spawns nothing.  The execution name is the [appExecName] of the first
    parameter that has one, and the one of the entry otherwise. *)
Theorem launchGame_command (appInfo : AppInfo) (env : Env) (s : Session) :
  (falsy appInfo = true ->
   launchGame appInfo env s
   = (Failed (ArgumentInvalid "appInfo is undefined/null"), countPromise s, nil)) /\
  (forall id,
     falsy appInfo = false ->
     appInfo = AppIdString id \/ (exists ps, appInfo = CustomExec id ps) ->
     (forall entry,
        (findByAppId (OneId id) env s).1 = Fulfilled entry ->
        (launchGame appInfo env s).1.1 = Fulfilled tt /\
        (launchGame appInfo env s).2
        = {| command := "explorer.exe";
             args := ("shell:appsFolder\" +:+ id +:+ "_" +:+ publisherId entry
                      +:+ "!" +:+ findExecName appInfo entry) :: nil;
             shell := true |} :: nil) /\
     (forall err,
        (findByAppId (OneId id) env s).1 = Failed err ->
        (launchGame appInfo env s).1.1 = Failed err /\
        (launchGame appInfo env s).2 = nil)) /\
  (forall entry,
     (forall id, appInfo = AppIdString id ->
                 findExecName appInfo entry = executionName entry) /\
     (forall id before n after,
        appInfo = CustomExec id (before ++ {| appExecName := Some n |} :: after) ->
        (forall p, In p before -> appExecName p = None) ->
        findExecName appInfo entry = n) /\
     (forall id ps,
        appInfo = CustomExec id ps ->
        (forall p, In p ps -> appExecName p = None) ->
        findExecName appInfo entry = executionName entry)).
Proof.
  split; [| split].
  - intros Hfalsy. unfold launchGame. rewrite Hfalsy. reflexivity.
  - intros id Hok Hshape.
    assert (Hid : match appInfo with
                  | CustomExec appId _ => appId
                  | AppIdString appId => appId
                  | NoAppInfo => EmptyString
                  end = id)
      by (destruct Hshape as [-> | [ps ->]]; reflexivity).
    split.
    + intros entry Hfound.
      pose proof (findByAppId_fulfilled_id id env s entry Hfound) as Happ.
      unfold launchGame. rewrite Hok, Hid.
      destruct (findByAppId (OneId id) env s) as [found s1].
      simpl in Hfound. subst found. simpl.
      rewrite Happ. split; reflexivity.
    + intros err Hfail.
      unfold launchGame. rewrite Hok, Hid.
      destruct (findByAppId (OneId id) env s) as [found s1].
      simpl in Hfail. subst found. simpl. split; reflexivity.
  - intros entry. split; [| split].
    + intros id ->. reflexivity.
    + intros id before n after -> Hbefore. simpl.
      rewrite (find_first _ _ before after {| appExecName := Some n |}).
      * reflexivity.
      * intros p Hp. rewrite (Hbefore p Hp).
        apply bool_decide_eq_false. intros [x Hx]. discriminate.
      * apply bool_decide_eq_true. eauto.
    + intros id ps -> Hnone. simpl.
      rewrite find_none_iff; [reflexivity |].
      intros p Hp. rewrite (Hnone p Hp).
      apply bool_decide_eq_false. intros [x Hx]. discriminate.
Qed.

Lemma launchGame_command_witness :
  (launchGame (AppIdString "SystemEraSoftworks.29415440E1269") exampleEnv
     (freshSession (construct "win32" exampleEnv))).1.1 = Fulfilled tt /\
  (launchGame (AppIdString "SystemEraSoftworks.29415440E1269") exampleEnv
     (freshSession (construct "win32" exampleEnv))).2
  = {| command := "explorer.exe";
       args := ("shell:appsFolder\" +:+ "SystemEraSoftworks.29415440E1269" +:+ "_"
                +:+ publisherId
                      {| appid := "SystemEraSoftworks.29415440E1269";
                         publisherId := "ftk5pbg2rayv2";
                         executionName := "ASTRONEER";
                         gamePath := VString "C:\Program Files\WindowsApps\Astro";
                         name := VString "ASTRONEER";
                         gameStoreId := "xbox" |}
                +:+ "!"
                +:+ findExecName (AppIdString "SystemEraSoftworks.29415440E1269")
                      {| appid := "SystemEraSoftworks.29415440E1269";
                         publisherId := "ftk5pbg2rayv2";
                         executionName := "ASTRONEER";
                         gamePath := VString "C:\Program Files\WindowsApps\Astro";
                         name := VString "ASTRONEER";
                         gameStoreId := "xbox" |}) :: nil;
       shell := true |} :: nil.
Proof.
  destruct (launchGame_command (AppIdString "SystemEraSoftworks.29415440E1269")
              exampleEnv (freshSession (construct "win32" exampleEnv)))
    as (_ & Hlaunch & _).
  destruct (Hlaunch "SystemEraSoftworks.29415440E1269" eq_refl
              (or_introl eq_refl)) as [Hfound _].
  apply Hfound. evaluate.
Defined.

End LaunchProperties.

(** * Properties of the earlier revision of the enumerator *)

Section LegacyFacts.
Import Launcher Api.

Variable env : Env.

Lemma legacy_gameEntry_normal (k s : string) (d root : ValueEntry) :
  RegGetValue env HKEY_CLASSES_ROOT (REPOSITORY_PATH +:+ "\" +:+ k) "DisplayName"
    = Normal d ->
  value d = VString s ->
  RegGetValue env HKEY_CLASSES_ROOT (REPOSITORY_PATH +:+ "\" +:+ k) "PackageRootFolder"
    = Normal root ->
  exists r, Legacy.gameEntry env k = Normal r.
Proof.
  intros Hd Hs Hroot. unfold Legacy.gameEntry. rewrite Hd. simpl. rewrite Hs.
  destruct (startsWith s "@").
  - destruct (getFirstKeyName env HKEY_CLASSES_ROOT _) as [[|c0 cs]|];
      try (eexists; reflexivity).
    destruct (getKeyNames env HKEY_CLASSES_ROOT _ None);
      [eexists; reflexivity |].
    rewrite Hroot. eexists. reflexivity.
  - rewrite Hroot. eexists. reflexivity.
Qed.

Lemma legacy_mapKeys_throw (before after : list string) (k : string) (e : Err) :
  (forall k', In k' before -> exists r, Legacy.gameEntry env k' = Normal r) ->
  Legacy.gameEntry env k = Throw e ->
  Legacy.mapKeys env (before ++ k :: after) = Throw e.
Proof.
  intros Hbefore Hk.
  induction before as [|k' rest IH].
  - simpl. rewrite Hk. reflexivity.
  - destruct (Hbefore k' (or_introl eq_refl)) as [r Hr].
    simpl. rewrite Hr. simpl. rewrite IH; [reflexivity |].
    intros k'' Hin. apply Hbefore. right. exact Hin.
Qed.

End LegacyFacts.

Section LegacyProperties.
Import Launcher Api.

(** X23: in the earlier revision a package key whose [DisplayName] cannot
    be fetched makes the whole enumeration reject with the error of that
    fetch, when the callbacks of the candidates enumerated before it
    complete (each of them has a string for [DisplayName] and a
    [PackageRootFolder]); the callback of the current revision only drops
    this candidate. *)
Theorem legacy_display_name_failure (env : Env) (hkey : HKey)
    (before after : list string) (k : string) (e : Err) :
  WithRegOpen env HKEY_CLASSES_ROOT REPOSITORY_PATH = Normal hkey ->
  candidates env hkey = before ++ k :: after ->
  (forall k', In k' before ->
     exists d s root,
       RegGetValue env HKEY_CLASSES_ROOT (REPOSITORY_PATH +:+ "\" +:+ k')
                   "DisplayName" = Normal d /\
       value d = VString s /\
       RegGetValue env HKEY_CLASSES_ROOT (REPOSITORY_PATH +:+ "\" +:+ k')
                   "PackageRootFolder" = Normal root) ->
  RegGetValue env HKEY_CLASSES_ROOT (REPOSITORY_PATH +:+ "\" +:+ k) "DisplayName"
    = Throw e ->
  Legacy.getGameEntries env = Rejected e /\
  gameEntry env k = Normal None.
Proof.
  intros Hroot Hkeys Hbefore Hname. split.
  - unfold Legacy.getGameEntries. rewrite Hroot. simpl.
    fold (candidates env hkey). rewrite Hkeys.
    rewrite (legacy_mapKeys_throw env before after k e); [reflexivity | |].
    + intros k' Hk'. destruct (Hbefore k' Hk') as (d & s & root & Hd & Hs & Hr).
      exact (legacy_gameEntry_normal env k' s d root Hd Hs Hr).
    + unfold Legacy.gameEntry. rewrite Hname. reflexivity.
  - pose proof (gameEntry_cases env k) as Hc. rewrite Hname in Hc. exact Hc.
Qed.

Lemma legacy_display_name_failure_witness :
  Legacy.getGameEntries Legacy.namelessEnv = Rejected ENOENT /\
  gameEntry Legacy.namelessEnv Legacy.pkgNameless = Normal None.
Proof.
  apply (legacy_display_name_failure Legacy.namelessEnv
           {| RegEnumKeys := keysOf (pkgXbox :: pkgAstro :: Legacy.pkgNameless :: nil);
              RegEnumValues := nil |}
           (pkgAstro :: nil) nil Legacy.pkgNameless).
  - evaluate.
  - evaluate.
  - intros k' [<- | []]. eexists. eexists. eexists.
    split; [evaluate |]. split; evaluate.
  - evaluate.
Defined.



(** X25: an entry of the earlier revision takes its execution name whole
    from the first child key under the repository key of the package (no
    split at the exclamation mark; App when there is no child key), its
    game path straight from [PackageRootFolder] (the state cache is not
    consulted), and its name from the [DisplayName], a string, or, for a
    reference, from the same scan of the hives as [resolveRef]. *)
Theorem legacy_entry_fields (env : Env) (k : string) (e : IXboxEntry) :
  Legacy.gameEntry env k = Normal (Some e) ->
  executionName e
  = match getFirstKeyName env HKEY_CLASSES_ROOT (path_join env REPOSITORY_PATH k) with
    | Some ((String c0 cs) as child) => child
    | _ => "App"
    end /\
  exists d s root,
    RegGetValue env HKEY_CLASSES_ROOT (REPOSITORY_PATH +:+ "\" +:+ k) "DisplayName"
      = Normal d /\
    value d = VString s /\
    RegGetValue env HKEY_CLASSES_ROOT (REPOSITORY_PATH +:+ "\" +:+ k) "PackageRootFolder"
      = Normal root /\
    gamePath e = value root /\
    name e = (if startsWith s "@" then resolveRef env k s else VString s).
Proof.
  unfold Legacy.gameEntry. intros He.
  destruct (RegGetValue env HKEY_CLASSES_ROOT (REPOSITORY_PATH +:+ "\" +:+ k)
                        "DisplayName") as [d|err] eqn:Hd; [| discriminate].
  cbn [bindC] in He. cbv zeta in He.
  destruct (value d) as [s|n|b|l|] eqn:Hs; try discriminate.
  destruct (startsWith s "@") eqn:Hat.
  - unfold resolveRef. cbv zeta.
    destruct (getFirstKeyName env HKEY_CLASSES_ROOT
                (replace RESOURCES_PATH "{{PACKAGE_ID}}" k)) as [[|c0 cs]|];
      try discriminate.
    destruct (getKeyNames env HKEY_CLASSES_ROOT
                (path_join env (replace RESOURCES_PATH "{{PACKAGE_ID}}" k)
                           (String c0 cs)) None) as [|h0 hs] eqn:Hhives;
      [discriminate |].
    destruct (RegGetValue env HKEY_CLASSES_ROOT (REPOSITORY_PATH +:+ "\" +:+ k)
                          "PackageRootFolder") as [root|err] eqn:Hroot;
      [| discriminate].
    cbn [bindC] in He. injection He as <-.
    cbn [executionName gamePath name].
    split; [reflexivity |].
    exists d, s, root. rewrite Hat.
    repeat split; first [exact Hs | reflexivity].
  - destruct (RegGetValue env HKEY_CLASSES_ROOT (REPOSITORY_PATH +:+ "\" +:+ k)
                          "PackageRootFolder") as [root|err] eqn:Hroot;
      [| discriminate].
    cbn [bindC] in He. injection He as <-.
    cbn [executionName gamePath name].
    split; [reflexivity |].
    exists d, s, root. rewrite Hat.
    repeat split; first [exact Hs | reflexivity].
Qed.

Lemma legacy_entry_fields_witness :
  executionName
    {| appid := "SystemEraSoftworks.29415440E1269";
       publisherId := "ftk5pbg2rayv2";
       executionName := "Assets!Data";
       gamePath := VString "C:\Program Files\WindowsApps\Astro";
       name := VString "ASTRONEER";
       gameStoreId := "xbox" |}
  = match getFirstKeyName Legacy.namelessEnv HKEY_CLASSES_ROOT
            (path_join Legacy.namelessEnv REPOSITORY_PATH pkgAstro) with
    | Some ((String c0 cs) as child) => child
    | _ => "App"
    end /\
  exists d s root,
    RegGetValue Legacy.namelessEnv HKEY_CLASSES_ROOT
      (REPOSITORY_PATH +:+ "\" +:+ pkgAstro) "DisplayName" = Normal d /\
    value d = VString s /\
    RegGetValue Legacy.namelessEnv HKEY_CLASSES_ROOT
      (REPOSITORY_PATH +:+ "\" +:+ pkgAstro) "PackageRootFolder" = Normal root /\
    gamePath
      {| appid := "SystemEraSoftworks.29415440E1269";
         publisherId := "ftk5pbg2rayv2";
         executionName := "Assets!Data";
         gamePath := VString "C:\Program Files\WindowsApps\Astro";
         name := VString "ASTRONEER";
         gameStoreId := "xbox" |} = value root /\
    name
      {| appid := "SystemEraSoftworks.29415440E1269";
         publisherId := "ftk5pbg2rayv2";
         executionName := "Assets!Data";
         gamePath := VString "C:\Program Files\WindowsApps\Astro";
         name := VString "ASTRONEER";
         gameStoreId := "xbox" |}
    = (if startsWith s "@"
       then resolveRef Legacy.namelessEnv pkgAstro s
       else VString s).
Proof.
  apply (legacy_entry_fields Legacy.namelessEnv pkgAstro). evaluate.
Defined.

End LegacyProperties.

(** * Further properties of the helpers *)

Section HelperProperties.
Import Launcher Api.

(** X26: with a filter list [getKeyNames] returns exactly the names of
    the enumerated child keys whose lower-cased form starts with none of
    the listed patterns; and when the key cannot be opened, whatever the
    error, it returns the empty array and [getFirstKeyName] is
    undefined. *)
Theorem getKeyNames_filtered (env : Env) (rootKey : REGISTRY_HIVE)
    (keyPath : string) (filterList : list string) :
  (forall n,
     In n (getKeyNames env rootKey keyPath (Some filterList)) <->
     exists hkey k,
       WithRegOpen env rootKey keyPath = Normal hkey /\
       In k (RegEnumKeys hkey) /\ key k = n /\
       forall ign, In ign filterList ->
                   startsWith (toLowerCase env n) ign = false) /\
  (forall err,
     WithRegOpen env rootKey keyPath = Throw err ->
     getKeyNames env rootKey keyPath (Some filterList) = nil /\
     getKeyNames env rootKey keyPath None = nil /\
     getFirstKeyName env rootKey keyPath = None).
Proof.
  split.
  - intros n. unfold getKeyNames.
    destruct (WithRegOpen env rootKey keyPath) as [hkey|err].
    + rewrite in_map_iff. split.
      * intros (k & Hn & Hk). apply filter_In in Hk as [Hk Hnot].
        exists hkey, k. split; [reflexivity |]. split; [exact Hk |].
        split; [exact Hn |].
        intros ign Hign. unfold notIgnored in Hnot.
        destruct (List.find (fun ign => startsWith (toLowerCase env (key k)) ign)
                            filterList) eqn:Hfind; [discriminate |].
        rewrite <- Hn. exact (find_none _ _ Hfind ign Hign).
      * intros (hkey' & k & Hopen & Hk & Hn & Hnone).
        injection Hopen as <-.
        exists k. split; [exact Hn |].
        apply filter_In. split; [exact Hk |].
        unfold notIgnored. rewrite find_none_iff; [reflexivity |].
        intros ign Hign. rewrite Hn. exact (Hnone ign Hign).
    + split; [intros [] |].
      intros (hkey & k & Hopen & _). discriminate.
  - intros err Hclosed. unfold getFirstKeyName, getKeyNames.
    rewrite Hclosed. repeat split.
Qed.

Lemma getKeyNames_filtered_witness :
  In pkgAstro
     (getKeyNames exampleEnv HKEY_CLASSES_ROOT REPOSITORY_PATH (Some IGNORABLE)) /\
  ~ In pkgXbox
      (getKeyNames exampleEnv HKEY_CLASSES_ROOT REPOSITORY_PATH (Some IGNORABLE)) /\
  getKeyNames exampleEnv HKEY_CLASSES_ROOT "No\Such\Key" (Some IGNORABLE) = nil /\
  getKeyNames exampleEnv HKEY_CLASSES_ROOT "No\Such\Key" None = nil /\
  getFirstKeyName exampleEnv HKEY_CLASSES_ROOT "No\Such\Key" = None.
Proof.
  destruct (getKeyNames_filtered exampleEnv HKEY_CLASSES_ROOT REPOSITORY_PATH
              IGNORABLE) as [Hiff _].
  destruct (getKeyNames_filtered exampleEnv HKEY_CLASSES_ROOT "No\Such\Key"
              IGNORABLE) as [_ Hclosed].
  split; [| split].
  - apply Hiff.
    exists {| RegEnumKeys := keysOf (pkgXbox :: pkgAstro :: pkgSkyrim :: pkgNoName :: nil);
              RegEnumValues := nil |}, {| key := pkgAstro |}.
    split; [evaluate |]. split; [right; left; reflexivity |].
    split; [reflexivity |].
    intros ign Hign. unfold IGNORABLE in Hign.
    repeat (destruct Hign as [<- | Hign]; [evaluate |]).
    destruct Hign.
  - intros Hin. apply Hiff in Hin.
    destruct Hin as (hkey & k & _ & _ & _ & Hnone).
    specialize (Hnone "microsoft.xbox" xbox_pattern_listed).
    vm_compute in Hnone. discriminate.
  - apply (Hclosed ENOENT). evaluate.
Defined.



End HelperProperties.

Section ManifestDataProperties.
Import GamingRoot.

(** X27: [getAppManifestData] never rejects: when the manifest cannot be
    read, or its content cannot be parsed, it resolves to [undefined], and
    otherwise to what the parser returned. *)
Theorem getAppManifestData_settles (h : Host) (filePath : jsstring) :
  let file := path_join h filePath (APP_MANIFEST h) in
  (forall e, getAppManifestData h filePath <> Rejected e) /\
  (forall e, readFileUtf8 h file = Rejected e ->
             getAppManifestData h filePath = Resolved None) /\
  (forall content e,
     readFileUtf8 h file = Resolved content ->
     parseStringPromise h content = Rejected e ->
     getAppManifestData h filePath = Resolved None) /\
  (forall content parsed,
     readFileUtf8 h file = Resolved content ->
     parseStringPromise h content = Resolved parsed ->
     getAppManifestData h filePath = Resolved parsed).
Proof.
  intros file. unfold getAppManifestData. fold file.
  split; [| split; [| split]].
  - intros e. destruct (readFileUtf8 h file) as [content|e']; [| discriminate].
    destruct (parseStringPromise h content); discriminate.
  - intros e ->. reflexivity.
  - intros content e -> ->. reflexivity.
  - intros content parsed -> ->. reflexivity.
Qed.

Lemma getAppManifestData_settles_witness :
  getAppManifestData exampleHost (str "D:\A\Nothing") = Resolved None.
Proof.
  apply (proj1 (proj2 (getAppManifestData_settles exampleHost (str "D:\A\Nothing")))
           ENOENT).
  evaluate.
Defined.

Lemma recordManifest_proto (h : Host) (x : jsstring)
    (m : gmap jsstring jsstring) :
  m !! str "__proto__" = None ->
  recordManifest h x m !! str "__proto__" = None.
Proof.
  intros Hnone. unfold recordManifest.
  destruct (getAppManifestData h (path_dirname h x)) as [data|e]; [| exact Hnone].
  destruct (identityName data) as [[|c cs]|]; try exact Hnone.
  unfold assign, jsstring_eqb.
  destruct (decide (c :: cs = str "__proto__")) as [Heq | Hne].
  - rewrite bool_decide_eq_true_2 by exact Heq. exact Hnone.
  - rewrite bool_decide_eq_false_2 by exact Hne.
    rewrite lookup_insert_ne by exact Hne. exact Hnone.
Qed.

Lemma scanRoots_proto (h : Host) (roots : list jsstring)
    (m m' : gmap jsstring jsstring) :
  scanRoots h roots m = Normal m' ->
  m !! str "__proto__" = None -> m' !! str "__proto__" = None.
Proof.
  revert m.
  induction roots as [|r rest IH]; intros m Hscan Hnone.
  - injection Hscan as <-. exact Hnone.
  - simpl in Hscan.
    destruct (findManifests h r true) as [ms|e]; [| discriminate].
    simpl in Hscan. rewrite scanManifests_fold in Hscan. simpl in Hscan.
    apply (IH _ Hscan).
    clear Hscan IH. revert m Hnone.
    induction ms as [|x xs IHx]; intros m Hnone; [exact Hnone |].
    simpl. apply IHx. apply recordManifest_proto. exact Hnone.
Qed.

(** X28: a manifest whose identity name is [__proto__] leaves no entry:
    the map that [findInstalledGames] returns never has this key. *)
Theorem installed_games_no_proto_key (h : Host) (m : gmap jsstring jsstring) :
  findInstalledGames h = Resolved m ->
  m !! str "__proto__" = None.
Proof.
  unfold findInstalledGames. intros Hfind.
  destruct (findXboxGamingRootPaths h) as [roots|e]; [| discriminate].
  simpl in Hfind.
  destruct (scanRoots h roots ∅) as [m'|e] eqn:Hscan; [| discriminate].
  injection Hfind as ->.
  apply (scanRoots_proto h roots ∅ m Hscan). apply lookup_empty.
Qed.

Lemma installed_games_no_proto_key_witness :
  manifestIdentity
    (withManifestContent exampleHost (str "D:\A\Bar\appxmanifest.xml")
                         (str "__proto__"))
    (str "D:\A\Bar\appxmanifest.xml") = Some (str "__proto__") /\
  (<[str "Foo" := str "D:\A\Foo"]> ∅ : gmap jsstring jsstring)
    !! str "__proto__" = None.
Proof.
  split; [evaluate |].
  apply (installed_games_no_proto_key
           (withManifestContent exampleHost (str "D:\A\Bar\appxmanifest.xml")
                                (str "__proto__"))).
  evaluate.
Defined.

End ManifestDataProperties.
